(** * gdal_boots.geometry: a shallow embedding and its verified properties

    The development follows [src/gdal_boots/geometry.py].  Python values are
    modelled as follows.

    - A Python [float] of the resolution calculator is a binary64 value
      ([float]): a finite rational, an infinity or NaN, with the rounding of
      IEEE 754 after every operation.  The coordinates of a geometry and of
      a mapping are kept as the rationals they stand for ([Q]).
    - A Python exception is a constructor of [exn]; a computation that can
      raise returns a [result].
    - The OGR/OSR/GEOS objects the module manipulates live in a store
      ([world]), addressed by handles, so that in-place mutation and cloning
      are visible.  What the external library computes (make-valid, union,
      reprojection) is an interface ([Library]) the code is parametric in. *)

From Stdlib Require Import ZArith QArith Qround Qabs Qminmax Qpower Qreduction Lia Lqa String Ascii
  List Bool.
From Stdlib Require Qcanon PrimFloat FloatOps SpecFloat.
From stdpp Require Import base option gmap strings.
Import ListNotations.

Local Open Scope Z_scope.
Local Open Scope string_scope.

(* ===================================================================== *)
(** * Part I: the embedding                                               *)
(* ===================================================================== *)

(** ** Python exceptions and fallible computations *)

Inductive exn : Type :=
| ValueError (msg : string)
| TypeError (msg : string)
| AttributeError (msg : string)
| RuntimeError (msg : string)
| KeyError (msg : string)
| IndexError (msg : string)
| ZeroDivisionError (msg : string)
| OverflowError (msg : string).

Inductive result (A : Type) : Type :=
| Ok (a : A)
| Raise (e : exn).

Arguments Ok {A} a.
Arguments Raise {A} e.

#[export] Instance result_ret : MRet result := fun A a => Ok a.

#[export] Instance result_bind : MBind result := fun A B f r =>
  match r with
  | Ok a => f a
  | Raise e => Raise e
  end.

(** [for x in xs: acc = body(acc, x)], stopping at the first exception. *)
Fixpoint for_each {A B : Type} (body : B -> A -> result B) (xs : list A) (acc : B)
  : result B :=
  match xs with
  | [] => Ok acc
  | x :: xs' =>
      match body acc x with
      | Ok acc' => for_each body xs' acc'
      | Raise e => Raise e
      end
  end.

(** [[f(x) for x in xs]], stopping at the first exception. *)
Fixpoint comprehension {A B : Type} (f : A -> result B) (xs : list A) : result (list B) :=
  match xs with
  | [] => Ok []
  | x :: xs' =>
      match f x with
      | Ok y =>
          match comprehension f xs' with
          | Ok ys => Ok (y :: ys)
          | Raise e => Raise e
          end
      | Raise e => Raise e
      end
  end.

(** ** Numbers *)

(** [str.lower] on ASCII text. *)
Definition lower_ascii (c : ascii) : ascii :=
  let n := nat_of_ascii c in
  if ((65 <=? n)%nat && (n <=? 90)%nat)%bool then ascii_of_nat (n + 32) else c.

Fixpoint lower (s : string) : string :=
  match s with
  | EmptyString => EmptyString
  | String c s' => String (lower_ascii c) (lower s')
  end.

(** Python's one-argument [round]: nearest integer, ties to the even one. *)
Definition py_round (x : Q) : Z :=
  let f := Qfloor x in
  match Qcompare (x - inject_Z f) (1 # 2) with
  | Lt => f
  | Gt => f + 1
  | Eq => if Z.even f then f else f + 1
  end.

(** Python's two-argument [round(x, ndigits)]: nearest multiple of
    [10 ** -ndigits], ties to even. *)
Definition py_round_ndigits (x : Q) (ndigits : Z) : Q :=
  (inject_Z (py_round (x * Qpower (10 # 1) ndigits)) / Qpower (10 # 1) ndigits)%Q.

(** ** binary64

    A Python [float] is an IEEE 754 binary64 value: a finite number
    [m * 2^e] with [|m| < 2^53] and [-1074 <= e <= 971], an infinity, or
    NaN.  A finite value is kept as the rational it is; the two zeros,
    which Python compares equal, are one value.  An operation computes
    the exact result and rounds it to the nearest binary64 value, ties to
    the even significand, as the standard prescribes. *)
Inductive float : Type :=
| Finite (q : Q)
| Infinity (negative : bool)
| NaN.

Definition pow2 (e : Z) : Q := Qpower 2 e.

(** The binade of a non-zero [x]: [2^ilog2 x <= |x| < 2^(ilog2 x + 1)]. *)
Definition ilog2 (x : Q) : Z :=
  let l := Z.log2 (Z.abs (Qnum x)) - Z.log2 (Zpos (Qden x)) in
  if Qle_bool (pow2 l) (Qabs x) then l else l - 1.

(** The exponent of the unit in the last place of the binary64 values
    around [x]: 53 significant bits, and no exponent below that of the
    subnormal numbers. *)
Definition exponent (x : Q) : Z := Z.max (ilog2 x - 52) (-1074).

(** The multiple of [2^exponent x] nearest to [x], ties to even. *)
Definition nearest (x : Q) : Q :=
  (inject_Z (py_round (x / pow2 (exponent x))) * pow2 (exponent x))%Q.

(** Rounding an exact result to binary64: what reaches [2^1024] overflows
    to an infinity. *)
Definition binary64 (x : Q) : float :=
  if Qeq_bool x 0 then Finite 0
  else if Qle_bool (pow2 1024) (Qabs (nearest x)) then Infinity (negb (Qle_bool 0 x))
  else Finite (Qred (nearest x)).

(** [a + b] on floats. *)
Definition float_add (a b : float) : float :=
  match a, b with
  | NaN, _ | _, NaN => NaN
  | Infinity s, Infinity s' => if Bool.eqb s s' then Infinity s else NaN
  | Infinity s, Finite _ | Finite _, Infinity s => Infinity s
  | Finite x, Finite y => binary64 (x + y)
  end.

(** [a - b] on floats. *)
Definition float_sub (a b : float) : float :=
  match a, b with
  | NaN, _ | _, NaN => NaN
  | Infinity s, Infinity s' => if Bool.eqb s s' then NaN else Infinity s
  | Infinity s, Finite _ => Infinity s
  | Finite _, Infinity s => Infinity (negb s)
  | Finite x, Finite y => binary64 (x - y)
  end.

(** Python's true division [a / b] on floats: a zero divisor raises,
    whatever the dividend. *)
Definition py_div (a b : float) : result float :=
  match a, b with
  | _, Finite y =>
      if Qeq_bool y 0 then Raise (ZeroDivisionError "float division by zero")
      else
        match a with
        | Finite x => Ok (binary64 (x / y))
        | Infinity s => Ok (Infinity (xorb s (negb (Qle_bool 0 y))))
        | NaN => Ok NaN
        end
  | NaN, _ | _, NaN => Ok NaN
  | Infinity _, Infinity _ => Ok NaN
  | Finite _, Infinity _ => Ok (Finite 0)
  end.

(** Python's one-argument [round] on a float: an [int], or an exception
    for an infinity and for NaN. *)
Definition round (x : float) : result Z :=
  match x with
  | Finite q => Ok (py_round q)
  | Infinity _ => Raise (OverflowError "cannot convert float infinity to integer")
  | NaN => Raise (ValueError "cannot convert float NaN to integer")
  end.

(** The conversion of an [int] operand of a float operation. *)
Definition float_of_int (n : Z) : result float :=
  match binary64 (inject_Z n) with
  | Infinity _ => Raise (OverflowError "int too large to convert to float")
  | f => Ok f
  end.

(** [a / n] for a float [a] and an [int] [n]. *)
Definition py_div_int (a : float) (n : Z) : result float :=
  b ← float_of_int n; py_div a b.

(** ** Resolution calculator *)

(** The literal [10e-9] of the source, that is 1e-8 rounded to binary64. *)
Definition ten_e_minus_9 : float := binary64 (1 # 100000000).

(** The rational the literal stands for. *)
Definition epsilon : Q := 3022314549036573 # 302231454903657293676544.

(** [max(1, round(span / orig + 10e-9))]: one axis of lines 231-232. *)
Definition cells (span orig : float) : result Z :=
  q ← py_div span orig;
  n ← round (float_add q ten_e_minus_9);
  mret (Z.max 1 n).

Definition calc_best_resolution_bbox
  (x_min x_max y_min y_max : float) (orig_resolution : float * float)
  : result (float * float) :=
  let dx := float_sub x_max x_min in
  let dy := float_sub y_max y_min in
  cells_x ← cells dx (fst orig_resolution);
  cells_y ← cells dy (snd orig_resolution);
  res_x ← py_div_int dx cells_x;
  res_y ← py_div_int dy cells_y;
  mret (res_x, res_y).

(** ** binary64 against the floats of the machine

    The primitive floats of Rocq are the binary64 numbers of the
    processor.  [of_machine] reads one as a [float]; [agree_add],
    [agree_sub] and [agree_div] compare an operation of this file with
    the processor's on a pair of operands. *)
Module Machine.
Import PrimFloat.
#[local] Set Warnings "-inexact-float".
Definition samples : list PrimFloat.float :=
  [0; 1; 3; 10; 0.1; 8.5; 85; 1e-8; 1e300; 1.7976931348623157e308; 5e-324;
   2.2250738585072014e-308; 134217728.5; 9007199254740993; -3; -1e-300;
   infinity; neg_infinity; nan]%float.
Definition literal : PrimFloat.float := 10e-9%float.
End Machine.

Definition of_machine (f : PrimFloat.float) : float :=
  match FloatOps.Prim2SF f with
  | SpecFloat.S754_zero _ => Finite 0
  | SpecFloat.S754_infinity s => Infinity s
  | SpecFloat.S754_nan => NaN
  | SpecFloat.S754_finite s m e =>
      Finite (Qred (inject_Z (if s then Zneg m else Zpos m) * pow2 e))
  end.

Definition float_eqb (a b : float) : bool :=
  match a, b with
  | Finite x, Finite y => Qeq_bool x y && Qeq_bool (Qred x) x
  | Infinity s, Infinity s' => Bool.eqb s s'
  | NaN, NaN => true
  | _, _ => false
  end.

Definition agree_add (a b : PrimFloat.float) : bool :=
  float_eqb (float_add (of_machine a) (of_machine b)) (of_machine (PrimFloat.add a b)).

Definition agree_sub (a b : PrimFloat.float) : bool :=
  float_eqb (float_sub (of_machine a) (of_machine b)) (of_machine (PrimFloat.sub a b)).

Definition agree_div (a b : PrimFloat.float) : bool :=
  match py_div (of_machine a) (of_machine b) with
  | Ok q => float_eqb q (of_machine (PrimFloat.div a b))
  | Raise _ => PrimFloat.eqb b PrimFloat.zero
  end.

Definition all_pairs (f : PrimFloat.float -> PrimFloat.float -> bool) : bool :=
  forallb (fun a => forallb (fun b => f a b) Machine.samples) Machine.samples.

(** ** The OGR geometry value

    One node of an OGR geometry: its type, its dimension flag, the points
    it holds itself (a point or a curve) and the parts it owns (rings of a
    polygon, members of a multi-geometry or collection).  A 2D node keeps
    [z = 0] for each of its points. *)

Inductive wkbGeometryType : Type :=
| wkbPoint
| wkbLineString
| wkbLinearRing
| wkbPolygon
| wkbMultiPoint
| wkbMultiLineString
| wkbMultiPolygon
| wkbGeometryCollection.

#[export] Instance wkbGeometryType_eq_dec : EqDecision wkbGeometryType.
Proof. solve_decision. Defined.

Definition xyz : Type := Q * Q * Q.

#[warnings="-register-all"]
Inductive Geometry : Type :=
| mkGeometry (gtype : wkbGeometryType) (is3D : bool) (points : list xyz)
    (parts : list Geometry).

Definition gtype (g : Geometry) : wkbGeometryType :=
  match g with mkGeometry t _ _ _ => t end.
Definition is3D (g : Geometry) : bool :=
  match g with mkGeometry _ d _ _ => d end.
Definition points (g : Geometry) : list xyz :=
  match g with mkGeometry _ _ ps _ => ps end.
Definition parts (g : Geometry) : list Geometry :=
  match g with mkGeometry _ _ _ gs => gs end.

(** [ogr.Geometry(type)]: a new empty geometry. *)
Definition ogr_Geometry (t : wkbGeometryType) : Geometry := mkGeometry t false [] [].

Definition GetGeometryName (g : Geometry) : string :=
  match gtype g with
  | wkbPoint => "POINT"
  | wkbLineString => "LINESTRING"
  | wkbLinearRing => "LINEARRING"
  | wkbPolygon => "POLYGON"
  | wkbMultiPoint => "MULTIPOINT"
  | wkbMultiLineString => "MULTILINESTRING"
  | wkbMultiPolygon => "MULTIPOLYGON"
  | wkbGeometryCollection => "GEOMETRYCOLLECTION"
  end.

Definition GetGeometryCount (g : Geometry) : nat := length (parts g).

Definition GetGeometryRef (g : Geometry) (i : nat) : option Geometry := parts g !! i.

Definition is_curve (t : wkbGeometryType) : bool :=
  match t with wkbLineString | wkbLinearRing => true | _ => false end.

(** [set3D(TRUE)] gives every point of the tree a z (0 where there was
    none); [set3D(FALSE)] drops every z. *)
Fixpoint set3D (flag : bool) (g : Geometry) : Geometry :=
  match g with
  | mkGeometry t _ ps gs =>
      mkGeometry t flag
        (if flag then ps else map (fun p : xyz => (fst (fst p), snd (fst p), 0%Q)) ps)
        (map (set3D flag) gs)
  end.

Definition FlattenTo2D (g : Geometry) : Geometry := set3D false g.

(** [AddPoint_2D(x, y)]: a point geometry takes the coordinates, a curve
    gets one more vertex, any other geometry is left as it is. *)
Definition AddPoint_2D (g : Geometry) (x y : Q) : Geometry :=
  match g with
  | mkGeometry t d ps gs =>
      match t with
      | wkbPoint =>
          let z := match ps with p :: _ => snd p | [] => 0%Q end in
          mkGeometry t d [(x, y, z)] gs
      | wkbLineString | wkbLinearRing => mkGeometry t d (ps ++ [(x, y, 0%Q)]) gs
      | _ => g
      end
  end.

(** [AddPoint(x, y, z=0)]: as above, and the geometry becomes 3D. *)
Definition AddPoint (g : Geometry) (x y z : Q) : Geometry :=
  match g with
  | mkGeometry t d ps gs =>
      match t with
      | wkbPoint => mkGeometry t true [(x, y, z)] gs
      | wkbLineString | wkbLinearRing => mkGeometry t true (ps ++ [(x, y, z)]) gs
      | _ => g
      end
  end.

(** Which part types a container takes; OGR refuses the others and
    reports it through a return code the module never reads. *)
Definition accepts (parent child : wkbGeometryType) : bool :=
  match parent, child with
  | wkbPolygon, wkbLinearRing => true
  | wkbMultiPoint, wkbPoint => true
  | wkbMultiLineString, wkbLineString => true
  | wkbMultiPolygon, wkbPolygon => true
  | wkbGeometryCollection, wkbLinearRing => false
  | wkbGeometryCollection, _ => true
  | _, _ => false
  end.

(** [parent.AddGeometry(child)]: appends a copy of [child]; parent and
    child are brought to one dimension (3D if either is). *)
Definition AddGeometry (parent child : Geometry) : Geometry :=
  if accepts (gtype parent) (gtype child) then
    if is3D child then
      match set3D true parent with
      | mkGeometry t d ps gs => mkGeometry t d ps (gs ++ [child])
      end
    else
      match parent with
      | mkGeometry t d ps gs =>
          mkGeometry t d ps (gs ++ [if d then set3D true child else child])
      end
  else parent.

(** [GetPoints()]: [None] for a geometry without points of its own,
    otherwise one tuple per point, of 2 or 3 floats by the dimension. *)
Definition GetPoints (g : Geometry) : option (list (list Q)) :=
  match points g with
  | [] => None
  | ps =>
      Some (map (fun p : xyz =>
                   if is3D g then [fst (fst p); snd (fst p); snd p]
                   else [fst (fst p); snd (fst p)]) ps)
  end.

Definition xyz_eqb (p q : xyz) : bool :=
  Qeq_bool (fst (fst p)) (fst (fst q))
  && Qeq_bool (snd (fst p)) (snd (fst q))
  && Qeq_bool (snd p) (snd q).

(** A ring of two or more points whose ends differ gets its first point
    appended. *)
Definition close_ring (ring : Geometry) : Geometry :=
  match ring with
  | mkGeometry t d ps gs =>
      match ps, last ps with
      | p0 :: _ :: _, Some pn =>
          if xyz_eqb p0 pn then ring else mkGeometry t d (ps ++ [p0]) gs
      | _, _ => ring
      end
  end.

Definition close_polygon (g : Geometry) : Geometry :=
  match g with
  | mkGeometry t d ps gs => mkGeometry t d ps (map close_ring gs)
  end.

(** [CloseRings()]: a ring closes itself, a polygon closes its rings, a
    multi-geometry or collection closes the polygons that are its direct
    members; any other geometry is left as it is. *)
Definition CloseRings (g : Geometry) : Geometry :=
  match g with
  | mkGeometry t d ps gs =>
      match t with
      | wkbLinearRing => close_ring g
      | wkbPolygon => close_polygon g
      | wkbMultiPoint | wkbMultiLineString | wkbMultiPolygon | wkbGeometryCollection =>
          mkGeometry t d ps
            (map (fun m => if decide (gtype m = wkbPolygon) then close_polygon m else m) gs)
      | _ => g
      end
  end.

(** ** GeoJSON-shaped mappings

    [coords] is what sits under ["coordinates"]: numbers and nested lists
    of them.  A mapping has its ["type"] string and, when present, its
    ["coordinates"] and ["geometries"] members; members the handlers
    swallow in [**kwargs] are not represented. *)

#[warnings="-register-all"]
Inductive coords : Type :=
| Num (q : Q)
| Seq (items : list coords).

#[warnings="-register-all"]
Inductive mapping : Type :=
| Mapping (type_ : string) (coordinates : option coords)
    (geometries : option (list mapping)).

(** Iterating ([for x in v], [*v]) or slicing a value that is a number
    raises [TypeError]. *)
Definition iter (v : coords) : result (list coords) :=
  match v with
  | Seq items => Ok items
  | Num _ => Raise (TypeError "'float' object is not iterable")
  end.

(** A required keyword argument [name] of the method [method_], called
    with the members of the mapping as keyword arguments.  The text is
    the one of Python 3.10 and later, which names the method with its
    class; earlier versions leave the class out. *)
Definition required {A : Type} (method_ name : string) (v : option A) : result A :=
  match v with
  | Some a => Ok a
  | None =>
      Raise (TypeError ("GeometryBuilder." ++ method_
                        ++ "() missing 1 required positional argument: '" ++ name ++ "'"))
  end.

(** ** GeometryBuilder *)

(** [geometry.AddPoint_2D] on unpacked arguments: exactly two floats. *)
Definition call_AddPoint_2D (geometry : Geometry) (args : list coords) : result Geometry :=
  match args with
  | [Num x; Num y] => Ok (AddPoint_2D geometry x y)
  | _ => Raise (TypeError "AddPoint_2D: wrong arguments")
  end.

(** [geometry.AddPoint] on unpacked arguments: two or three floats, [z]
    defaults to 0. *)
Definition call_AddPoint (geometry : Geometry) (args : list coords) : result Geometry :=
  match args with
  | [Num x; Num y] => Ok (AddPoint geometry x y 0%Q)
  | [Num x; Num y; Num z] => Ok (AddPoint geometry x y z)
  | _ => Raise (TypeError "AddPoint: wrong arguments")
  end.

Definition _add_point (flatten : bool) (geometry : Geometry) (point : coords)
  : result Geometry :=
  args ← iter point;
  if flatten then call_AddPoint_2D geometry (take 2 args)
  else call_AddPoint geometry args.

Definition _add_points (flatten : bool) (geometry : Geometry) (points_ : coords)
  : result Geometry :=
  ps ← iter points_;
  for_each (_add_point flatten) ps geometry.

Definition create_linearring (flatten : bool) (coordinates : coords) : result Geometry :=
  _add_points flatten (ogr_Geometry wkbLinearRing) coordinates.

Definition create_linestring (flatten : bool) (coordinates : coords) : result Geometry :=
  _add_points flatten (ogr_Geometry wkbLineString) coordinates.

Definition create_point (flatten : bool) (coordinates : coords) : result Geometry :=
  _add_point flatten (ogr_Geometry wkbPoint) coordinates.

Definition create_polygon (flatten : bool) (coordinates : coords) : result Geometry :=
  rings ← iter coordinates;
  for_each (fun polygon ring_coords =>
              ring ← create_linearring flatten ring_coords;
              mret (AddGeometry polygon ring))
    rings (ogr_Geometry wkbPolygon).

Definition create_multipolygon (flatten : bool) (coordinates : coords) : result Geometry :=
  polygons ← iter coordinates;
  for_each (fun multipolygon polygon_coordinates =>
              polygon ← create_polygon flatten polygon_coordinates;
              mret (AddGeometry multipolygon polygon))
    polygons (ogr_Geometry wkbMultiPolygon).

Definition create_multilinestring (flatten : bool) (coordinates : coords) : result Geometry :=
  lines ← iter coordinates;
  for_each (fun linestring line_coordinates =>
              line ← create_linestring flatten line_coordinates;
              mret (AddGeometry linestring line))
    lines (ogr_Geometry wkbMultiLineString).

(** The methods of [GeometryBuilder] that [getattr(self, "create_...")]
    can find. *)
Inductive builder_handler : Type :=
| h_create_polygon
| h_create_linearring
| h_create_linestring
| h_create_multipolygon
| h_create_point
| h_create_geometrycollection
| h_create_multilinestring.

Definition builder_getattr (name : string) : option builder_handler :=
  if String.eqb name "create_polygon" then Some h_create_polygon
  else if String.eqb name "create_linearring" then Some h_create_linearring
  else if String.eqb name "create_linestring" then Some h_create_linestring
  else if String.eqb name "create_multipolygon" then Some h_create_multipolygon
  else if String.eqb name "create_point" then Some h_create_point
  else if String.eqb name "create_geometrycollection" then Some h_create_geometrycollection
  else if String.eqb name "create_multilinestring" then Some h_create_multilinestring
  else None.

(** [GeometryBuilder(flatten).create(geometry)] on a mapping.  (A [str]
    argument is handed to [ogr.CreateGeometryFromJson] as it is; that
    branch is the library's and is not represented.) *)
Fixpoint create (flatten : bool) (geometry : mapping) {struct geometry} : result Geometry :=
  match geometry with
  | Mapping type_ coordinates geometries =>
      let geometry_type_lower := lower type_ in
      match builder_getattr ("create_" ++ geometry_type_lower) with
      | None => Raise (ValueError (geometry_type_lower ++ " is not supported"))
      | Some h_create_geometrycollection =>
          match geometries with
          | None => required ("create_" ++ geometry_type_lower) "geometries" None
          | Some members =>
              (fix loop (ms : list mapping) (collection : Geometry) : result Geometry :=
                 match ms with
                 | [] => Ok collection
                 | m :: ms' =>
                     match create flatten m with
                     | Ok sub => loop ms' (AddGeometry collection sub)
                     | Raise e => Raise e
                     end
                 end) members (ogr_Geometry wkbGeometryCollection)
          end
      | Some h =>
          c ← required ("create_" ++ geometry_type_lower) "coordinates" coordinates;
          match h with
          | h_create_polygon => create_polygon flatten c
          | h_create_linearring => create_linearring flatten c
          | h_create_linestring => create_linestring flatten c
          | h_create_multipolygon => create_multipolygon flatten c
          | h_create_point => create_point flatten c
          | h_create_multilinestring => create_multilinestring flatten c
          | h_create_geometrycollection => Raise (TypeError "unreachable")
          end
      end
  end.

(** ** GeometryGeoJson *)

(** [self.precision = precision or 15]: [None] and [0] both give 15. *)
Definition GeometryGeoJson_precision (precision : option Z) : Z :=
  match precision with
  | None => 15
  | Some 0 => 15
  | Some p => p
  end.

Definition _get_points (precision : Z) (geometry : Geometry) : result coords :=
  match GetPoints geometry with
  | None => Raise (TypeError "'NoneType' object is not iterable")
  | Some ps =>
      Ok (Seq (map (fun p => Seq (map (fun c => Num (py_round_ndigits c precision)) p)) ps))
  end.

(** [d["coordinates"]] on a mapping. *)
Definition getitem_coordinates (d : mapping) : result coords :=
  match d with
  | Mapping _ (Some c) _ => Ok c
  | Mapping _ None _ => Raise (KeyError "coordinates")
  end.

(** The loops of the serializer run [i] over [range(GetGeometryCount())]
    and read [GetGeometryRef(i)]: they visit [parts] in order. *)
Definition convert_polygon (precision : Z) (geometry : Geometry) : result mapping :=
  coordinates ← comprehension (_get_points precision) (parts geometry);
  mret (Mapping "Polygon" (Some (Seq coordinates)) None).

Definition convert_multipolygon (precision : Z) (geometry : Geometry) : result mapping :=
  coordinates ← comprehension
    (fun sub_geom => d ← convert_polygon precision sub_geom; getitem_coordinates d)
    (parts geometry);
  mret (Mapping "MultiPolygon" (Some (Seq coordinates)) None).

Definition convert_point (precision : Z) (geometry : Geometry) : result mapping :=
  ps ← _get_points precision geometry;
  match ps with
  | Seq (p :: _) => Ok (Mapping "Point" (Some p) None)
  | _ => Raise (IndexError "list index out of range")
  end.

Definition convert_multilinestring (precision : Z) (geometry : Geometry) : result mapping :=
  lines ← comprehension (_get_points precision) (parts geometry);
  mret (Mapping "MultiLineString" (Some (Seq lines)) None).

(** The methods of [GeometryGeoJson] that [getattr(self, "convert_...")]
    can find. *)
Inductive serializer_handler : Type :=
| h_convert_polygon
| h_convert_multipolygon
| h_convert_point
| h_convert_geometrycollection
| h_convert_multilinestring.

Definition serializer_getattr (name : string) : option serializer_handler :=
  if String.eqb name "convert_polygon" then Some h_convert_polygon
  else if String.eqb name "convert_multipolygon" then Some h_convert_multipolygon
  else if String.eqb name "convert_point" then Some h_convert_point
  else if String.eqb name "convert_geometrycollection" then Some h_convert_geometrycollection
  else if String.eqb name "convert_multilinestring" then Some h_convert_multilinestring
  else None.

(** [GeometryGeoJson(precision).convert(geometry)], with [precision]
    already resolved by the constructor. *)
Fixpoint convert (precision : Z) (geometry : Geometry) {struct geometry} : result mapping :=
  let geometry_type_lower := lower (GetGeometryName geometry) in
  match serializer_getattr ("convert_" ++ geometry_type_lower) with
  | None => Raise (ValueError (geometry_type_lower ++ " is not supported"))
  | Some h_convert_polygon => convert_polygon precision geometry
  | Some h_convert_multipolygon => convert_multipolygon precision geometry
  | Some h_convert_point => convert_point precision geometry
  | Some h_convert_multilinestring => convert_multilinestring precision geometry
  | Some h_convert_geometrycollection =>
      match geometry with
      | mkGeometry _ _ _ members =>
          match
            (fix loop (ms : list Geometry) : result (list mapping) :=
               match ms with
               | [] => Ok []
               | m :: ms' =>
                   match convert precision m with
                   | Ok d =>
                       match loop ms' with
                       | Ok ds => Ok (d :: ds)
                       | Raise e => Raise e
                       end
                   | Raise e => Raise e
                   end
               end) members
          with
          | Ok geometries => Ok (Mapping "GeometryCollection" None (Some geometries))
          | Raise e => Raise e
          end
      end
  end.

(** [serialize(build(g))] of the specification. *)
Definition serialize_build (flatten : bool) (precision : option Z) (g : mapping)
  : result mapping :=
  geometry ← create flatten g;
  convert (GeometryGeoJson_precision precision) geometry.

(** ** Objects and the external library

    OGR geometries and OSR spatial references are mutable objects.  The
    store maps a handle to the current value of the object behind it; a
    Python variable bound to [None] or to an object is an [option] of a
    handle. *)

Inductive AxisMappingStrategy : Type :=
| OAMS_TRADITIONAL_GIS_ORDER
| OAMS_AUTHORITY_COMPLIANT
| OAMS_CUSTOM.

Record SpatialReference : Type := mkSpatialReference {
  definition : string;
  axis_mapping_strategy : AxisMappingStrategy
}.

Abbreviation handle := positive.

Record world : Type := mkWorld {
  geoms : gmap handle Geometry;
  refs : gmap handle SpatialReference;
  last_error_msg : string
}.

(** How [osr.CoordinateTransformation(src, dst)] can end: with a usable
    transformation, with a proxy around a null pointer and a diagnostic
    left in the last-error channel, or with an exception of the binding. *)
Inductive ct_outcome : Type :=
| ct_built
| ct_null (diagnostic : string)
| ct_raise (e : exn).

(** What the module takes from GDAL/GEOS without looking inside. *)
Record Library : Type := mkLibrary {
  lib_new_transformation : SpatialReference -> SpatialReference -> ct_outcome;
  (** [Transform] rewrites the geometry in place; it answers an error
      code, or, when the bindings have exceptions enabled
      ([UseExceptions()]), raises for a failure of the library. *)
  lib_transform : SpatialReference -> SpatialReference -> Geometry -> Geometry * result Z;
  (** [MakeValid] answers a new geometry, or nothing and a diagnostic. *)
  lib_make_valid : Geometry -> Geometry + string;
  (** [Union] answers a new geometry, or nothing. *)
  lib_union : Geometry -> Geometry -> option Geometry
}.

(** A transformation object: the two references it was built from, or
    the null pointer. *)
Definition CoordinateTransformation_obj : Type := option (SpatialReference * SpatialReference).

(** Stateful computations that may raise; the store survives a raise. *)
Definition M (A : Type) : Type := world -> result A * world.

#[export] Instance M_ret : MRet M := fun A a w => (Ok a, w).

#[export] Instance M_bind : MBind M := fun A B f m w =>
  match m w with
  | (Ok a, w') => f a w'
  | (Raise e, w') => (Raise e, w')
  end.

Definition raise {A : Type} (e : exn) : M A := fun w => (Raise e, w).

Definition lift {A : Type} (r : result A) : M A := fun w => (r, w).

Definition geom_get (h : handle) : M Geometry := fun w =>
  match geoms w !! h with
  | Some g => (Ok g, w)
  | None => (Raise (RuntimeError "geometry handle is not valid"), w)
  end.

(** In-place mutation of the object behind [h]. *)
Definition geom_set (h : handle) (g : Geometry) : M unit := fun w =>
  (Ok tt, mkWorld (<[h := g]> (geoms w)) (refs w) (last_error_msg w)).

(** A new object. *)
Definition geom_new (g : Geometry) : M handle := fun w =>
  let h := fresh (dom (geoms w)) in
  (Ok h, mkWorld (<[h := g]> (geoms w)) (refs w) (last_error_msg w)).

Definition geom_Destroy (h : handle) : M unit := fun w =>
  (Ok tt, mkWorld (delete h (geoms w)) (refs w) (last_error_msg w)).

Definition geom_Clone (h : handle) : M handle :=
  g ← geom_get h; geom_new g.

Definition srs_get (h : handle) : M SpatialReference := fun w =>
  match refs w !! h with
  | Some r => (Ok r, w)
  | None => (Raise (RuntimeError "spatial reference handle is not valid"), w)
  end.

Definition srs_Clone (h : handle) : M handle := fun w =>
  match refs w !! h with
  | Some r =>
      let h' := fresh (dom (refs w)) in
      (Ok h', mkWorld (geoms w) (<[h' := r]> (refs w)) (last_error_msg w))
  | None => (Raise (RuntimeError "spatial reference handle is not valid"), w)
  end.

Definition SetAxisMappingStrategy (h : handle) (s : AxisMappingStrategy) : M unit := fun w =>
  match refs w !! h with
  | Some r =>
      (Ok tt, mkWorld (geoms w) (<[h := mkSpatialReference (definition r) s]> (refs w))
                (last_error_msg w))
  | None => (Raise (RuntimeError "spatial reference handle is not valid"), w)
  end.

Definition set_last_error (msg : string) : M unit := fun w =>
  (Ok tt, mkWorld (geoms w) (refs w) msg).

(** [gdal.GetLastErrorMsg()] *)
Definition GetLastErrorMsg : M string := fun w => (Ok (last_error_msg w), w).

(** [osr.CoordinateTransformation(src, dst)] *)
Definition CoordinateTransformation (L : Library) (src dst : handle)
  : M CoordinateTransformation_obj :=
  s ← srs_get src;
  d ← srs_get dst;
  match lib_new_transformation L s d with
  | ct_built => mret (Some (s, d))
  | ct_null diagnostic => _ ← set_last_error diagnostic; mret None
  | ct_raise e => raise e
  end.

(** [geometry.Transform(transformation)]: the binding refuses the proxy
    of a null pointer; otherwise the object is rewritten in place and
    the call answers the error code of the library, or raises where the
    bindings turn a failure into an exception. *)
Definition geom_Transform (L : Library) (h : handle) (ct : CoordinateTransformation_obj)
  : M Z :=
  match ct with
  | None =>
      raise (TypeError
        "in method 'Geometry_Transform', argument 2 of type 'OSRCoordinateTransformationShadow *'")
  | Some (s, d) =>
      g ← geom_get h;
      let '(g', answer) := lib_transform L s d g in
      _ ← geom_set h g';
      lift answer
  end.

(** [geometry.MakeValid()]: a new object, or [None] with a diagnostic
    in the last-error channel. *)
Definition geom_MakeValid (L : Library) (h : handle) : M (option handle) :=
  g ← geom_get h;
  match lib_make_valid L g with
  | inl v => h' ← geom_new v; mret (Some h')
  | inr diagnostic => _ ← set_last_error diagnostic; mret None
  end.

(** [a.Union(b)] where [b] is a part read through [GetGeometryRef]. *)
Definition geom_Union (L : Library) (a : handle) (b : Geometry) : M (option handle) :=
  ga ← geom_get a;
  match lib_union L ga b with
  | Some u => h' ← geom_new u; mret (Some h')
  | None => mret None
  end.

(** A method call on a variable that may hold [None]. *)
Definition method {A : Type} (name : string) (v : option handle) (call : handle -> M A)
  : M A :=
  match v with
  | Some h => call h
  | None => raise (AttributeError ("'NoneType' object has no attribute '" ++ name ++ "'"))
  end.

Fixpoint for_each_M {A B : Type} (body : B -> A -> M B) (xs : list A) (acc : B) : M B :=
  match xs with
  | [] => mret acc
  | x :: xs' => acc' ← body acc x; for_each_M body xs' acc'
  end.

(** ** Module functions on objects *)

Definition to_geojson (geometry : handle) (flatten : bool) (precision : option Z)
  : M mapping :=
  _ ← (if flatten then
         g ← geom_get geometry;
         geom_set geometry (FlattenTo2D g)
       else mret tt);
  g ← geom_get geometry;
  lift (convert (GeometryGeoJson_precision precision) g).

Definition transform_by_srs (L : Library) (geometry from_srs to_srs : handle) : M handle :=
  from_srs' ← srs_Clone from_srs;
  _ ← SetAxisMappingStrategy from_srs' OAMS_TRADITIONAL_GIS_ORDER;
  to_srs' ← srs_Clone to_srs;
  _ ← SetAxisMappingStrategy to_srs' OAMS_TRADITIONAL_GIS_ORDER;
  transformation ← CoordinateTransformation L from_srs' to_srs';
  result_geometry ← geom_Clone geometry;
  _ ← geom_Transform L result_geometry transformation;
  mret result_geometry.

(** One turn of the loop of lines 201-206, on the part [sub_geometry]. *)
Definition make_valid_step (L : Library) (union_geometry : option handle)
  (sub_geometry : Geometry) : M (option handle) :=
  let name := GetGeometryName sub_geometry in
  if negb (String.eqb name "MULTIPOLYGON" || String.eqb name "POLYGON") then
    mret union_geometry
  else
    method "Union" union_geometry (fun u => geom_Union L u sub_geometry).

Definition make_valid (L : Library) (geometry : handle) : M (option handle) :=
  g ← geom_get geometry;
  _ ← geom_set geometry (CloseRings g);
  valid_geometry ← geom_MakeValid L geometry;
  match valid_geometry with
  | None => msg ← GetLastErrorMsg; raise (RuntimeError msg)
  | Some valid_geometry =>
      valid ← geom_get valid_geometry;
      if String.eqb (GetGeometryName valid) "GEOMETRYCOLLECTION" then
        input ← geom_get geometry;
        let geometry_type := GetGeometryName input in
        union_geometry ← geom_new
          (ogr_Geometry (if String.eqb geometry_type "MULTIPOLYGON"
                         then wkbMultiPolygon else wkbPolygon));
        union_geometry ← for_each_M (make_valid_step L) (parts valid) (Some union_geometry);
        _ ← geom_Destroy valid_geometry;
        let valid_geometry := union_geometry in
        if String.eqb geometry_type "MULTIPOLYGON" then
          method "GetGeometryName" valid_geometry (fun v =>
            unioned ← geom_get v;
            if String.eqb (GetGeometryName unioned) "POLYGON" then
              _geometry ← geom_new (ogr_Geometry wkbMultiPolygon);
              wrapper ← geom_get _geometry;
              _ ← geom_set _geometry (AddGeometry wrapper unioned);
              mret (Some _geometry)
            else mret (Some v))
        else mret valid_geometry
      else mret (Some valid_geometry)
  end.

Definition make_valid_geojson (L : Library) (geometry : mapping) (precision : option Z)
  : M mapping :=
  built ← lift (create true geometry);
  gdal_geometry ← geom_new built;
  gdal_geometry ← make_valid L gdal_geometry;
  method "GetGeometryName" gdal_geometry (fun v =>
    g ← geom_get v;
    lift (convert (GeometryGeoJson_precision precision) g)).

(** ** Nodata-aware compositing of the warp/union engine *)

(** Modelled from the spec: the raster engine ([RasterDataset.warp] with
    [extra_ds], and the nodata-aware [union]) lives in [gdal_boots/gdal.py],
    which is not among the sources; only its tests are.  The definitions
    below follow sections 4.6 and 9 of the specification: every input is
    already resampled on the common output grid, inputs are composited in
    insertion order, and a pixel of an input counts only where the input
    covers it with a value other than its nodata value for that band. *)
Record raster : Type := mkRaster {
  (** band, row, column; [None] outside the footprint of the input *)
  pixel : nat -> nat -> nat -> option Z;
  (** nodata value per band, when the band has one *)
  nodata : nat -> option Z
}.

(** Modelled from the spec: the contribution of one input to one pixel of
    one band, [None] when the input has nodata (or nothing) there. *)
Definition contribution (ds : raster) (band row col : nat) : option Z :=
  match pixel ds band row col with
  | Some v => if decide (nodata ds band = Some v) then None else Some v
  | None => None
  end.

(** Modelled from the spec: compositing one more input over the pixels
    accumulated so far. *)
Definition composite_over (acc : nat -> nat -> nat -> Z) (ds : raster)
  : nat -> nat -> nat -> Z :=
  fun band row col =>
    match contribution ds band row col with
    | Some v => v
    | None => acc band row col
    end.

(** Modelled from the spec: the merged output of a warp of [primary] with
    the auxiliary datasets [extra_ds], over a destination initialised with
    [fill]. *)
Definition warp_merge (fill : nat -> Z) (primary : raster) (extra_ds : list raster)
  : nat -> nat -> nat -> Z :=
  fold_left composite_over (primary :: extra_ds) (fun band _ _ => fill band).

(** Modelled from the spec: "the last non-nodata contribution" at a pixel
    of a band, among the inputs in insertion order. *)
Definition last_non_nodata (inputs : list raster) (band row col : nat) : option Z :=
  last (omap (fun ds => contribution ds band row col) inputs).

(** ** Vocabulary of the statements *)

(** The lower-cased type tags for which [GeometryBuilder] has a
    [create_...] method, and those for which [GeometryGeoJson] has a
    [convert_...] method. *)
Definition builder_types : list string :=
  ["polygon"; "linearring"; "linestring"; "multipolygon"; "point";
   "geometrycollection"; "multilinestring"].

Definition serializer_types : list string :=
  ["polygon"; "multipolygon"; "point"; "geometrycollection"; "multilinestring"].

(** A reference with the traditional (x, y) axis order forced on it. *)
Definition traditional (r : SpatialReference) : SpatialReference :=
  mkSpatialReference (definition r) OAMS_TRADITIONAL_GIS_ORDER.

Definition polygonal (g : Geometry) : Prop :=
  gtype g = wkbPolygon \/ gtype g = wkbMultiPolygon.

Definition is_polygonal (g : Geometry) : bool :=
  match gtype g with wkbPolygon | wkbMultiPolygon => true | _ => false end.

(** What the binding raises when handed the proxy of a null
    transformation. *)
Definition binding_null_error : exn :=
  TypeError
    "in method 'Geometry_Transform', argument 2 of type 'OSRCoordinateTransformationShadow *'".

(** Steps (c) and (d) of the repair contract, in the words of the
    specification: keep the Polygon/MultiPolygon members of the
    collection and union them one by one into an accumulated geometry,
    which starts empty with the type of the input; then re-wrap a single
    Polygon when the input was a MultiPolygon. *)
Definition union_all (L : Library) (start : Geometry) (members : list Geometry)
  : option Geometry :=
  fold_left (fun acc m => a ← acc; lib_union L a m) members (Some start).

Definition unioned_members (L : Library) (input valid : Geometry) : option Geometry :=
  union_all L
    (ogr_Geometry (if decide (gtype input = wkbMultiPolygon)
                   then wkbMultiPolygon else wkbPolygon))
    (filter (fun m => is_polygonal m = true) (parts valid)).

Definition rewrap (input unioned : Geometry) : Geometry :=
  if decide (gtype input = wkbMultiPolygon /\ gtype unioned = wkbPolygon)
  then AddGeometry (ogr_Geometry wkbMultiPolygon) unioned
  else unioned.







(** The store [w'] still holds every geometry object of [w]. *)
Definition extends (w w' : world) : Prop :=
  forall k x, geoms w !! k = Some x -> geoms w' !! k = Some x.

(** The accumulator of the loop holds [val]; its object was created
    after the store [w0]. *)
Definition tracks (w0 w : world) (acc : option handle) (val : option Geometry) : Prop :=
  match acc, val with
  | Some u, Some gu => geoms w !! u = Some gu /\ geoms w0 !! u = None
  | None, None => True
  | _, _ => False
  end.

(** One turn of the loop of [make_valid], on values. *)
Definition union_step (L : Library) (acc : option Geometry) (m : Geometry)
  : option Geometry :=
  if is_polygonal m then a ← acc; lib_union L a m else acc.

(** The type of the empty geometry the union starts from. *)
Definition start_type (input : Geometry) : wkbGeometryType :=
  if decide (gtype input = wkbMultiPolygon) then wkbMultiPolygon else wkbPolygon.

(** ** Vocabulary of the round trip *)

(** The mapping [g] with every coordinate rounded. *)
Fixpoint round_coords (precision : Z) (c : coords) : coords :=
  match c with
  | Num q => Num (py_round_ndigits q precision)
  | Seq items => Seq (map (round_coords precision) items)
  end.

Fixpoint round_mapping (precision : Z) (m : mapping) : mapping :=
  match m with
  | Mapping type_ coordinates geometries =>
      Mapping type_
        (match coordinates with
         | Some c => Some (round_coords precision c)
         | None => None
         end)
        (match geometries with
         | Some ms => Some (map (round_mapping precision) ms)
         | None => None
         end)
  end.

(** A position of two numbers (for a builder that flattens) or of three
    (for one that does not). *)
Inductive position (flatten : bool) : coords -> Prop :=
| position_2d (x y : Q) : flatten = true -> position flatten (Seq [Num x; Num y])
| position_3d (x y z : Q) : flatten = false -> position flatten (Seq [Num x; Num y; Num z]).

(** One or more positions. *)
Definition line (flatten : bool) (c : coords) : Prop :=
  exists ps, c = Seq ps /\ ps <> [] /\ Forall (position flatten) ps.

Definition lines (flatten : bool) (c : coords) : Prop :=
  exists ls, c = Seq ls /\ Forall (line flatten) ls.

Definition polygons (flatten : bool) (c : coords) : Prop :=
  exists ps, c = Seq ps /\ Forall (lines flatten) ps.

(** The mappings of the types the serializer has a handler for, with
    their canonical type names and positions of the dimension that the
    builder keeps. *)
#[warnings="-register-all"]
Inductive roundtrippable (flatten : bool) : mapping -> Prop :=
| rt_point c :
    position flatten c -> roundtrippable flatten (Mapping "Point" (Some c) None)
| rt_polygon c :
    lines flatten c -> roundtrippable flatten (Mapping "Polygon" (Some c) None)
| rt_multilinestring c :
    lines flatten c -> roundtrippable flatten (Mapping "MultiLineString" (Some c) None)
| rt_multipolygon c :
    polygons flatten c -> roundtrippable flatten (Mapping "MultiPolygon" (Some c) None)
| rt_geometrycollection ms :
    Forall (roundtrippable flatten) ms ->
    roundtrippable flatten (Mapping "GeometryCollection" None (Some ms)).

(** Two geometries that the serializer cannot tell apart: they differ at
    most in the dimension flag of nodes without points. *)
#[warnings="-register-all"]
Inductive sim : Geometry -> Geometry -> Prop :=
| sim_node t d d' ps gs gs' :
    (ps <> [] -> d = d') -> Forall2 sim gs gs' ->
    sim (mkGeometry t d ps gs) (mkGeometry t d' ps gs').

(** What the builder maintains: with [flatten] every node is 2D, without
    it every node that has points is 3D. *)
#[warnings="-register-all"]
Inductive built (flatten : bool) : Geometry -> Prop :=
| built_node t d ps gs :
    (if flatten then d = false else ps <> [] -> d = true) ->
    Forall (built flatten) gs ->
    built flatten (mkGeometry t d ps gs).

(** The point a position stands for. *)
Definition xyz_of_position (c : coords) : xyz :=
  match c with
  | Seq [Num x; Num y] => (x, y, 0%Q)
  | Seq [Num x; Num y; Num z] => (x, y, z)
  | _ => (0%Q, 0%Q, 0%Q)
  end.

(** ** Sample libraries and stores, for evaluating the code *)

Fixpoint map_points (f : xyz -> xyz) (g : Geometry) : Geometry :=
  match g with
  | mkGeometry t d ps gs => mkGeometry t d (map f ps) (map (map_points f) gs)
  end.

(** A library that cannot build a transformation from a reference with
    an empty definition and doubles x and y otherwise, whose make-valid
    step gives up on a polygon without rings and otherwise answers a copy
    of its input, and whose union collects polygons. *)
Definition sample_library : Library := {|
  lib_new_transformation s d :=
    if (String.eqb (definition s) "" || String.eqb (definition d) "")%bool
    then ct_null "No transform available for this pair of references"
    else ct_built;
  lib_transform s d g :=
    (map_points (fun p => (2 * fst (fst p), 2 * snd (fst p), snd p)%Q) g, Ok 0);
  lib_make_valid g :=
    match g with
    | mkGeometry wkbPolygon _ _ [] => inr "Polygon without rings"
    | _ => inl g
    end;
  lib_union a b :=
    match gtype b, parts a with
    | wkbPolygon, [] => Some b
    | wkbPolygon, _ =>
        Some (mkGeometry wkbMultiPolygon (is3D a) []
                (match gtype a with wkbPolygon => [a] | _ => parts a end ++ [b]))
    | wkbMultiPolygon, _ =>
        Some (mkGeometry wkbMultiPolygon (is3D a) []
                (match gtype a with wkbPolygon => [a] | _ => parts a end ++ parts b))
    | _, _ => None
    end
|}.

(** A library whose make-valid step splits a polygon into itself and a
    dangling line (a mixed collection). *)
Definition splitting_library : Library := {|
  lib_new_transformation := lib_new_transformation sample_library;
  lib_transform := lib_transform sample_library;
  lib_make_valid g :=
    inl (mkGeometry wkbGeometryCollection (is3D g) []
           (match gtype g with wkbPolygon => [g] | _ => parts g end
            ++ [mkGeometry wkbLineString false [(0, 0, 0); (1, 1, 0)]%Q []]));
  lib_union := lib_union sample_library
|}.

Definition rectangle : Geometry :=
  mkGeometry wkbPolygon false []
    [mkGeometry wkbLinearRing false
       [(0, 0, 0); (2, 0, 0); (2, 1, 0); (0, 1, 0); (0, 0, 0)]%Q []].

(** A library whose make-valid step answers one polygon for a
    multi-polygon of two parts, the way GEOS merges two parts that share
    an edge. *)
Definition merging_library : Library := {|
  lib_new_transformation := lib_new_transformation sample_library;
  lib_transform := lib_transform sample_library;
  lib_make_valid g :=
    match g with
    | mkGeometry wkbMultiPolygon _ _ [_; _] => inl rectangle
    | _ => inl g
    end;
  lib_union := lib_union sample_library
|}.

Definition unit_square : Geometry :=
  mkGeometry wkbPolygon false []
    [mkGeometry wkbLinearRing false
       [(0, 0, 0); (1, 0, 0); (1, 1, 0); (0, 1, 0)]%Q []].

(** Two unit squares that share the edge x = 1; the first ring is open. *)
Definition touching_squares : Geometry :=
  mkGeometry wkbMultiPolygon false []
    [unit_square;
     mkGeometry wkbPolygon false []
       [mkGeometry wkbLinearRing false
          [(1, 0, 0); (2, 0, 0); (2, 1, 0); (1, 1, 0); (1, 0, 0)]%Q []]].

Definition point_3d : Geometry := mkGeometry wkbPoint true [(1, 2, 3)%Q] [].

Definition srs_4326 : SpatialReference := mkSpatialReference "EPSG:4326" OAMS_AUTHORITY_COMPLIANT.
Definition srs_3857 : SpatialReference := mkSpatialReference "EPSG:3857" OAMS_AUTHORITY_COMPLIANT.
Definition srs_empty : SpatialReference := mkSpatialReference "" OAMS_AUTHORITY_COMPLIANT.

Definition sample_world : world := {|
  geoms := <[1%positive := point_3d]> (<[2%positive := unit_square]>
             (<[3%positive := mkGeometry wkbMultiPolygon false [] [unit_square]]>
                (<[4%positive := touching_squares]> ∅)));
  refs := <[1%positive := srs_4326]> (<[2%positive := srs_3857]>
            (<[3%positive := srs_empty]> ∅));
  last_error_msg := ""
|}.

(** Two one-band inputs on a grid of one row: [raster_a] covers columns
    0-1 with value 1, [raster_b] covers columns 1-2, with its nodata
    value 255 at column 1 and value 3 at column 2. *)
Definition raster_a : raster := {|
  pixel _ _ col := if (col <? 2)%nat then Some 1 else None;
  nodata _ := Some 255
|}.

Definition raster_b : raster := {|
  pixel _ _ col :=
    if (col =? 1)%nat then Some 255 else if (col =? 2)%nat then Some 3 else None;
  nodata _ := Some 255
|}.

(** ** The rest of the module: EPSG codes, proxies, envelopes *)

(** [GeometryBuilder.__call__] *)
Definition GeometryBuilder_call (flatten : bool) (geometry : mapping) : result Geometry :=
  create flatten geometry.

(** What [ImportFromEPSG] does with a code: it finds the definition of
    the reference; or it fails, answers an error code and leaves a
    diagnostic in the last-error channel; or it fails and the bindings,
    with exceptions enabled ([UseExceptions()]), raise. *)
Inductive epsg_outcome : Type :=
| epsg_found (text : string)
| epsg_failed (diagnostic : string)
| epsg_raise (e : exn).

Definition epsg_registry : Type := Z -> epsg_outcome.

(** [osr.SpatialReference()]: a new reference, empty, in the axis order
    of the authority. *)
Definition srs_new : M handle := fun w =>
  let h := fresh (dom (refs w)) in
  (Ok h, mkWorld (geoms w) (<[h := mkSpatialReference "" OAMS_AUTHORITY_COMPLIANT]> (refs w))
           (last_error_msg w)).

(** [srs.ImportFromEPSG(epsg)]: fills the reference in and answers 0;
    or leaves it as it is and answers an error code, with a diagnostic in
    the last-error channel; or leaves it as it is and raises. *)
Definition ImportFromEPSG (registry : epsg_registry) (h : handle) (epsg : Z) : M Z := fun w =>
  match refs w !! h with
  | Some r =>
      match registry epsg with
      | epsg_found text =>
          (Ok 0, mkWorld (geoms w)
                   (<[h := mkSpatialReference text (axis_mapping_strategy r)]> (refs w))
                   (last_error_msg w))
      | epsg_failed diagnostic => (Ok 6, mkWorld (geoms w) (refs w) diagnostic)
      | epsg_raise e => (Raise e, w)
      end
  | None => (Raise (RuntimeError "spatial reference handle is not valid"), w)
  end.

Definition srs_from_epsg (registry : epsg_registry) (epsg : Z) : M handle :=
  srs ← srs_new;
  _ ← ImportFromEPSG registry srs epsg;
  mret srs.

Definition transform (L : Library) (registry : epsg_registry) (geometry : handle)
  (from_epsg to_epsg : Z) : M handle :=
  from_srs ← srs_from_epsg registry from_epsg;
  to_srs ← srs_from_epsg registry to_epsg;
  transform_by_srs L geometry from_srs to_srs.

Definition transform_geojson (L : Library) (registry : epsg_registry) (geometry : mapping)
  (from_epsg to_epsg : Z) (flatten : bool) (precision : option Z) : M mapping :=
  built_ ← lift (create flatten geometry);
  ogr_geometry ← geom_new built_;
  new_geometry ← transform L registry ogr_geometry from_epsg to_epsg;
  to_geojson new_geometry false precision.

(** [RawGeometry] without its [str] alternative: a mapping or a
    geometry object. *)
Definition RawGeometry : Type := mapping + handle.

Record SrsProxy : Type := mkSrsProxy { SrsProxy_srs : handle }.

Definition SrsProxy_init (registry : epsg_registry) (srs : option handle) (epsg : option Z)
  : M SrsProxy :=
  match srs, epsg with
  | None, None => raise (ValueError "all parameters are None")
  | None, Some code => h ← srs_from_epsg registry code; mret (mkSrsProxy h)
  | Some h, _ => mret (mkSrsProxy h)
  end.

Record GeometryProxy : Type := mkGeometryProxy {
  GeometryProxy_geom : handle;
  GeometryProxy_srs : handle
}.

Definition GeometryProxy_init (geom : RawGeometry) (srs_proxy : SrsProxy) : M GeometryProxy :=
  geom' ← match geom with
          | inr h => mret h
          | inl m => built_ ← lift (create true m); geom_new built_
          end;
  mret (mkGeometryProxy geom' (SrsProxy_srs srs_proxy)).

Definition GeometryProxy_transform (L : Library) (self : GeometryProxy) (srs_proxy : SrsProxy)
  : M GeometryProxy :=
  transformed ← transform_by_srs L (GeometryProxy_geom self) (GeometryProxy_srs self)
                  (SrsProxy_srs srs_proxy);
  GeometryProxy_init (inr transformed) srs_proxy.

(** Every point of a geometry, its own and those of its parts. *)
Fixpoint all_points (g : Geometry) : list xyz :=
  match g with
  | mkGeometry _ _ ps gs => (ps ++ flat_map all_points gs)%list
  end.

(** [GetEnvelope()]: [(x_min, x_max, y_min, y_max)] over every point;
    four zeros for a geometry without points. *)
Definition GetEnvelope (g : Geometry) : Q * Q * Q * Q :=
  match all_points g with
  | [] => (0, 0, 0, 0)%Q
  | p :: ps =>
      fold_left
        (fun (e : Q * Q * Q * Q) (q : xyz) =>
           let '(x_min, x_max, y_min, y_max) := e in
           (Qmin x_min (fst (fst q)), Qmax x_max (fst (fst q)),
            Qmin y_min (snd (fst q)), Qmax y_max (snd (fst q))))
        ps (fst (fst p), fst (fst p), snd (fst p), snd (fst p))
  end.

(** The coordinates of the envelope are the floats the rationals of
    the geometry stand for. *)
Definition calc_best_resolution (geometry : RawGeometry) (orig_resolution : float * float)
  : M (float * float) :=
  geometry' ← match geometry with
              | inr h => mret h
              | inl m => built_ ← lift (create true m); geom_new built_
              end;
  g ← geom_get geometry';
  let '(x_min, x_max, y_min, y_max) := GetEnvelope g in
  lift (calc_best_resolution_bbox (Finite x_min) (Finite x_max) (Finite y_min) (Finite y_max)
          orig_resolution).

(** ** Vocabulary of the further properties *)

(** A geometry that is 2D all through: no node is flagged 3D and no
    point has a z other than 0. *)
#[warnings="-register-all"]
Inductive flat : Geometry -> Prop :=
| flat_node t ps gs :
    Forall (fun p : xyz => snd p = 0%Q) ps -> Forall flat gs ->
    flat (mkGeometry t false ps gs).

(** The tag of a mapping. *)
Definition type_of (m : mapping) : string :=
  match m with Mapping type_ _ _ => type_ end.

(** A registry that knows two codes. *)
Definition sample_registry : epsg_registry := fun code =>
  if (code =? 4326)%Z then epsg_found "EPSG:4326"
  else if (code =? 3857)%Z then epsg_found "EPSG:3857"
  else epsg_failed "EPSG PCS/GCS code not found".

(** The same registry behind bindings with exceptions enabled. *)
Definition raising_registry : epsg_registry := fun code =>
  if (code =? 4326)%Z then epsg_found "EPSG:4326"
  else if (code =? 3857)%Z then epsg_found "EPSG:3857"
  else epsg_raise (RuntimeError "EPSG PCS/GCS code not found").

(** A library whose union gives up. *)
Definition failing_union_library : Library := {|
  lib_new_transformation := lib_new_transformation sample_library;
  lib_transform := lib_transform sample_library;
  lib_make_valid := lib_make_valid splitting_library;
  lib_union _ _ := None
|}.

(** The reference [srs_from_epsg] makes for a code: its definition when
    the registry knows the code, an empty one otherwise; the axis order
    is the authority's. *)
Definition imported (registry : epsg_registry) (epsg : Z) : SpatialReference :=
  mkSpatialReference
    (match registry epsg with epsg_found text => text | _ => "" end)
    OAMS_AUTHORITY_COMPLIANT.

(** The exception [ImportFromEPSG] raises for a code, if it does. *)
Definition import_raises (registry : epsg_registry) (epsg : Z) : option exn :=
  match registry epsg with epsg_raise e => Some e | _ => None end.

(** What [transform] answers once the two references are imported: the
    new object [result_geometry], or the exception of the library. *)
Definition transform_outcome (L : Library) (f t : SpatialReference) (g : Geometry)
  (result_geometry : handle) : result handle :=
  match lib_new_transformation L (traditional f) (traditional t) with
  | ct_built =>
      _ ← snd (lib_transform L (traditional f) (traditional t) g); Ok result_geometry
  | ct_null _ => Raise binding_null_error
  | ct_raise e => Raise e
  end.

(** A library whose [Transform] reports a failure and leaves the
    geometry as it found it. *)
Definition failing_transform_library : Library := {|
  lib_new_transformation _ _ := ct_built;
  lib_transform _ _ g := (g, Ok 6);
  lib_make_valid := lib_make_valid sample_library;
  lib_union := lib_union sample_library
|}.

(** The same library behind bindings with exceptions enabled: the
    failure of [Transform] is raised. *)
Definition raising_transform_library : Library := {|
  lib_new_transformation _ _ := ct_built;
  lib_transform _ _ g := (g, Raise (RuntimeError "OGR Error: General Error"));
  lib_make_valid := lib_make_valid sample_library;
  lib_union := lib_union sample_library
|}.

(* ===================================================================== *)
(** * Part II: properties                                                 *)
(* ===================================================================== *)

(** ** Rounding *)

Lemma Qfloor_unique (x : Q) (n : Z) :
  (inject_Z n <= x)%Q -> (x < inject_Z (n + 1))%Q -> Qfloor x = n.
Proof.
  intros Hle Hlt.
  pose proof (Qfloor_le x) as Hf. pose proof (Qlt_floor x) as Hc.
  assert (H1 : (inject_Z n < inject_Z (Qfloor x + 1))%Q) by (eapply Qle_lt_trans; eauto).
  assert (H2 : (inject_Z (Qfloor x) < inject_Z (n + 1))%Q) by (eapply Qle_lt_trans; eauto).
  rewrite <- Zlt_Qlt in H1, H2. lia.
Qed.

Lemma py_round_comp (x y : Q) : x == y -> py_round x = py_round y.
Proof.
  intros E. unfold py_round. rewrite (Qfloor_comp _ _ E).
  assert (E' : x - inject_Z (Qfloor y) == y - inject_Z (Qfloor y)) by (rewrite E; reflexivity).
  rewrite (Qcompare_comp _ _ E' _ _ (Qeq_refl (1 # 2))). reflexivity.
Qed.

(** A value less than half above an integer rounds to that integer. *)
Lemma py_round_below_half (n : Z) (e : Q) :
  (0 <= e)%Q -> (e < 1 # 2)%Q -> py_round (inject_Z n + e) = n.
Proof.
  intros H0 Hh. unfold py_round.
  assert (F : Qfloor (inject_Z n + e) = n).
  { apply Qfloor_unique; [lra |]. rewrite inject_Z_plus. change (inject_Z 1) with 1%Q. lra. }
  rewrite F.
  assert (C : (inject_Z n + e - inject_Z n ?= 1 # 2)%Q = Lt).
  { rewrite <- Qlt_alt. lra. }
  rewrite C. reflexivity.
Qed.

(** A value more than half (and less than one) above an integer rounds
    to the next integer. *)
Lemma py_round_above_half (n : Z) (e : Q) :
  (1 # 2 < e)%Q -> (e < 1)%Q -> py_round (inject_Z n + e) = n + 1.
Proof.
  intros Hh H1. unfold py_round.
  assert (F : Qfloor (inject_Z n + e) = n).
  { apply Qfloor_unique; [lra |]. rewrite inject_Z_plus. change (inject_Z 1) with 1%Q. lra. }
  rewrite F.
  assert (C : (inject_Z n + e - inject_Z n ?= 1 # 2)%Q = Gt).
  { rewrite <- Qgt_alt. lra. }
  rewrite C. reflexivity.
Qed.

(** An exact tie goes to the even neighbour. *)
Lemma py_round_tie (n : Z) :
  py_round (inject_Z n + (1 # 2)) = if Z.even n then n else n + 1.
Proof.
  unfold py_round.
  assert (F : Qfloor (inject_Z n + (1 # 2)) = n).
  { apply Qfloor_unique; [lra |]. rewrite inject_Z_plus. change (inject_Z 1) with 1%Q. lra. }
  rewrite F.
  assert (C : (inject_Z n + (1 # 2) - inject_Z n ?= 1 # 2)%Q = Eq).
  { rewrite <- Qeq_alt. lra. }
  rewrite C. reflexivity.
Qed.

(** [round] is never further than one half from its argument. *)
Lemma py_round_nearest (x : Q) :
  (Qabs (inject_Z (py_round x) - x) <= 1 # 2)%Q.
Proof.
  unfold py_round.
  pose proof (Qfloor_le x) as Hf. pose proof (Qlt_floor x) as Hc.
  rewrite inject_Z_plus in Hc. change (inject_Z 1) with 1%Q in Hc.
  destruct (Qcompare_spec (x - inject_Z (Qfloor x)) (1 # 2)) as [E | L | G].
  - destruct (Z.even (Qfloor x)); [| rewrite inject_Z_plus; change (inject_Z 1) with 1%Q];
      apply Qabs_case; intros; lra.
  - apply Qabs_case; intros; lra.
  - rewrite inject_Z_plus; change (inject_Z 1) with 1%Q. apply Qabs_case; intros; lra.
Qed.

Lemma py_round_lower (x : Q) : (x - (1 # 2) <= inject_Z (py_round x))%Q.
Proof.
  pose proof (py_round_nearest x) as H. apply Qabs_Qle_condition in H. lra.
Qed.

Lemma py_round_upper (x : Q) : (inject_Z (py_round x) <= x + (1 # 2))%Q.
Proof.
  pose proof (py_round_nearest x) as H. apply Qabs_Qle_condition in H. lra.
Qed.

Lemma py_round_inject_Z (k : Z) : py_round (inject_Z k) = k.
Proof.
  rewrite (py_round_comp (inject_Z k) (inject_Z k + 0)) by ring.
  apply py_round_below_half; [apply Qle_refl | reflexivity].
Qed.

(** ** binary64 against the floats of the machine *)

(** On every pair of the samples, among them subnormal numbers, the
    largest float, ties, infinities and NaN, the three operations give
    what the processor gives; the literal is the float of the
    processor. *)
Lemma binary64_agrees_with_the_machine :
  all_pairs agree_add = true /\ all_pairs agree_sub = true /\ all_pairs agree_div = true
  /\ of_machine Machine.literal = ten_e_minus_9.
Proof. split_and!; vm_compute; reflexivity. Qed.

(** ** Powers of two *)

Lemma pow2_pos (e : Z) : (0 < pow2 e)%Q.
Proof. apply Qpower_0_lt. reflexivity. Qed.

Lemma pow2_nonzero (e : Z) : ~ pow2 e == 0.
Proof. pose proof (pow2_pos e). lra. Qed.

Lemma pow2_add (a b : Z) : pow2 (a + b) == pow2 a * pow2 b.
Proof. apply Qpower_plus. discriminate. Qed.

Lemma pow2_succ (e : Z) : pow2 (e + 1) == 2 * pow2 e.
Proof. rewrite pow2_add. change (pow2 1) with 2%Q. ring. Qed.

Lemma pow2_pred (e : Z) : pow2 (e - 1) == pow2 e * (1 # 2).
Proof.
  replace e with ((e - 1) + 1) at 2 by lia. rewrite (pow2_succ (e - 1)). field.
Qed.

Lemma pow2_lt (a b : Z) : a < b -> (pow2 a < pow2 b)%Q.
Proof. intros H. apply Qpower_lt_compat_l; [exact H | reflexivity]. Qed.

Lemma pow2_le (a b : Z) : a <= b -> (pow2 a <= pow2 b)%Q.
Proof. intros H. apply Qpower_le_compat_l; [exact H | discriminate]. Qed.

Lemma pow2_lt_inv (a b : Z) : (pow2 a < pow2 b)%Q -> a < b.
Proof. intros H. apply (Qpower_lt_compat_l_inv 2); [exact H | reflexivity]. Qed.

Lemma pow2_Z (n : Z) : 0 <= n -> pow2 n == inject_Z (2 ^ n).
Proof. intros H. unfold pow2. rewrite (Zpower_Qpower 2 n H). reflexivity. Qed.

(** ** The binade of a rational *)

Lemma Qabs_num_den (x : Q) : Qabs x == inject_Z (Z.abs (Qnum x)) / inject_Z (Zpos (Qden x)).
Proof.
  destruct x as [n d]. unfold Qabs. cbn [Qnum Qden].
  rewrite (Qmake_Qdiv (Z.abs n) d). reflexivity.
Qed.

Lemma ilog2_spec (x : Q) :
  ~ x == 0 -> (pow2 (ilog2 x) <= Qabs x)%Q /\ (Qabs x < pow2 (ilog2 x + 1))%Q.
Proof.
  intros Hx. unfold ilog2.
  set (n := Z.abs (Qnum x)). set (d := Zpos (Qden x)).
  assert (Hn : 0 < n).
  { subst n. destruct x as [xn xd]. unfold Qeq in Hx. cbn in *. lia. }
  assert (Hd : 0 < d) by (subst d; lia).
  pose proof (Z.log2_spec n Hn) as [Ln Un].
  pose proof (Z.log2_spec d Hd) as [Ld Ud].
  pose proof (Z.log2_nonneg n) as Nn. pose proof (Z.log2_nonneg d) as Nd.
  set (a := Z.log2 n) in *. set (b := Z.log2 d) in *.
  rewrite <- Z.add_1_r in Un, Ud.
  assert (EA : pow2 a == inject_Z (2 ^ a)) by (apply pow2_Z; lia).
  assert (EB : pow2 b == inject_Z (2 ^ b)) by (apply pow2_Z; lia).
  assert (EA1 : pow2 (a + 1) == inject_Z (2 ^ (a + 1))) by (apply pow2_Z; lia).
  assert (EB1 : pow2 (b + 1) == inject_Z (2 ^ (b + 1))) by (apply pow2_Z; lia).
  assert (QLn : (pow2 a <= inject_Z n)%Q) by (rewrite EA, <- Zle_Qle; exact Ln).
  assert (QUn : (inject_Z n < pow2 (a + 1))%Q) by (rewrite EA1, <- Zlt_Qlt; exact Un).
  assert (QLd : (pow2 b <= inject_Z d)%Q) by (rewrite EB, <- Zle_Qle; exact Ld).
  assert (QUd : (inject_Z d < pow2 (b + 1))%Q) by (rewrite EB1, <- Zlt_Qlt; exact Ud).
  rewrite pow2_succ in QUn, QUd.
  pose proof (pow2_pos a) as Pa. pose proof (pow2_pos b) as Pb.
  assert (E : Qabs x * inject_Z d == inject_Z n).
  { rewrite Qabs_num_den. fold n d. field. lra. }
  pose proof (Qabs_nonneg x) as Hx0.
  assert (Eab : pow2 (a - b) * pow2 b == pow2 a).
  { rewrite <- pow2_add. replace (a - b + b) with a by lia. reflexivity. }
  assert (Hpos : (0 < Qabs x)%Q).
  { destruct (Qlt_le_dec 0 (Qabs x)) as [H | H]; [exact H |].
    assert (H0 : Qabs x == 0) by lra. rewrite H0 in E. lra. }
  pose proof (pow2_pos (a - b)) as Pab.
  assert (Hup : (Qabs x < pow2 (a - b + 1))%Q).
  { rewrite pow2_succ. nra. }
  assert (Hlo : (pow2 (a - b - 1) < Qabs x)%Q).
  { rewrite pow2_pred. nra. }
  destruct (Qle_bool (pow2 (a - b)) (Qabs x)) eqn:Eb.
  - apply Qle_bool_iff in Eb. split; assumption.
  - assert (Hlt : (Qabs x < pow2 (a - b))%Q).
    { destruct (Qlt_le_dec (Qabs x) (pow2 (a - b))) as [H | H]; [exact H |].
      apply Qle_bool_iff in H. congruence. }
    replace (a - b - 1 + 1) with (a - b) by lia. split; [lra | exact Hlt].
Qed.

Lemma ilog2_unique (x : Q) (l : Z) :
  (pow2 l <= Qabs x)%Q -> (Qabs x < pow2 (l + 1))%Q -> ilog2 x = l.
Proof.
  intros Hl Hu.
  assert (Hx : ~ x == 0).
  { intros E. rewrite E in Hl. pose proof (pow2_pos l). change (Qabs 0) with 0%Q in Hl. lra. }
  destruct (ilog2_spec x Hx) as [Hl' Hu'].
  assert (l < ilog2 x + 1) by (apply pow2_lt_inv; lra).
  assert (ilog2 x < l + 1) by (apply pow2_lt_inv; lra).
  lia.
Qed.

Lemma ilog2_comp (x y : Q) : ~ x == 0 -> x == y -> ilog2 x = ilog2 y.
Proof.
  intros Hx E. destruct (ilog2_spec x Hx) as [Hl Hu].
  symmetry. apply ilog2_unique; rewrite <- E; assumption.
Qed.

Lemma ilog2_lt (x : Q) (k : Z) : ~ x == 0 -> (Qabs x < pow2 k)%Q -> ilog2 x < k.
Proof.
  intros Hx H. destruct (ilog2_spec x Hx) as [Hl _]. apply pow2_lt_inv. lra.
Qed.

Lemma ilog2_ge (x : Q) (k : Z) : (pow2 k <= Qabs x)%Q -> k <= ilog2 x.
Proof.
  intros H.
  assert (Hx : ~ x == 0).
  { intros E. rewrite E in H. pose proof (pow2_pos k). change (Qabs 0) with 0%Q in H. lra. }
  destruct (ilog2_spec x Hx) as [_ Hu].
  assert (k < ilog2 x + 1) by (apply pow2_lt_inv; lra). lia.
Qed.

(** ** Rounding to binary64 *)

Lemma binary64_zero (x : Q) : x == 0 -> binary64 x = Finite 0.
Proof. intros E. unfold binary64. apply Qeq_bool_iff in E. rewrite E. reflexivity. Qed.

Lemma binary64_nonzero (x : Q) :
  ~ x == 0 ->
  binary64 x = if Qle_bool (pow2 1024) (Qabs (nearest x)) then Infinity (negb (Qle_bool 0 x))
               else Finite (Qred (nearest x)).
Proof.
  intros Hx. unfold binary64. destruct (Qeq_bool x 0) eqn:E; [| reflexivity].
  apply Qeq_bool_iff in E. contradiction.
Qed.

Lemma exponent_comp (x y : Q) : ~ x == 0 -> x == y -> exponent x = exponent y.
Proof. intros Hx E. unfold exponent. rewrite (ilog2_comp x y Hx E). reflexivity. Qed.

Lemma nearest_comp (x y : Q) : ~ x == 0 -> x == y -> nearest x == nearest y.
Proof.
  intros Hx E. unfold nearest. rewrite (exponent_comp x y Hx E).
  rewrite (py_round_comp (x / pow2 (exponent y)) (y / pow2 (exponent y))); [reflexivity |].
  rewrite E. reflexivity.
Qed.

Lemma Qle_bool_comp (a b c d : Q) : a == c -> b == d -> Qle_bool a b = Qle_bool c d.
Proof.
  intros E1 E2. destruct (Qle_bool c d) eqn:H.
  - apply Qle_bool_iff. apply Qle_bool_iff in H. rewrite E1, E2. exact H.
  - destruct (Qle_bool a b) eqn:H'; [| reflexivity].
    apply Qle_bool_iff in H'. rewrite E1, E2 in H'. apply Qle_bool_iff in H'. congruence.
Qed.

Lemma binary64_comp (x y : Q) : x == y -> binary64 x = binary64 y.
Proof.
  intros E. destruct (Qeq_dec x 0) as [Hx | Hx].
  - rewrite (binary64_zero x Hx). symmetry. apply binary64_zero. rewrite <- E. exact Hx.
  - assert (Hy : ~ y == 0) by (rewrite <- E; exact Hx).
    rewrite (binary64_nonzero x Hx), (binary64_nonzero y Hy).
    pose proof (nearest_comp x y Hx E) as En.
    rewrite (Qle_bool_comp (pow2 1024) (Qabs (nearest x)) (pow2 1024) (Qabs (nearest y)))
      by (try reflexivity; rewrite En; reflexivity).
    rewrite (Qle_bool_comp 0 x 0 y) by (try reflexivity; exact E).
    rewrite (Qred_complete _ _ En). reflexivity.
Qed.

(** The multiple of [2^e] nearest to [x] is within half of [2^e]. *)
Lemma round_scaled_error (x : Q) (e : Z) :
  (Qabs (inject_Z (py_round (x / pow2 e)) * pow2 e - x) <= pow2 (e - 1))%Q.
Proof.
  pose proof (pow2_pos e) as Pe. rewrite pow2_pred.
  pose proof (py_round_nearest (x / pow2 e)) as H. apply Qabs_Qle_condition in H.
  assert (Ex : x / pow2 e * pow2 e == x) by (field; lra).
  set (t := (x / pow2 e)%Q) in *. set (m := inject_Z (py_round t)) in *.
  apply Qabs_Qle_condition. split; nra.
Qed.

Lemma nearest_error (x : Q) : (Qabs (nearest x - x) <= pow2 (exponent x - 1))%Q.
Proof. apply round_scaled_error. Qed.

Lemma exponent_ge (x : Q) : -1074 <= exponent x.
Proof. unfold exponent. lia. Qed.

Lemma exponent_le (x : Q) (k : Z) :
  ~ x == 0 -> -1074 <= k -> (Qabs x <= pow2 k)%Q -> exponent x <= k.
Proof.
  intros Hx Hk H. unfold exponent.
  assert (ilog2 x < k + 1) by (apply ilog2_lt; [exact Hx | pose proof (pow2_lt k (k + 1) ltac:(lia)); lra]).
  lia.
Qed.

(** An integer bound survives rounding to the nearest integer. *)
Lemma py_round_abs_le (t : Q) (N : Z) : (Qabs t <= inject_Z N)%Q -> Z.abs (py_round t) <= N.
Proof.
  intros H. apply Qabs_Qle_condition in H.
  pose proof (py_round_lower t) as Hl. pose proof (py_round_upper t) as Hu.
  assert (H1 : (inject_Z (py_round t) < inject_Z (N + 1))%Q).
  { rewrite inject_Z_plus. change (inject_Z 1) with 1%Q. lra. }
  assert (H2 : (inject_Z (- (N + 1)) < inject_Z (py_round t))%Q).
  { rewrite inject_Z_opp, inject_Z_plus. change (inject_Z 1) with 1%Q. lra. }
  rewrite <- Zlt_Qlt in H1, H2. lia.
Qed.

Lemma Qabs_inject_Z (n : Z) : Qabs (inject_Z n) == inject_Z (Z.abs n).
Proof. unfold Qabs, inject_Z. reflexivity. Qed.

(** A power of two that bounds [x] bounds the nearest binary64 value. *)
Lemma nearest_le_pow2 (x : Q) (k : Z) :
  ~ x == 0 -> -1074 <= k -> (Qabs x <= pow2 k)%Q -> (Qabs (nearest x) <= pow2 k)%Q.
Proof.
  intros Hx Hk H. pose proof (exponent_le x k Hx Hk H) as He.
  unfold nearest. set (e := exponent x) in *.
  pose proof (pow2_pos e) as Pe.
  assert (Ek : pow2 (k - e) * pow2 e == pow2 k).
  { rewrite <- pow2_add. replace (k - e + e) with k by lia. reflexivity. }
  assert (EN : pow2 (k - e) == inject_Z (2 ^ (k - e))) by (apply pow2_Z; lia).
  assert (Ht : (Qabs (x / pow2 e) <= inject_Z (2 ^ (k - e)))%Q).
  { rewrite <- EN. unfold Qdiv. rewrite Qabs_Qmult, Qabs_Qinv, (Qabs_pos (pow2 e)) by lra.
    apply Qle_shift_div_r; [exact Pe |]. rewrite Ek. exact H. }
  pose proof (py_round_abs_le _ _ Ht) as Hm.
  rewrite Qabs_Qmult, (Qabs_pos (pow2 e)) by lra. rewrite Qabs_inject_Z.
  rewrite <- Ek, EN. apply Qmult_le_compat_r; [| lra].
  rewrite <- Zle_Qle. exact Hm.
Qed.

Lemma Qabs_Qred (x : Q) : Qabs (Qred x) == Qabs x.
Proof. apply Qabs_wd, Qred_correct. Qed.

Lemma binary64_le_pow2 (x : Q) (k : Z) :
  -1074 <= k <= 1023 -> (Qabs x <= pow2 k)%Q ->
  exists y, binary64 x = Finite y /\ y == nearest x /\ (Qabs y <= pow2 k)%Q.
Proof.
  intros Hk H. destruct (Qeq_dec x 0) as [Hx | Hx].
  - rewrite (binary64_zero x Hx). exists 0%Q. split; [reflexivity |]. split.
    + unfold nearest. rewrite (py_round_comp _ 0).
      * change (py_round 0) with 0. ring.
      * pose proof (pow2_nonzero (exponent x)) as Hc. revert Hc.
        generalize (pow2 (exponent x)). intros c Hc. rewrite Hx. field. exact Hc.
    + change (Qabs 0) with 0%Q. pose proof (pow2_pos k). lra.
  - rewrite (binary64_nonzero x Hx).
    pose proof (nearest_le_pow2 x k Hx ltac:(lia) H) as Hn.
    destruct (Qle_bool (pow2 1024) (Qabs (nearest x))) eqn:Eb.
    + apply Qle_bool_iff in Eb. pose proof (pow2_lt k 1024 ltac:(lia)). lra.
    + exists (Qred (nearest x)). split; [reflexivity |]. split; [apply Qred_correct |].
      rewrite Qabs_Qred. exact Hn.
Qed.

(** In the normal range the relative error is at most [2^-53]. *)
Lemma binary64_normal (x : Q) :
  (pow2 (-1022) <= Qabs x)%Q -> (Qabs x <= pow2 1023)%Q ->
  exists y, binary64 x = Finite y /\ (Qabs (y - x) <= Qabs x * pow2 (-53))%Q.
Proof.
  intros Hl Hu.
  destruct (binary64_le_pow2 x 1023 ltac:(lia) Hu) as (y & E & Ey & _).
  exists y. split; [exact E |]. rewrite Ey.
  eapply Qle_trans; [apply nearest_error |].
  pose proof (ilog2_ge x (-1022) Hl) as Hge.
  assert (Hx : ~ x == 0).
  { intros E0. rewrite E0 in Hl. pose proof (pow2_pos (-1022)). change (Qabs 0) with 0%Q in Hl. lra. }
  destruct (ilog2_spec x Hx) as [Hs _].
  unfold exponent. replace (Z.max (ilog2 x - 52) (-1074) - 1) with (ilog2 x + -53) by lia.
  rewrite pow2_add. apply Qmult_le_compat_r; [exact Hs |].
  pose proof (pow2_pos (-53)). lra.
Qed.

(** A value [m * 2^e] with a significand of at most 53 bits, in range, is
    a binary64 value: rounding leaves it alone. *)
Lemma binary64_exact (m e : Z) :
  -1074 <= e -> Z.abs m < 2 ^ 53 ->
  (Qabs (inject_Z m * pow2 e) < pow2 1024)%Q ->
  binary64 (inject_Z m * pow2 e) = Finite (Qred (inject_Z m * pow2 e)).
Proof.
  intros He Hm Hr. set (x := (inject_Z m * pow2 e)%Q) in *.
  pose proof (pow2_pos e) as Pe.
  destruct (Z.eq_dec m 0) as [-> | Hm0].
  - assert (E0 : x == 0) by (subst x; change (inject_Z 0) with 0%Q; ring).
    rewrite (binary64_zero x E0). rewrite (Qred_complete x 0 E0). reflexivity.
  - assert (Hx : ~ x == 0).
    { subst x. intros E. apply Qmult_integral in E. destruct E as [E | E]; [| lra].
      unfold Qeq in E. cbn in E. lia. }
    rewrite (binary64_nonzero x Hx).
    assert (Hxa : (Qabs x < pow2 (e + 53))%Q).
    { subst x. rewrite Qabs_Qmult, (Qabs_pos (pow2 e)), Qabs_inject_Z by lra.
      rewrite Z.add_comm, pow2_add. apply Qmult_lt_compat_r; [exact Pe |].
      rewrite (pow2_Z 53) by lia. rewrite <- Zlt_Qlt. exact Hm. }
    assert (Hex : exponent x <= e).
    { unfold exponent. pose proof (ilog2_lt x (e + 53) Hx Hxa). lia. }
    set (ex := exponent x) in *.
    assert (En : nearest x == x).
    { unfold nearest. fold ex.
      assert (Ek : pow2 (e - ex) * pow2 ex == pow2 e).
      { rewrite <- pow2_add. replace (e - ex + ex) with e by lia. reflexivity. }
      assert (EN : pow2 (e - ex) == inject_Z (2 ^ (e - ex))) by (apply pow2_Z; lia).
      rewrite (py_round_comp _ (inject_Z (m * 2 ^ (e - ex)))).
      - rewrite py_round_inject_Z. rewrite inject_Z_mult, <- EN. subst x.
        rewrite <- Ek. ring.
      - rewrite inject_Z_mult, <- EN. subst x. rewrite <- Ek. field. apply pow2_nonzero. }
    rewrite (Qle_bool_comp (pow2 1024) (Qabs (nearest x)) (pow2 1024) (Qabs x))
      by (try reflexivity; rewrite En; reflexivity).
    destruct (Qle_bool (pow2 1024) (Qabs x)) eqn:Eb.
    + apply Qle_bool_iff in Eb. lra.
    + rewrite (Qred_complete _ _ En). reflexivity.
Qed.

Lemma Qred_Qred (x : Q) : Qred (Qred x) = Qred x.
Proof. apply Qred_complete, Qred_correct. Qed.

Lemma half_of_2_53 (m : Z) : Z.abs m = 2 ^ 53 -> m = 2 * (m / 2) /\ Z.abs (m / 2) < 2 ^ 53.
Proof.
  change (2 ^ 53) with 9007199254740992. intros H.
  assert (Hm : m = 9007199254740992 \/ m = -9007199254740992) by lia.
  destruct Hm as [-> | ->]; split; reflexivity.
Qed.

(** What [binary64] returns is a binary64 value. *)
Lemma binary64_idempotent (x y : Q) : binary64 x = Finite y -> binary64 y = Finite y.
Proof.
  intros E. destruct (Qeq_dec x 0) as [Hx | Hx].
  - rewrite (binary64_zero x Hx) in E. injection E as <-. reflexivity.
  - rewrite (binary64_nonzero x Hx) in E.
    destruct (Qle_bool (pow2 1024) (Qabs (nearest x))) eqn:Eb; [discriminate |].
    injection E as <-.
    assert (Hr : (Qabs (nearest x) < pow2 1024)%Q).
    { destruct (Qlt_le_dec (Qabs (nearest x)) (pow2 1024)) as [H | H]; [exact H |].
      apply Qle_bool_iff in H. congruence. }
    rewrite (binary64_comp (Qred (nearest x)) (nearest x)) by apply Qred_correct.
    unfold nearest in *. set (e := exponent x) in *.
    set (m := py_round (x / pow2 e)) in *.
    pose proof (pow2_pos e) as Pe. pose proof (exponent_ge x) as Hge. fold e in Hge.
    assert (Hm : Z.abs m <= 2 ^ 53).
    { apply py_round_abs_le. rewrite <- (pow2_Z 53) by lia.
      unfold Qdiv. rewrite Qabs_Qmult, Qabs_Qinv, (Qabs_pos (pow2 e)) by lra.
      apply Qle_shift_div_r; [exact Pe |]. rewrite <- pow2_add.
      destruct (ilog2_spec x Hx) as [_ Hu].
      apply Qlt_le_weak. eapply Qlt_le_trans; [exact Hu |].
      apply pow2_le. unfold e, exponent. lia. }
    destruct (Z.eq_dec (Z.abs m) (2 ^ 53)) as [Heq | Hne].
    + (* the significand rounded up to the next binade *)
      assert (Em : inject_Z m * pow2 e == inject_Z (m / 2) * pow2 (e + 1)).
      { rewrite pow2_succ.
        destruct (half_of_2_53 m Heq) as [H _].
        rewrite H at 1. rewrite inject_Z_mult. change (inject_Z 2) with 2%Q. ring. }
      rewrite (binary64_comp _ _ Em), (Qred_complete _ _ Em).
      apply binary64_exact; [lia | apply (half_of_2_53 m Heq) |]. rewrite <- Em. exact Hr.
    + apply binary64_exact; [exact Hge | lia | exact Hr].
Qed.

Lemma Qred_inject_Z (n : Z) : Qred (inject_Z n) = inject_Z n.
Proof.
  apply Qcanon.Qred_identity. cbn. apply Z.gcd_1_r.
Qed.

(** Integers of at most 53 bits are binary64 values. *)
Lemma binary64_int (n : Z) : Z.abs n < 2 ^ 53 -> binary64 (inject_Z n) = Finite (inject_Z n).
Proof.
  intros Hn.
  assert (E : inject_Z n == inject_Z n * pow2 0) by (change (pow2 0) with 1%Q; ring).
  rewrite (binary64_comp _ _ E). rewrite binary64_exact; [| lia | exact Hn |].
  - rewrite <- (Qred_complete _ _ E). rewrite Qred_inject_Z. reflexivity.
  - rewrite <- E, Qabs_inject_Z. rewrite (pow2_Z 1024) by lia. rewrite <- Zlt_Qlt.
    assert (2 ^ 53 < 2 ^ 1024) by (apply Z.pow_lt_mono_r; lia). lia.
Qed.

(** ** Resolution calculator *)

Lemma ten_e_minus_9_value : ten_e_minus_9 = Finite epsilon.
Proof. vm_compute. reflexivity. Qed.

Lemma epsilon_bounds : (pow2 (-27) < epsilon)%Q /\ (epsilon < pow2 (-26))%Q.
Proof. split; reflexivity. Qed.

(** A value strictly within one half of an integer rounds to it. *)
Lemma py_round_within_half (x : Q) (n : Z) :
  (Qabs (x - inject_Z n) < 1 # 2)%Q -> py_round x = n.
Proof.
  intros H. apply Qabs_Qlt_condition in H.
  pose proof (py_round_lower x) as Hl. pose proof (py_round_upper x) as Hu.
  assert (H1 : (inject_Z (py_round x) < inject_Z (n + 1))%Q).
  { rewrite inject_Z_plus. change (inject_Z 1) with 1%Q. lra. }
  assert (H2 : (inject_Z (n - 1) < inject_Z (py_round x))%Q).
  { unfold Z.sub. rewrite inject_Z_plus. change (inject_Z (- (1))) with (-1)%Q. lra. }
  rewrite <- Zlt_Qlt in H1, H2. lia.
Qed.

Lemma py_div_finite (x y : Q) :
  ~ y == 0 -> py_div (Finite x) (Finite y) = Ok (binary64 (x / y)).
Proof.
  intros Hy. unfold py_div. destruct (Qeq_bool y 0) eqn:E; [| reflexivity].
  apply Qeq_bool_iff in E. contradiction.
Qed.

Lemma py_div_zero (a : float) (y : Q) :
  y == 0 -> py_div a (Finite y) = Raise (ZeroDivisionError "float division by zero").
Proof.
  intros Hy. unfold py_div. apply Qeq_bool_iff in Hy. rewrite Hy. destruct a; reflexivity.
Qed.

(** Any cell count the code gets to use is at least 1. *)
Lemma cells_at_least_one (span orig : float) (n : Z) : cells span orig = Ok n -> 1 <= n.
Proof.
  unfold cells. destruct (py_div span orig) as [q | e]; cbn; [| discriminate].
  destruct (round (float_add q ten_e_minus_9)) as [k | e]; cbn; [| discriminate].
  intros [= <-]. lia.
Qed.

(** With the epsilon, a quotient of exactly [k + 1/2] becomes a sum
    strictly between [k + 1/2] and [k + 1], as long as [k < 2^27]. *)
Lemma float_add_half (q : Q) (k : Z) :
  0 <= k < 2 ^ 27 -> q == inject_Z k + (1 # 2) ->
  exists s, float_add (Finite q) ten_e_minus_9 = Finite s
            /\ (inject_Z k + (1 # 2) < s)%Q /\ (s < inject_Z k + 1)%Q.
Proof.
  intros Hk Eq. rewrite ten_e_minus_9_value. cbn [float_add].
  destruct epsilon_bounds as [El Eu].
  set (x := (q + epsilon)%Q).
  assert (Hk0 : (0 <= inject_Z k)%Q) by (change 0%Q with (inject_Z 0); rewrite <- Zle_Qle; lia).
  assert (Hk1 : (inject_Z k <= inject_Z (2 ^ 27 - 1))%Q) by (rewrite <- Zle_Qle; lia).
  change (inject_Z (2 ^ 27 - 1)) with 134217727%Q in Hk1.
  change (pow2 (-27)) with (1 # 134217728)%Q in El.
  change (pow2 (-26)) with (1 # 67108864)%Q in Eu.
  assert (Hxl : (1 # 2 < x)%Q) by (subst x; lra).
  assert (Hxu : (x < 134217728)%Q) by (subst x; lra).
  assert (Hxa : Qabs x == x) by (apply Qabs_pos; lra).
  assert (Hx : ~ x == 0) by lra.
  destruct (binary64_le_pow2 x 27 ltac:(lia)) as (y & E & Ey & _).
  { rewrite Hxa. change (pow2 27) with 134217728%Q. lra. }
  exists y. split; [exact E |].
  pose proof (nearest_error x) as Herr. rewrite <- Ey in Herr.
  assert (He : -53 <= exponent x <= -26).
  { unfold exponent.
    assert (-1 <= ilog2 x) by (apply ilog2_ge; rewrite Hxa; change (pow2 (-1)) with (1 # 2)%Q; lra).
    assert (ilog2 x < 27)
      by (apply ilog2_lt; [exact Hx | rewrite Hxa; change (pow2 27) with 134217728%Q; lra]).
    lia. }
  unfold nearest in Ey. set (e := exponent x) in *.
  set (c := pow2 e) in *. pose proof (pow2_pos e) as Pc. fold c in Pc.
  assert (Hc : (c <= 1 # 67108864)%Q).
  { change (1 # 67108864)%Q with (pow2 (-26)). apply pow2_le. lia. }
  assert (Hc2 : pow2 (e - 1) == c * (1 # 2)) by apply pow2_pred.
  rewrite Hc2 in Herr. apply Qabs_Qle_condition in Herr.
  split; [| subst x; lra].
  (* the sum is more than half a unit in the last place above k + 1/2 *)
  set (J := 2 ^ (- e - 1)).
  assert (EJ : inject_Z J * c == 1 # 2).
  { unfold J, c. rewrite <- (pow2_Z (- e - 1)) by lia. rewrite <- pow2_add.
    replace (- e - 1 + e) with (-1) by lia. reflexivity. }
  set (N := (2 * k + 1) * J).
  assert (EN : inject_Z N * c == inject_Z k + (1 # 2)).
  { unfold N. rewrite inject_Z_mult, inject_Z_plus, inject_Z_mult.
    change (inject_Z 2) with 2%Q. change (inject_Z 1) with 1%Q.
    rewrite <- Qmult_assoc, EJ. ring. }
  set (m := py_round (x / c)) in *.
  pose proof (py_round_lower (x / c)) as Hm. fold m in Hm.
  assert (Et : x / c * c == x) by (field; lra).
  assert (Hgt : (inject_Z N < inject_Z m)%Q).
  { apply (Qmult_lt_r _ _ c Pc). rewrite EN.
    assert (Hprod : ((x / c - (1 # 2)) * c <= inject_Z m * c)%Q)
      by (apply Qmult_le_compat_r; lra).
    subst x. nra. }
  rewrite <- Zlt_Qlt in Hgt.
  assert (Hge : (inject_Z (N + 1) <= inject_Z m)%Q) by (rewrite <- Zle_Qle; lia).
  rewrite inject_Z_plus in Hge. change (inject_Z 1) with 1%Q in Hge.
  rewrite Ey.
  assert (Hprod : ((inject_Z N + 1) * c <= inject_Z m * c)%Q)
    by (apply Qmult_le_compat_r; lra).
  nra.
Qed.

(** With the epsilon, a quotient of exactly [k + 1/2] cells counts
    [k + 1], for [k] below [2^27]. *)
Lemma cells_half_cell_rounds_up (span orig : float) (q : Q) (k : Z) :
  0 <= k < 2 ^ 27 ->
  py_div span orig = Ok (Finite q) -> q == inject_Z k + (1 # 2) ->
  cells span orig = Ok (k + 1).
Proof.
  intros Hk Ed Eq. unfold cells. rewrite Ed. cbn [mbind result_bind].
  destruct (float_add_half q k Hk Eq) as (s & Es & Hl & Hu).
  rewrite Es. cbn [round mbind result_bind mret result_ret]. f_equal.
  rewrite (py_round_comp s (inject_Z k + (s - inject_Z k))) by ring.
  rewrite py_round_above_half by lra. lia.
Qed.

(** ** Feeding the resolution back *)

Lemma Qabs_zero_iff (x : Q) : Qabs x == 0 <-> x == 0.
Proof.
  split; intros H.
  - destruct (Qlt_le_dec x 0) as [Hn | Hp].
    + rewrite (Qabs_neg x) in H by lra. lra.
    + rewrite (Qabs_pos x Hp) in H. exact H.
  - rewrite H. reflexivity.
Qed.

Lemma Qabs_pos_lt (x : Q) : ~ x == 0 -> (0 < Qabs x)%Q.
Proof.
  intros Hx. pose proof (Qabs_nonneg x) as H.
  destruct (Qeq_dec (Qabs x) 0) as [E | E]; [exfalso; apply Hx, Qabs_zero_iff, E | lra].
Qed.

Lemma Qabs_div (x y : Q) : ~ y == 0 -> Qabs (x / y) == Qabs x / Qabs y.
Proof. intros Hy. unfold Qdiv. rewrite Qabs_Qmult, Qabs_Qinv. reflexivity. Qed.

(** A value of binary64 is below [2^1024]. *)
Lemma binary64_value_bound (x : Q) : binary64 x = Finite x -> (Qabs x < pow2 1024)%Q.
Proof.
  intros E. destruct (Qeq_dec x 0) as [Hx | Hx].
  - rewrite Hx. reflexivity.
  - rewrite (binary64_nonzero x Hx) in E.
    destruct (Qle_bool (pow2 1024) (Qabs (nearest x))) eqn:Eb; [discriminate |].
    injection E as E.
    assert (Hr : (Qabs (nearest x) < pow2 1024)%Q).
    { destruct (Qlt_le_dec (Qabs (nearest x)) (pow2 1024)) as [H | H]; [exact H |].
      apply Qle_bool_iff in H. congruence. }
    assert (En : x == nearest x) by (rewrite <- E at 1; apply Qred_correct).
    rewrite En at 1. exact Hr.
Qed.

(** Dividing a product back by an approximation of one factor gives
    nearly the other factor. *)
Lemma divide_back (t r n : Q) :
  (0 < n)%Q -> ~ t == 0 ->
  (Qabs (r - t) <= Qabs t * (1 # 9007199254740992))%Q ->
  ~ r == 0 /\ (Qabs (n * t / r - n) <= n * (1 # 4503599627370496))%Q.
Proof.
  intros Hn Ht H. apply Qabs_Qle_condition in H.
  destruct (Qlt_le_dec t 0) as [Hneg | Hpos].
  - rewrite (Qabs_neg t) in H by lra.
    assert (Hr : (r < 0)%Q) by lra.
    split; [lra |].
    assert (Eu : (n * t / r - n) * r == n * (t - r)) by (field; lra).
    set (u := (n * t / r - n)%Q) in *.
    apply Qabs_Qle_condition. split; nra.
  - assert (Ht' : (0 < t)%Q) by lra.
    rewrite (Qabs_pos t) in H by lra.
    assert (Hr : (0 < r)%Q) by lra.
    split; [lra |].
    assert (Eu : (n * t / r - n) * r == n * (t - r)) by (field; lra).
    set (u := (n * t / r - n)%Q) in *.
    apply Qabs_Qle_condition. split; nra.
Qed.

Lemma float_of_int_exact (n : Z) :
  Z.abs n < 2 ^ 53 -> float_of_int n = Ok (Finite (inject_Z n)).
Proof. intros H. unfold float_of_int. rewrite (binary64_int n H). reflexivity. Qed.

Lemma cells_finite (sx ox : Q) :
  ~ ox == 0 ->
  cells (Finite sx) (Finite ox)
  = n ← round (float_add (binary64 (sx / ox)) ten_e_minus_9); mret (Z.max 1 n).
Proof. intros Ho. unfold cells. rewrite (py_div_finite sx ox Ho). reflexivity. Qed.

(** One cell: the quotient of the span by itself. *)
Lemma cells_of_span_by_itself (sx : Q) : ~ sx == 0 -> cells (Finite sx) (Finite sx) = Ok 1.
Proof.
  intros Hs. rewrite (cells_finite sx sx Hs).
  rewrite (binary64_comp (sx / sx) 1) by (field; exact Hs).
  vm_compute. reflexivity.
Qed.

(** The cell count of an axis, with the bounds it inherits from the
    quotient. *)
Lemma cells_bounded (sx ox : Q) (k : Z) :
  0 <= k <= 1022 -> ~ ox == 0 -> (Qabs sx <= pow2 k * Qabs ox)%Q ->
  exists s, float_add (binary64 (sx / ox)) ten_e_minus_9 = Finite s
            /\ cells (Finite sx) (Finite ox) = Ok (Z.max 1 (py_round s))
            /\ Z.max 1 (py_round s) <= 2 ^ (k + 1).
Proof.
  intros Hk Ho Hq. pose proof (Qabs_pos_lt ox Ho) as Hoa.
  assert (Ht : (Qabs (sx / ox) <= pow2 k)%Q).
  { rewrite (Qabs_div sx ox Ho). apply Qle_shift_div_r; assumption. }
  destruct (binary64_le_pow2 (sx / ox) k ltac:(lia) Ht) as (q & Eq & _ & Hqb).
  rewrite (cells_finite sx ox Ho), Eq, ten_e_minus_9_value. cbn [float_add].
  assert (Hx : (Qabs (q + epsilon) <= pow2 (k + 1))%Q).
  { eapply Qle_trans; [apply Qabs_triangle |]. rewrite pow2_succ.
    assert (Qabs epsilon <= pow2 k)%Q; [| lra].
    apply Qle_trans with (pow2 0); [discriminate | apply pow2_le; lia]. }
  destruct (binary64_le_pow2 (q + epsilon) (k + 1) ltac:(lia) Hx) as (s & Es & _ & Hsb).
  exists s. rewrite Es. split; [reflexivity |]. split; [reflexivity |].
  rewrite (pow2_Z (k + 1)) in Hsb by lia.
  pose proof (py_round_abs_le s _ Hsb) as Hr.
  assert (1 <= 2 ^ (k + 1)) by (apply (Z.pow_le_mono_r 2 0); lia).
  lia.
Qed.

(** One axis of the fixed point: the resolution computed for an axis
    gives, fed back, the same cell count. *)
Lemma cells_stable_axis (sx ox : Q) :
  binary64 sx = Finite sx ->
  (pow2 (-900) <= Qabs sx)%Q -> ~ ox == 0 -> (Qabs sx <= pow2 47 * Qabs ox)%Q ->
  exists (n : Z) (r : Q),
    cells (Finite sx) (Finite ox) = Ok n
    /\ py_div_int (Finite sx) n = Ok (Finite r)
    /\ cells (Finite sx) (Finite r) = Ok n.
Proof.
  intros Hrep Hlo Ho Hq.
  destruct (cells_bounded sx ox 47 ltac:(lia) Ho Hq) as (s & _ & Ec & Hn).
  set (n := Z.max 1 (py_round s)) in *. exists n.
  assert (Hn1 : 1 <= n) by (subst n; lia).
  change (2 ^ (47 + 1)) with 281474976710656 in Hn.
  assert (Hs0 : ~ sx == 0).
  { intros E. rewrite E in Hlo. pose proof (pow2_pos (-900)). change (Qabs 0) with 0%Q in Hlo. lra. }
  assert (Hnq : ~ inject_Z n == 0).
  { intros E. unfold Qeq in E. cbn in E. lia. }
  unfold py_div_int. rewrite float_of_int_exact by (change (2 ^ 53) with 9007199254740992; lia).
  cbn [mbind result_bind]. rewrite (py_div_finite sx (inject_Z n) Hnq).
  destruct (Z.eq_dec n 1) as [En1 | Hn2].
  - (* one cell: the resolution is the span itself *)
    exists sx. rewrite En1 in *.
    rewrite (binary64_comp (sx / inject_Z 1) sx) by (change (inject_Z 1) with 1%Q; field).
    rewrite Hrep. split; [exact Ec |]. split; [reflexivity |].
    apply cells_of_span_by_itself, Hs0.
  - (* two cells or more *)
    assert (Hnl : (2 <= inject_Z n)%Q) by (change 2%Q with (inject_Z 2); rewrite <- Zle_Qle; lia).
    assert (Hnu : (inject_Z n <= 281474976710656)%Q)
      by (change 281474976710656%Q with (inject_Z 281474976710656); rewrite <- Zle_Qle; lia).
    set (nq := inject_Z n) in *.
    set (t := (sx / nq)%Q).
    assert (Esx : nq * t == sx) by (subst t; field; exact Hnq).
    assert (Hta : Qabs t * nq == Qabs sx).
    { rewrite <- Esx, Qabs_Qmult, (Qabs_pos nq) by lra. ring. }
    pose proof (binary64_value_bound sx Hrep) as Hsb.
    pose proof (Qabs_nonneg t) as Ht0.
    assert (Htl : (pow2 (-1022) <= Qabs t)%Q).
    { assert (H1 : (pow2 (-900) <= Qabs t * 281474976710656)%Q) by nra.
      assert (H2 : (pow2 (-1022) * 281474976710656 <= pow2 (-900))%Q).
      { change 281474976710656%Q with (pow2 48). rewrite <- pow2_add. apply pow2_le. lia. }
      pose proof (pow2_pos (-1022)). nra. }
    assert (Htu : (Qabs t <= pow2 1023)%Q).
    { assert (H1 : pow2 1024 == 2 * pow2 1023) by (apply (pow2_succ 1023)). nra. }
    destruct (binary64_normal t Htl Htu) as (r & Er & Herr).
    exists r. rewrite Er. split; [exact Ec |]. split; [reflexivity |].
    assert (Ht : ~ t == 0).
    { intros E. rewrite E in Htl. pose proof (pow2_pos (-1022)).
      change (Qabs 0) with 0%Q in Htl. lra. }
    change (pow2 (-53)) with (1 # 9007199254740992)%Q in Herr.
    destruct (divide_back t r nq ltac:(lra) Ht Herr) as [Hr Hu].
    rewrite (cells_finite sx r Hr).
    rewrite (binary64_comp (sx / r) (nq * t / r)) by (rewrite Esx; reflexivity).
    set (u := (nq * t / r)%Q) in *.
    apply Qabs_Qle_condition in Hu.
    assert (Hua : Qabs u == u) by (apply Qabs_pos; lra).
    assert (Hul : (pow2 (-1022) <= Qabs u)%Q).
    { rewrite Hua. apply Qle_trans with 1%Q; [discriminate | lra]. }
    assert (Huu : (Qabs u <= pow2 1023)%Q).
    { rewrite Hua. apply Qle_trans with (pow2 49); [| apply pow2_le; lia].
      change (pow2 49) with 562949953421312%Q. lra. }
    destruct (binary64_normal u Hul Huu) as (qq & Eqq & Hqe).
    rewrite Eqq, ten_e_minus_9_value. cbn [float_add].
    rewrite Hua in Hqe. change (pow2 (-53)) with (1 # 9007199254740992)%Q in Hqe.
    apply Qabs_Qle_condition in Hqe.
    destruct epsilon_bounds as [El Eu].
    change (pow2 (-27)) with (1 # 134217728)%Q in El.
    change (pow2 (-26)) with (1 # 67108864)%Q in Eu.
    set (v := (qq + epsilon)%Q).
    assert (Hva : Qabs v == v) by (apply Qabs_pos; subst v; lra).
    assert (Hvl : (pow2 (-1022) <= Qabs v)%Q).
    { rewrite Hva. apply Qle_trans with 1%Q; [discriminate | subst v; lra]. }
    assert (Hvu : (Qabs v <= pow2 1023)%Q).
    { rewrite Hva. apply Qle_trans with (pow2 49); [| apply pow2_le; lia].
      change (pow2 49) with 562949953421312%Q. subst v. lra. }
    destruct (binary64_normal v Hvl Hvu) as (ss & Ess & Hse).
    rewrite Ess. cbn [round mbind result_bind mret result_ret]. f_equal.
    rewrite Hva in Hse. change (pow2 (-53)) with (1 # 9007199254740992)%Q in Hse.
    apply Qabs_Qle_condition in Hse.
    rewrite (py_round_within_half ss n); [lia |].
    fold nq. apply Qabs_Qlt_condition. subst v. split; lra.
Qed.

(** Whenever the quotient stays within range, a cell count comes out and
    the span is divided by it. *)
Lemma axis_returns (sx ox : Q) :
  ~ ox == 0 -> (Qabs sx <= pow2 1022 * Qabs ox)%Q ->
  exists (n : Z) (r : float),
    cells (Finite sx) (Finite ox) = Ok n /\ py_div_int (Finite sx) n = Ok r.
Proof.
  intros Ho Hq.
  destruct (cells_bounded sx ox 1022 ltac:(lia) Ho Hq) as (s & _ & Ec & Hn).
  set (n := Z.max 1 (py_round s)) in *. exists n.
  assert (Hn1 : 1 <= n) by (subst n; lia).
  assert (Hnl : (1 <= inject_Z n)%Q) by (change 1%Q with (inject_Z 1); rewrite <- Zle_Qle; lia).
  assert (Hna : Qabs (inject_Z n) == inject_Z n) by (apply Qabs_pos; lra).
  assert (Hnu : (Qabs (inject_Z n) <= pow2 1023)%Q).
  { rewrite Hna, (pow2_Z 1023) by lia. rewrite <- Zle_Qle. exact Hn. }
  assert (Hnl' : (pow2 (-1022) <= Qabs (inject_Z n))%Q).
  { rewrite Hna. apply Qle_trans with 1%Q; [discriminate | exact Hnl]. }
  destruct (binary64_normal (inject_Z n) Hnl' Hnu) as (nf & Enf & Herr).
  rewrite Hna in Herr. change (pow2 (-53)) with (1 # 9007199254740992)%Q in Herr.
  apply Qabs_Qle_condition in Herr.
  assert (Hnf : ~ nf == 0) by lra.
  unfold py_div_int, float_of_int. rewrite Enf. cbn [mbind result_bind].
  rewrite (py_div_finite sx nf Hnf). eexists. split; [exact Ec | reflexivity].
Qed.

Lemma float_sub_Finite (a b : float) (d : Q) :
  float_sub a b = Finite d ->
  exists x y, a = Finite x /\ b = Finite y /\ binary64 (x - y) = Finite d.
Proof.
  destruct a as [x | s |], b as [y | s' |]; cbn [float_sub]; try discriminate.
  - intros E. exists x, y. auto.
  - destruct (Bool.eqb s s'); discriminate.
Qed.

Lemma float_sub_value (a b : float) (d : Q) : float_sub a b = Finite d -> binary64 d = Finite d.
Proof.
  intros E. destruct (float_sub_Finite a b d E) as (x & y & _ & _ & Eb).
  exact (binary64_idempotent _ _ Eb).
Qed.

Lemma calc_best_resolution_bbox_unfold
  (x_min x_max y_min y_max : float) (orig_resolution : float * float) :
  calc_best_resolution_bbox x_min x_max y_min y_max orig_resolution
  = (cells_x ← cells (float_sub x_max x_min) (fst orig_resolution);
     cells_y ← cells (float_sub y_max y_min) (snd orig_resolution);
     res_x ← py_div_int (float_sub x_max x_min) cells_x;
     res_y ← py_div_int (float_sub y_max y_min) cells_y;
     mret (res_x, res_y)).
Proof. reflexivity. Qed.

(** C4 (amended): whenever [calc_best_resolution_bbox] returns, it has
    used on each axis the cell count
    [max(1, round(span / orig_resolution + 10e-9))], which is at least 1,
    and it returns [span / cell_count], all in binary64 arithmetic; it
    does return for finite spans and a finite, non-zero resolution whose
    quotient does not exceed [2^1022] in magnitude; and a quotient of
    exactly [k + 1/2] cells (such as 8.5) is counted as [k + 1] cells for
    every [k] below [2^27]. *)
Theorem calc_best_resolution_bbox_cell_count
  (x_min x_max y_min y_max orig_x orig_y : float) :
  let dx := float_sub x_max x_min in
  let dy := float_sub y_max y_min in
  (forall res_x res_y : float,
      calc_best_resolution_bbox x_min x_max y_min y_max (orig_x, orig_y) = Ok (res_x, res_y) ->
      exists (qx qy : float) (nx ny : Z),
        py_div dx orig_x = Ok qx /\ round (float_add qx ten_e_minus_9) = Ok nx
        /\ py_div dy orig_y = Ok qy /\ round (float_add qy ten_e_minus_9) = Ok ny
        /\ cells dx orig_x = Ok (Z.max 1 nx) /\ cells dy orig_y = Ok (Z.max 1 ny)
        /\ 1 <= Z.max 1 nx /\ 1 <= Z.max 1 ny
        /\ py_div_int dx (Z.max 1 nx) = Ok res_x
        /\ py_div_int dy (Z.max 1 ny) = Ok res_y)
  /\ (forall sx sy ox oy : Q,
        dx = Finite sx -> dy = Finite sy -> orig_x = Finite ox -> orig_y = Finite oy ->
        ~ ox == 0 -> ~ oy == 0 ->
        (Qabs sx <= pow2 1022 * Qabs ox)%Q -> (Qabs sy <= pow2 1022 * Qabs oy)%Q ->
        exists res, calc_best_resolution_bbox x_min x_max y_min y_max (orig_x, orig_y) = Ok res)
  /\ (forall (q : Q) (k : Z),
        0 <= k < 2 ^ 27 -> py_div dx orig_x = Ok (Finite q) -> q == inject_Z k + (1 # 2) ->
        cells dx orig_x = Ok (k + 1))
  /\ (forall (q : Q) (k : Z),
        0 <= k < 2 ^ 27 -> py_div dy orig_y = Ok (Finite q) -> q == inject_Z k + (1 # 2) ->
        cells dy orig_y = Ok (k + 1)).
Proof.
  intros dx dy. split_and!.
  - intros res_x res_y. rewrite calc_best_resolution_bbox_unfold. fold dx dy. cbn [fst snd].
    unfold cells.
    destruct (py_div dx orig_x) as [qx | e] eqn:Eqx; cbn [mbind result_bind]; [| discriminate].
    destruct (round (float_add qx ten_e_minus_9)) as [nx | e] eqn:Enx;
      cbn [mbind result_bind mret result_ret]; [| discriminate].
    destruct (py_div dy orig_y) as [qy | e] eqn:Eqy; cbn [mbind result_bind]; [| discriminate].
    destruct (round (float_add qy ten_e_minus_9)) as [ny | e] eqn:Eny;
      cbn [mbind result_bind mret result_ret]; [| discriminate].
    destruct (py_div_int dx (Z.max 1 nx)) as [rx | e] eqn:Erx;
      cbn [mbind result_bind]; [| discriminate].
    destruct (py_div_int dy (Z.max 1 ny)) as [ry | e] eqn:Ery;
      cbn [mbind result_bind]; [| discriminate].
    intros [= <- <-]. exists qx, qy, nx, ny.
    split_and!; try assumption; try reflexivity; lia.
  - intros sx sy ox oy Ex Ey Eox Eoy Hox Hoy Hqx Hqy.
    rewrite calc_best_resolution_bbox_unfold. fold dx dy. rewrite Ex, Ey, Eox, Eoy. cbn [fst snd].
    destruct (axis_returns sx ox Hox Hqx) as (nx & rx & Cx & Dx).
    destruct (axis_returns sy oy Hoy Hqy) as (ny & ry & Cy & Dy).
    rewrite Cx, Cy. cbn [mbind result_bind]. rewrite Dx, Dy. cbn [mbind result_bind].
    eexists. reflexivity.
  - intros q k. apply cells_half_cell_rounds_up.
  - intros q k. apply cells_half_cell_rounds_up.
Qed.

Lemma calc_best_resolution_bbox_cell_count_witness :
  cells (float_sub (Finite 85) (Finite 0)) (Finite 10) = Ok 9
  /\ exists res,
       calc_best_resolution_bbox (Finite 0) (Finite 85) (Finite 0) (Finite 40)
         (Finite 10, Finite 10) = Ok res.
Proof.
  destruct (calc_best_resolution_bbox_cell_count
              (Finite 0) (Finite 85) (Finite 0) (Finite 40) (Finite 10) (Finite 10))
    as (_ & Hret & Hhalf & _).
  split.
  - apply (Hhalf (17 # 2)%Q 8); [lia | vm_compute; reflexivity | reflexivity].
  - apply (Hret 85%Q 40%Q 10%Q 10%Q); try (vm_compute; reflexivity);
      try (intros H; vm_compute in H; discriminate);
      vm_compute; discriminate.
Defined.

(** C4 as stated fails twice.  From [2^27] cells on the epsilon is
    smaller than half a unit in the last place of the quotient and is
    lost in the addition: a quotient of exactly [2^27 + 1/2] is a tie and
    rounds down, to the even count [2^27].  And a zero resolution gives
    no cell count at all: the division raises. *)
Lemma calc_best_resolution_bbox_half_cell_rounds_down :
  py_div (float_sub (Finite (268435457 # 2)) (Finite 0)) (Finite 1)
  = Ok (Finite (inject_Z (2 ^ 27) + (1 # 2)))
  /\ cells (float_sub (Finite (268435457 # 2)) (Finite 0)) (Finite 1) = Ok (2 ^ 27)
  /\ calc_best_resolution_bbox (Finite 0) (Finite 85) (Finite 0) (Finite 40)
       (Finite 0, Finite 10)
     = Raise (ZeroDivisionError "float division by zero").
Proof. split_and!; vm_compute; reflexivity. Qed.

(** C5 (amended): for a bounding box whose width and height are finite
    and at least [2^-900] in magnitude, and an original resolution with
    finite non-zero components and at most [2^47] cells per axis,
    [calc_best_resolution_bbox] returns a resolution which, fed back with
    the same bounding box, is returned unchanged, bit for bit. *)
Theorem calc_best_resolution_bbox_fixed_point
  (x_min x_max y_min y_max : float) (dx dy orig_x orig_y : Q) :
  float_sub x_max x_min = Finite dx -> float_sub y_max y_min = Finite dy ->
  (pow2 (-900) <= Qabs dx)%Q -> (pow2 (-900) <= Qabs dy)%Q ->
  ~ orig_x == 0 -> ~ orig_y == 0 ->
  (Qabs dx <= pow2 47 * Qabs orig_x)%Q -> (Qabs dy <= pow2 47 * Qabs orig_y)%Q ->
  exists res : float * float,
    calc_best_resolution_bbox x_min x_max y_min y_max (Finite orig_x, Finite orig_y) = Ok res
    /\ calc_best_resolution_bbox x_min x_max y_min y_max res = Ok res.
Proof.
  intros Ex Ey Hdx Hdy Hox Hoy Hqx Hqy.
  pose proof (float_sub_value _ _ _ Ex) as Rx. pose proof (float_sub_value _ _ _ Ey) as Ry.
  destruct (cells_stable_axis dx orig_x Rx Hdx Hox Hqx) as (nx & rx & Cx & Dx & Cx').
  destruct (cells_stable_axis dy orig_y Ry Hdy Hoy Hqy) as (ny & ry & Cy & Dy & Cy').
  exists (Finite rx, Finite ry).
  rewrite !calc_best_resolution_bbox_unfold, Ex, Ey. cbn [fst snd].
  rewrite Cx, Cy, Cx', Cy'. cbn [mbind result_bind]. rewrite Dx, Dy. split; reflexivity.
Qed.

Lemma calc_best_resolution_bbox_fixed_point_witness :
  exists res : float * float,
    calc_best_resolution_bbox (Finite 0) (Finite 85) (Finite 0) (Finite 40)
      (Finite 10, Finite 10) = Ok res
    /\ calc_best_resolution_bbox (Finite 0) (Finite 85) (Finite 0) (Finite 40) res = Ok res.
Proof.
  apply (calc_best_resolution_bbox_fixed_point (Finite 0) (Finite 85) (Finite 0) (Finite 40)
           85 40 10 10);
    try (vm_compute; reflexivity);
    try (intros H; vm_compute in H; discriminate);
    vm_compute; discriminate.
Defined.

(** C5 as stated fails on a bounding box of zero width: the first call
    returns a zero x-resolution, and the second call divides by it.  It
    also fails where the first call returns nothing: a quotient of
    [1e300] by [1e-10] overflows to an infinity, which [round] refuses. *)
Lemma calc_best_resolution_bbox_zero_width_not_fixed_point :
  calc_best_resolution_bbox (Finite 0) (Finite 0) (Finite 0) (Finite 10) (Finite 1, Finite 1)
  = Ok (Finite 0, Finite 1)
  /\ calc_best_resolution_bbox (Finite 0) (Finite 0) (Finite 0) (Finite 10) (Finite 0, Finite 1)
     = Raise (ZeroDivisionError "float division by zero")
  /\ calc_best_resolution_bbox (Finite 0) (binary64 (inject_Z (10 ^ 300))) (Finite 0) (Finite 1)
       (binary64 (1 # 10 ^ 10), Finite 1)
     = Raise (OverflowError "cannot convert float infinity to integer").
Proof. split_and!; vm_compute; reflexivity. Qed.

(** ** Dispatch on the type tag *)

Lemma builder_getattr_None (t : string) :
  ~ In t builder_types -> builder_getattr ("create_" ++ t) = None.
Proof.
  intros H. unfold builder_getattr. cbv beta iota delta [String.append].
  cbn [String.eqb Ascii.eqb Bool.eqb].
  repeat match goal with
         | |- context [String.eqb t ?s] =>
             destruct (String.eqb_spec t s) as [-> | _];
             [exfalso; apply H; cbn; tauto |]
         end.
  reflexivity.
Qed.

Lemma serializer_getattr_None (t : string) :
  ~ In t serializer_types -> serializer_getattr ("convert_" ++ t) = None.
Proof.
  intros H. unfold serializer_getattr. cbv beta iota delta [String.append].
  cbn [String.eqb Ascii.eqb Bool.eqb].
  repeat match goal with
         | |- context [String.eqb t ?s] =>
             destruct (String.eqb_spec t s) as [-> | _];
             [exfalso; apply H; cbn; tauto |]
         end.
  reflexivity.
Qed.

Lemma convert_unfold_None (precision : Z) (geometry : Geometry) :
  serializer_getattr ("convert_" ++ lower (GetGeometryName geometry)) = None ->
  convert precision geometry
  = Raise (ValueError (lower (GetGeometryName geometry) ++ " is not supported")).
Proof. intros H. destruct geometry as [t d ps gs]. cbn [convert]. rewrite H. reflexivity. Qed.

(** C6: a type tag without a handler makes both the builder (on a
    mapping) and the serializer (on a geometry) raise the "is not
    supported" error (a [ValueError], the module's
    UnsupportedGeometryType) at once. *)
Theorem unsupported_geometry_type_raises :
  (forall (flatten : bool) (type_ : string) (coordinates : option coords)
          (geometries : option (list mapping)),
      ~ In (lower type_) builder_types ->
      create flatten (Mapping type_ coordinates geometries)
      = Raise (ValueError (lower type_ ++ " is not supported")))
  /\ (forall (precision : Z) (geometry : Geometry),
      ~ In (lower (GetGeometryName geometry)) serializer_types ->
      convert precision geometry
      = Raise (ValueError (lower (GetGeometryName geometry) ++ " is not supported"))).
Proof.
  split.
  - intros flatten type_ coordinates geometries H. cbn [create].
    rewrite (builder_getattr_None _ H). reflexivity.
  - intros precision geometry H. apply convert_unfold_None, serializer_getattr_None, H.
Qed.

Lemma unsupported_geometry_type_raises_witness :
  create true (Mapping "Circle" (Some (Seq [Num 0; Num 0; Num 1])) None)
  = Raise (ValueError "circle is not supported")
  /\ convert 15 (mkGeometry wkbMultiPoint false [] [mkGeometry wkbPoint false [(0, 0, 0)%Q] []])
     = Raise (ValueError "multipoint is not supported").
Proof.
  split.
  - apply (proj1 unsupported_geometry_type_raises true "Circle").
    vm_compute. intros H. repeat (destruct H as [H | H]; [discriminate |]). exact H.
  - apply (proj2 unsupported_geometry_type_raises 15).
    vm_compute. intros H. repeat (destruct H as [H | H]; [discriminate |]). exact H.
Defined.

(** ** The loops over parts *)

Lemma lookup_range {A : Type} (pre l : list A) :
  omap (fun i => (pre ++ l)%list !! i) (seq (length pre) (length l)) = l.
Proof.
  revert pre. induction l as [| x l IH]; intros pre; [reflexivity |].
  cbn [length seq omap list_omap].
  rewrite lookup_app_r by lia. rewrite Nat.sub_diag. cbn [lookup list_lookup].
  f_equal. specialize (IH (pre ++ [x])%list).
  rewrite <- app_assoc, length_app in IH. cbn [app length] in IH.
  rewrite Nat.add_1_r in IH. exact IH.
Qed.

(** Reading [GetGeometryRef(i)] for [i] in [range(GetGeometryCount())]
    visits the parts in order. *)
Lemma parts_by_index (g : Geometry) :
  omap (GetGeometryRef g) (seq 0 (GetGeometryCount g)) = parts g.
Proof. apply (lookup_range [] (parts g)). Qed.

(** ** Induction on geometries and mappings *)

Lemma Geometry_ind' (P : Geometry -> Prop) :
  (forall t d ps gs, Forall P gs -> P (mkGeometry t d ps gs)) -> forall g, P g.
Proof.
  intros H. fix IH 1. intros [t d ps gs]. apply H.
  induction gs as [| g gs IHgs]; constructor; [apply IH | exact IHgs].
Qed.

Lemma mapping_ind' (P : mapping -> Prop) :
  (forall type_ coordinates, P (Mapping type_ coordinates None)) ->
  (forall type_ coordinates ms, Forall P ms -> P (Mapping type_ coordinates (Some ms))) ->
  forall m, P m.
Proof.
  intros Hn Hs. fix IH 1. intros [type_ coordinates [ms |]]; [| apply Hn].
  apply Hs. induction ms as [| m ms IHms]; constructor; [apply IH | exact IHms].
Qed.

Lemma sim_refl (g : Geometry) : sim g g.
Proof.
  induction g as [t d ps gs IH] using Geometry_ind'. constructor; [auto |].
  induction IH; constructor; auto.
Qed.

Lemma set3D_true_sim (g : Geometry) : built false g -> sim g (set3D true g).
Proof.
  induction g as [t d ps gs IH] using Geometry_ind'. intros Hb. inversion Hb as [? ? ? ? Hd Hgs]; subst.
  cbn [set3D]. constructor; [exact Hd |].
  clear Hd Hb. induction IH as [| g gs Hg _ IHgs]; cbn [map]; constructor.
  - apply Hg. inversion Hgs; assumption.
  - apply IHgs. inversion Hgs; assumption.
Qed.

Lemma set3D_true_built (g : Geometry) : built false (set3D true g).
Proof.
  induction g as [t d ps gs IH] using Geometry_ind'. cbn [set3D]. constructor; [auto |].
  induction IH; cbn [map]; constructor; auto.
Qed.

(** [convert] by geometry type, with the loop over the members of a
    collection as a comprehension. *)
Lemma convert_unfold (precision : Z) (g : Geometry) :
  convert precision g
  = match gtype g with
    | wkbPoint => convert_point precision g
    | wkbPolygon => convert_polygon precision g
    | wkbMultiPolygon => convert_multipolygon precision g
    | wkbMultiLineString => convert_multilinestring precision g
    | wkbGeometryCollection =>
        members ← comprehension (convert precision) (parts g);
        mret (Mapping "GeometryCollection" None (Some members))
    | _ => Raise (ValueError (lower (GetGeometryName g) ++ " is not supported"))
    end.
Proof.
  destruct g as [t d ps gs]. destruct t; try reflexivity.
  cbn [convert gtype parts GetGeometryName lower]. 
  change (serializer_getattr _) with (Some h_convert_geometrycollection). cbv beta iota.
  match goal with |- match ?loop gs with _ => _ end = _ =>
    assert (E : forall ms, loop ms = comprehension (convert precision) ms)
  end.
  { induction ms as [| m ms IH]; [reflexivity |].
    cbn [comprehension]. rewrite <- IH. reflexivity. }
  rewrite E. destruct (comprehension _ gs); reflexivity.
Qed.

Lemma comprehension_ext {A B : Type} (f : A -> result B) (l l' : list A) :
  Forall2 (fun a a' => f a = f a') l l' -> comprehension f l = comprehension f l'.
Proof.
  induction 1 as [| a a' l l' E _ IH]; [reflexivity |].
  cbn [comprehension]. rewrite E, IH. reflexivity.
Qed.

Lemma GetPoints_sim (g g' : Geometry) : sim g g' -> GetPoints g = GetPoints g'.
Proof.
  intros [t d d' ps gs gs' Hd _]. unfold GetPoints. cbn [points is3D].
  destruct ps as [| p ps]; [reflexivity |]. rewrite Hd by discriminate. reflexivity.
Qed.

Lemma _get_points_sim (precision : Z) (g g' : Geometry) :
  sim g g' -> _get_points precision g = _get_points precision g'.
Proof. intros H. unfold _get_points. rewrite (GetPoints_sim _ _ H). reflexivity. Qed.

Lemma sim_parts (g g' : Geometry) : sim g g' -> Forall2 sim (parts g) (parts g').
Proof. intros [t d d' ps gs gs' _ H]. exact H. Qed.

Lemma sim_gtype (g g' : Geometry) : sim g g' -> gtype g = gtype g'.
Proof. intros [t d d' ps gs gs' _ _]. reflexivity. Qed.

Lemma convert_polygon_sim (precision : Z) (g g' : Geometry) :
  sim g g' -> convert_polygon precision g = convert_polygon precision g'.
Proof.
  intros H. unfold convert_polygon. f_equal. apply comprehension_ext.
  eapply Forall2_impl; [apply sim_parts, H |]. apply _get_points_sim.
Qed.

Lemma convert_multilinestring_sim (precision : Z) (g g' : Geometry) :
  sim g g' -> convert_multilinestring precision g = convert_multilinestring precision g'.
Proof.
  intros H. unfold convert_multilinestring. f_equal. apply comprehension_ext.
  eapply Forall2_impl; [apply sim_parts, H |]. apply _get_points_sim.
Qed.

Lemma convert_multipolygon_sim (precision : Z) (g g' : Geometry) :
  sim g g' -> convert_multipolygon precision g = convert_multipolygon precision g'.
Proof.
  intros H. unfold convert_multipolygon. f_equal. apply comprehension_ext.
  eapply Forall2_impl; [apply sim_parts, H |].
  intros a a' Ha. cbv beta. rewrite (convert_polygon_sim _ _ _ Ha). reflexivity.
Qed.

Lemma convert_point_sim (precision : Z) (g g' : Geometry) :
  sim g g' -> convert_point precision g = convert_point precision g'.
Proof. intros H. unfold convert_point. rewrite (_get_points_sim _ _ _ H). reflexivity. Qed.

(** The serializer gives the same answer on geometries it cannot tell
    apart. *)
Lemma convert_sim (precision : Z) (g : Geometry) :
  forall g', sim g g' -> convert precision g = convert precision g'.
Proof.
  induction g as [t d ps gs IH] using Geometry_ind'. intros g' H.
  rewrite !convert_unfold. unfold GetGeometryName. rewrite <- (sim_gtype _ _ H).
  cbn [gtype]. destruct t; try reflexivity.
  - apply convert_point_sim, H.
  - apply convert_polygon_sim, H.
  - apply convert_multilinestring_sim, H.
  - apply convert_multipolygon_sim, H.
  - f_equal. apply comprehension_ext.
    pose proof (sim_parts _ _ H) as Hp. cbn [parts] in *.
    clear H. revert Hp. generalize (parts g'). induction IH as [| a gs Ha _ IHgs];
      intros l' Hp; inversion Hp; subst; constructor; auto.
Qed.

(** ** The builder on well-formed coordinates *)

Lemma _add_point_curve (flatten : bool) (t : wkbGeometryType) (d : bool)
  (ps : list xyz) (c : coords) :
  is_curve t = true -> position flatten c ->
  _add_point flatten (mkGeometry t d ps []) c
  = Ok (mkGeometry t (if flatten then d else true) (ps ++ [xyz_of_position c]) []).
Proof.
  intros Ht Hc. destruct Hc as [x y -> | x y z ->]; destruct t; try discriminate; reflexivity.
Qed.

Lemma _add_points_curve (flatten : bool) (t : wkbGeometryType) (cs : list coords) :
  is_curve t = true -> Forall (position flatten) cs ->
  forall (d : bool) (ps : list xyz),
    for_each (_add_point flatten) cs (mkGeometry t d ps [])
    = Ok (mkGeometry t
            (if flatten then d else match cs with [] => d | _ => true end)
            (ps ++ map xyz_of_position cs) []).
Proof.
  intros Ht Hcs. induction Hcs as [| c cs Hc _ IH]; intros d ps.
  - cbn [for_each map]. rewrite app_nil_r. destruct flatten; reflexivity.
  - cbn [for_each]. rewrite (_add_point_curve _ _ _ _ _ Ht Hc), IH.
    cbn [map]. rewrite <- app_assoc. cbn [app].
    destruct flatten; [reflexivity |]. destruct cs; reflexivity.
Qed.

Lemma round_position (flatten : bool) (precision : Z) (c : coords) :
  position flatten c ->
  Seq (map (fun q => Num (py_round_ndigits q precision))
         (let p := xyz_of_position c in
          if negb flatten then [fst (fst p); snd (fst p); snd p]
          else [fst (fst p); snd (fst p)]))
  = round_coords precision c.
Proof. intros [x y -> | x y z ->]; reflexivity. Qed.

(** A curve built from one or more positions, and its points as the
    serializer reads them. *)
Lemma curve_roundtrip (flatten : bool) (precision : Z) (t : wkbGeometryType) (c : coords) :
  is_curve t = true -> line flatten c ->
  exists g,
    _add_points flatten (ogr_Geometry t) c = Ok g
    /\ gtype g = t
    /\ built flatten g
    /\ _get_points precision g = Ok (round_coords precision c).
Proof.
  intros Ht (ps & -> & Hne & Hps).
  eexists. split.
  { unfold _add_points, ogr_Geometry. cbn [iter mbind result_bind].
    apply (_add_points_curve flatten t ps Ht Hps). }
  cbn [app]. split; [reflexivity |]. split.
  - constructor; [| constructor]. destruct flatten; [reflexivity |].
    destruct ps; [contradiction | reflexivity].
  - unfold _get_points, GetPoints. cbn [points is3D].
    assert (Hflag : (if flatten then false else match ps with [] => false | _ => true end)
                    = negb flatten).
    { destruct flatten; [reflexivity |]. destruct ps; [contradiction | reflexivity]. }
    rewrite Hflag.
    destruct (map xyz_of_position ps) as [| q0 qs] eqn:Eq.
    { destruct ps; [contradiction | discriminate]. }
    rewrite <- Eq. clear Eq Hflag Hne. cbn [round_coords]. do 2 f_equal.
    induction Hps as [| c cs Hc _ IH]; [reflexivity |]. cbn [map].
    rewrite IH. f_equal. apply (round_position flatten precision c Hc).
Qed.

Lemma point_roundtrip (flatten : bool) (precision : Z) (c : coords) :
  position flatten c ->
  exists g,
    create_point flatten c = Ok g
    /\ gtype g = wkbPoint
    /\ built flatten g
    /\ convert_point precision g
       = Ok (Mapping "Point" (Some (round_coords precision c)) None).
Proof.
  intros [x y -> | x y z ->]; (eexists; split; [reflexivity |]);
    (split; [reflexivity |]); (split; [constructor; [| constructor]; try reflexivity |]);
    reflexivity.
Qed.

(** ** The builder on parts *)

Lemma built_parts (flatten : bool) (g : Geometry) :
  built flatten g -> Forall (built flatten) (parts g).
Proof. intros [t d ps gs _ H]. exact H. Qed.

Lemma built_flat (g : Geometry) : built true g -> is3D g = false.
Proof. intros [t d ps gs H _]. exact H. Qed.

Lemma Forall2_sim_refl (gs : list Geometry) : Forall2 sim gs gs.
Proof. induction gs; constructor; [apply sim_refl | assumption]. Qed.

Lemma Forall2_sim_set3D (gs : list Geometry) :
  Forall (built false) gs -> Forall2 sim gs (map (set3D true) gs).
Proof. induction 1; cbn [map]; constructor; [apply set3D_true_sim |]; assumption. Qed.

Lemma Forall_built_set3D (gs : list Geometry) : Forall (built false) (map (set3D true) gs).
Proof. induction gs; cbn [map]; constructor; [apply set3D_true_built | assumption]. Qed.

(** Adding an accepted part appends it; parent and part stay what the
    builder maintains, and the serializer cannot tell the stored parts
    from the ones that were added. *)
Lemma AddGeometry_parts (flatten : bool) (parent child : Geometry) :
  built flatten parent -> built flatten child ->
  accepts (gtype parent) (gtype child) = true -> points parent = [] ->
  exists (gs' : list Geometry) (child' : Geometry),
    parts (AddGeometry parent child) = (gs' ++ [child'])%list
    /\ Forall2 sim (parts parent) gs'
    /\ sim child child'
    /\ gtype (AddGeometry parent child) = gtype parent
    /\ points (AddGeometry parent child) = []
    /\ built flatten (AddGeometry parent child).
Proof.
  intros Hp Hc Hacc Hpts. unfold AddGeometry. rewrite Hacc.
  destruct parent as [t d ps gs]. cbn [points] in Hpts. subst ps.
  pose proof (built_parts _ _ Hp) as Hgs. cbn [parts] in Hgs.
  destruct flatten.
  - rewrite (built_flat _ Hc). pose proof (built_flat _ Hp) as Hd. cbn [is3D] in Hd. subst d.
    exists gs, child. cbn [parts gtype points].
    split_and!; try apply Forall2_sim_refl; try apply sim_refl; try reflexivity.
    constructor; [reflexivity |]. apply Forall_app. split; [assumption | constructor; auto].
  - destruct (is3D child) eqn:E3.
    + cbn [set3D]. exists (map (set3D true) gs), child. cbn [parts gtype points].
      split_and!; try apply sim_refl; try reflexivity; [apply Forall2_sim_set3D; assumption |].
      constructor; [auto |]. apply Forall_app.
      split; [apply Forall_built_set3D | constructor; auto].
    + exists gs, (if d then set3D true child else child). cbn [parts gtype points].
      split_and!; try apply Forall2_sim_refl; try reflexivity.
      * destruct d; [apply set3D_true_sim; assumption | apply sim_refl].
      * constructor; [intros H; contradiction |]. apply Forall_app. split; [assumption |].
        constructor; [| constructor]. destruct d; [apply set3D_true_built | assumption].
Qed.

Lemma comprehension_snoc {A B : Type} (f : A -> result B) (l : list A) (x : A)
  (ys : list B) (y : B) :
  comprehension f l = Ok ys -> f x = Ok y ->
  comprehension f (l ++ [x])%list = Ok (ys ++ [y])%list.
Proof.
  revert ys. induction l as [| a l IH]; intros ys Hl Hx.
  - cbn in Hl. injection Hl as <-. cbn. rewrite Hx. reflexivity.
  - cbn [comprehension app] in *. destruct (f a) as [b |]; [| discriminate].
    destruct (comprehension f l) as [bs |]; [| discriminate].
    injection Hl as <-. rewrite (IH bs eq_refl Hx). reflexivity.
Qed.

(** The loop that builds a container from its parts, and what the
    serializer then reads from the parts. *)
Lemma container_roundtrip {A B : Type} (flatten : bool) (mk : A -> result Geometry)
  (ser : Geometry -> result B) (out : A -> B) (t : wkbGeometryType) (cs : list A) :
  (forall g g', sim g g' -> ser g = ser g') ->
  Forall (fun c => exists g, mk c = Ok g /\ built flatten g
                             /\ accepts t (gtype g) = true /\ ser g = Ok (out c)) cs ->
  forall (acc : Geometry) (outs : list B),
    gtype acc = t -> points acc = [] -> built flatten acc ->
    comprehension ser (parts acc) = Ok outs ->
    exists G,
      for_each (fun acc c => g ← mk c; mret (AddGeometry acc g)) cs acc = Ok G
      /\ gtype G = t /\ points G = [] /\ built flatten G
      /\ comprehension ser (parts G) = Ok (outs ++ map out cs)%list.
Proof.
  intros Hser Hcs. induction Hcs as [| c cs (g & Hmk & Hb & Hacc & Hs) _ IH];
    intros acc outs Ht Hp Hbacc Hparts.
  - exists acc. cbn [for_each map]. rewrite app_nil_r. auto.
  - cbn [for_each]. rewrite Hmk. cbn [mbind result_bind mret result_ret].
    rewrite <- Ht in Hacc.
    destruct (AddGeometry_parts flatten acc g Hbacc Hb Hacc Hp)
      as (gs' & g' & Eparts & Hsim & Hsimg & Ht' & Hp' & Hb').
    destruct (IH (AddGeometry acc g) (outs ++ [out c])%list) as (G & EG & HG).
    + congruence.
    + exact Hp'.
    + exact Hb'.
    + rewrite Eparts. apply comprehension_snoc.
      * rewrite <- Hparts. symmetry. apply comprehension_ext.
        eapply Forall2_impl; [exact Hsim |]. exact Hser.
      * rewrite <- (Hser _ _ Hsimg). exact Hs.
    + exists G. split; [exact EG |]. cbn [map]. rewrite <- app_assoc in HG. exact HG.
Qed.

(** ** The round trip *)

Lemma polygon_roundtrip (flatten : bool) (precision : Z) (c : coords) :
  lines flatten c ->
  exists g,
    create_polygon flatten c = Ok g
    /\ gtype g = wkbPolygon /\ built flatten g
    /\ convert_polygon precision g
       = Ok (Mapping "Polygon" (Some (round_coords precision c)) None).
Proof.
  intros (ls & -> & Hls).
  destruct (container_roundtrip flatten (create_linearring flatten)
              (_get_points precision) (round_coords precision) wkbPolygon ls
              (_get_points_sim precision)) with (acc := ogr_Geometry wkbPolygon) (outs := @nil coords)
    as (G & EG & Ht & Hp & Hb & Hser); try reflexivity.
  - eapply Forall_impl; [exact Hls |]. intros c Hc.
    destruct (curve_roundtrip flatten precision wkbLinearRing c eq_refl Hc)
      as (g & Eg & Hg & Hbg & Hsg).
    exists g. rewrite Hg. auto.
  - constructor; [destruct flatten; [reflexivity | intros H; contradiction] | constructor].
  - exists G. split; [exact EG |]. split; [exact Ht |]. split; [exact Hb |].
    unfold convert_polygon. rewrite Hser. reflexivity.
Qed.

Lemma multilinestring_roundtrip (flatten : bool) (precision : Z) (c : coords) :
  lines flatten c ->
  exists g,
    create_multilinestring flatten c = Ok g
    /\ gtype g = wkbMultiLineString /\ built flatten g
    /\ convert_multilinestring precision g
       = Ok (Mapping "MultiLineString" (Some (round_coords precision c)) None).
Proof.
  intros (ls & -> & Hls).
  destruct (container_roundtrip flatten (create_linestring flatten)
              (_get_points precision) (round_coords precision) wkbMultiLineString ls
              (_get_points_sim precision)) with (acc := ogr_Geometry wkbMultiLineString)
                                                (outs := @nil coords)
    as (G & EG & Ht & Hp & Hb & Hser); try reflexivity.
  - eapply Forall_impl; [exact Hls |]. intros c Hc.
    destruct (curve_roundtrip flatten precision wkbLineString c eq_refl Hc)
      as (g & Eg & Hg & Hbg & Hsg).
    exists g. rewrite Hg. auto.
  - constructor; [destruct flatten; [reflexivity | intros H; contradiction] | constructor].
  - exists G. split; [exact EG |]. split; [exact Ht |]. split; [exact Hb |].
    unfold convert_multilinestring. rewrite Hser. reflexivity.
Qed.

Lemma multipolygon_roundtrip (flatten : bool) (precision : Z) (c : coords) :
  polygons flatten c ->
  exists g,
    create_multipolygon flatten c = Ok g
    /\ gtype g = wkbMultiPolygon /\ built flatten g
    /\ convert_multipolygon precision g
       = Ok (Mapping "MultiPolygon" (Some (round_coords precision c)) None).
Proof.
  intros (ps & -> & Hps).
  destruct (container_roundtrip flatten (create_polygon flatten)
              (fun sub_geom => d ← convert_polygon precision sub_geom; getitem_coordinates d)
              (round_coords precision) wkbMultiPolygon ps)
    with (acc := ogr_Geometry wkbMultiPolygon) (outs := @nil coords)
    as (G & EG & Ht & Hp & Hb & Hser); try reflexivity.
  - intros g g' H. cbv beta. rewrite (convert_polygon_sim _ _ _ H). reflexivity.
  - eapply Forall_impl; [exact Hps |]. intros c Hc.
    destruct (polygon_roundtrip flatten precision c Hc) as (g & Eg & Hg & Hbg & Hsg).
    exists g. rewrite Hg, Hsg. auto.
  - constructor; [destruct flatten; [reflexivity | intros H; contradiction] | constructor].
  - exists G. split; [exact EG |]. split; [exact Ht |]. split; [exact Hb |].
    unfold convert_multipolygon. rewrite Hser. reflexivity.
Qed.

Lemma create_geometrycollection_unfold (flatten : bool) (ms : list mapping) :
  create flatten (Mapping "GeometryCollection" None (Some ms))
  = for_each (fun collection m => g ← create flatten m; mret (AddGeometry collection g))
      ms (ogr_Geometry wkbGeometryCollection).
Proof.
  cbn [create lower lower_ascii]. 
  change (builder_getattr _) with (Some h_create_geometrycollection). cbv beta iota.
  generalize (ogr_Geometry wkbGeometryCollection).
  induction ms as [| m ms IH]; intros acc; [reflexivity |].
  cbn [for_each]. destruct (create flatten m) as [g |]; [| reflexivity].
  cbn [mbind result_bind mret result_ret]. apply IH.
Qed.

Lemma create_roundtrip (flatten : bool) (precision : Z) (m : mapping) :
  roundtrippable flatten m ->
  exists g,
    create flatten m = Ok g
    /\ built flatten g
    /\ accepts wkbGeometryCollection (gtype g) = true
    /\ convert precision g = Ok (round_mapping precision m).
Proof.
  induction m as [type_ coordinates | type_ coordinates ms IH] using mapping_ind';
    intros Hm; inversion Hm as [c Hc | c Hc | c Hc | c Hc | ms' Hms]; subst.
  - destruct (point_roundtrip flatten precision c Hc) as (g & Eg & Ht & Hb & Hs).
    exists g. rewrite convert_unfold, Ht. auto.
  - destruct (polygon_roundtrip flatten precision c Hc) as (g & Eg & Ht & Hb & Hs).
    exists g. rewrite convert_unfold, Ht. auto.
  - destruct (multilinestring_roundtrip flatten precision c Hc) as (g & Eg & Ht & Hb & Hs).
    exists g. rewrite convert_unfold, Ht. auto.
  - destruct (multipolygon_roundtrip flatten precision c Hc) as (g & Eg & Ht & Hb & Hs).
    exists g. rewrite convert_unfold, Ht. auto.
  - rewrite create_geometrycollection_unfold.
    destruct (container_roundtrip flatten (create flatten) (convert precision)
                (round_mapping precision) wkbGeometryCollection ms (convert_sim precision))
      with (acc := ogr_Geometry wkbGeometryCollection) (outs := @nil mapping)
      as (G & EG & Ht & Hp & Hb & Hser); try reflexivity.
    + apply Forall_forall. intros m Hin.
      rewrite Forall_forall in IH, Hms.
      destruct (IH m Hin (Hms m Hin)) as (g & Eg & Hbg & Hacc & Hs). eauto.
    + constructor; [destruct flatten; [reflexivity | intros H; contradiction] | constructor].
    + exists G. split; [exact EG |]. split; [exact Hb |]. rewrite Ht. split; [reflexivity |].
      rewrite convert_unfold, Ht, Hser. reflexivity.
Qed.

(** C1 (amended): for a mapping of type Point, Polygon, MultiPolygon,
    MultiLineString or GeometryCollection (of these), whose positions
    are 2D when the builder flattens and 3D when it does not,
    serializing the geometry built from the mapping returns the mapping
    with every coordinate rounded at the precision of the serializer. *)
Theorem serialize_build_roundtrip (flatten : bool) (precision : option Z) (g : mapping) :
  roundtrippable flatten g ->
  serialize_build flatten precision g
  = Ok (round_mapping (GeometryGeoJson_precision precision) g).
Proof.
  intros Hg. unfold serialize_build.
  destruct (create_roundtrip flatten (GeometryGeoJson_precision precision) g Hg)
    as (geometry & E & _ & _ & Hs).
  rewrite E. exact Hs.
Qed.

Lemma serialize_build_roundtrip_witness :
  serialize_build false (Some 2)
    (Mapping "Polygon"
       (Some (Seq [Seq [Seq [Num 0; Num 0; Num 5]; Seq [Num (31 # 7); Num 0; Num 5];
                        Seq [Num 0; Num 1; Num 5]; Seq [Num 0; Num 0; Num 5]]]))
       None)
  = Ok (round_mapping (GeometryGeoJson_precision (Some 2))
          (Mapping "Polygon"
             (Some (Seq [Seq [Seq [Num 0; Num 0; Num 5]; Seq [Num (31 # 7); Num 0; Num 5];
                              Seq [Num 0; Num 1; Num 5]; Seq [Num 0; Num 0; Num 5]]]))
             None)).
Proof.
  apply (serialize_build_roundtrip false (Some 2)).
  apply rt_polygon. eexists. split; [reflexivity |].
  repeat constructor. eexists. split; [reflexivity |].
  split; [discriminate |]. repeat constructor.
Defined.

Lemma _add_point_gtype (flatten : bool) (acc : Geometry) (p : coords) (g : Geometry) :
  _add_point flatten acc p = Ok g -> gtype g = gtype acc.
Proof.
  unfold _add_point. destruct (iter p) as [args |]; [| discriminate].
  cbn [mbind result_bind]. destruct acc as [t d qs gs]. destruct flatten.
  - unfold call_AddPoint_2D.
    destruct (take 2 args) as [| [x |] [| [y |] [|]]]; try discriminate.
    intros [= <-]. destruct t; reflexivity.
  - unfold call_AddPoint.
    destruct args as [| [x |] [| [y |] [| [z |] [|]]]]; try discriminate;
      intros [= <-]; destruct t; reflexivity.
Qed.

Lemma _add_points_gtype (flatten : bool) (c : coords) (acc g : Geometry) :
  _add_points flatten acc c = Ok g -> gtype g = gtype acc.
Proof.
  unfold _add_points. destruct (iter c) as [ps |]; [| discriminate].
  cbn [mbind result_bind]. revert acc.
  induction ps as [| p ps IH]; intros acc Hc.
  - cbn in Hc. congruence.
  - cbn [for_each] in Hc.
    destruct (_add_point flatten acc p) as [acc' |] eqn:E; [| discriminate].
    rewrite (IH acc' Hc). apply (_add_point_gtype _ _ _ _ E).
Qed.

(** The serializer has no handler for the LineString geometries the
    builder makes. *)
Lemma linestring_is_not_serialized (flatten : bool) (precision : option Z)
  (c : coords) (geometry : Geometry) :
  create flatten (Mapping "LineString" (Some c) None) = Ok geometry ->
  serialize_build flatten precision (Mapping "LineString" (Some c) None)
  = Raise (ValueError "linestring is not supported").
Proof.
  intros Hc. unfold serialize_build. rewrite Hc. cbn [mbind result_bind].
  change (create flatten (Mapping "LineString" (Some c) None))
    with (create_linestring flatten c) in Hc.
  apply _add_points_gtype in Hc. cbn [gtype ogr_Geometry] in Hc.
  rewrite convert_unfold, Hc. unfold GetGeometryName. rewrite Hc. reflexivity.
Qed.

(** C1 as stated fails twice: without flattening a 2D position comes
    back with a third coordinate 0, and a LineString is built but not
    serialized. *)
Lemma serialize_build_not_roundtrip :
  serialize_build false None (Mapping "Point" (Some (Seq [Num 1; Num 2])) None)
  = Ok (Mapping "Point"
          (Some (Seq [Num (py_round_ndigits 1 15); Num (py_round_ndigits 2 15);
                      Num (py_round_ndigits 0 15)]))
          None)
  /\ serialize_build false None (Mapping "Point" (Some (Seq [Num 1; Num 2])) None)
     <> Ok (round_mapping (GeometryGeoJson_precision None)
              (Mapping "Point" (Some (Seq [Num 1; Num 2])) None))
  /\ serialize_build false None
       (Mapping "LineString"
          (Some (Seq [Seq [Num 0; Num 0; Num 0]; Seq [Num 1; Num 1; Num 1]])) None)
     = Raise (ValueError "linestring is not supported").
Proof.
  split; [reflexivity |]. split; [| reflexivity].
  cbn. intros H. discriminate H.
Qed.

(** ** Compositing *)

Lemma composite_fold (inputs : list raster) (band row col : nat) :
  forall acc : nat -> nat -> nat -> Z,
    fold_left composite_over inputs acc band row col
    = default (acc band row col) (last_non_nodata inputs band row col).
Proof.
  unfold last_non_nodata.
  induction inputs as [| ds inputs IH]; intros acc; [reflexivity |].
  cbn [fold_left omap list_omap]. rewrite IH. unfold composite_over at 1.
  destruct (contribution ds band row col) as [v |]; [| reflexivity].
  rewrite last_cons. destruct (last _); reflexivity.
Qed.

Lemma contribution_nodata (ds : raster) (band row col : nat) (v : Z) :
  pixel ds band row col = Some v -> nodata ds band = Some v ->
  contribution ds band row col = None.
Proof. intros Hp Hn. unfold contribution. rewrite Hp, decide_True by exact Hn. reflexivity. Qed.

(** C2: in the merged output every pixel of every band holds the last
    non-nodata contribution of the inputs in compositing order (the fill
    value where there is none); so an auxiliary dataset that has its
    nodata value at a pixel leaves there what the inputs composited
    before and after it give. *)
Theorem warp_merge_last_non_nodata_wins
  (fill : nat -> Z) (primary : raster) (extra_ds : list raster) (band row col : nat) :
  warp_merge fill primary extra_ds band row col
  = default (fill band) (last_non_nodata (primary :: extra_ds) band row col)
  /\ (forall (before after : list raster) (later : raster) (v : Z),
        extra_ds = (before ++ later :: after)%list ->
        pixel later band row col = Some v -> nodata later band = Some v ->
        warp_merge fill primary extra_ds band row col
        = warp_merge fill primary (before ++ after)%list band row col).
Proof.
  split.
  - unfold warp_merge. apply composite_fold.
  - intros before after later v -> Hp Hn. unfold warp_merge.
    rewrite !composite_fold. f_equal. unfold last_non_nodata.
    cbn [omap list_omap]. destruct (contribution primary band row col).
    + f_equal. rewrite !omap_app. cbn [omap list_omap].
      rewrite (contribution_nodata _ _ _ _ _ Hp Hn). reflexivity.
    + rewrite !omap_app. cbn [omap list_omap].
      rewrite (contribution_nodata _ _ _ _ _ Hp Hn). reflexivity.
Qed.

Lemma warp_merge_last_non_nodata_wins_witness :
  warp_merge (fun _ => 255) raster_a [raster_b] 0 0 1
  = warp_merge (fun _ => 255) raster_a ([] ++ [])%list 0 0 1.
Proof.
  apply (proj2 (warp_merge_last_non_nodata_wins (fun _ => 255) raster_a [raster_b] 0 0 1)
           [] [] raster_b 255); reflexivity.
Defined.

Example warp_merge_row :
  map (warp_merge (fun _ => 255) raster_a [raster_b] 0 0) [0; 1; 2; 3]%nat = [1; 1; 3; 255].
Proof. reflexivity. Qed.

(** ** Running the stateful code *)

Lemma fresh_lookup_None {V} (m : gmap handle V) : m !! fresh (dom m) = None.
Proof. apply not_elem_of_dom. apply is_fresh. Qed.

Lemma bind_Ok {A B} (m : M A) (f : A -> M B) (w w1 : world) (a : A) :
  m w = (Ok a, w1) -> (m ≫= f) w = f a w1.
Proof. intros E. unfold mbind, M_bind. rewrite E. reflexivity. Qed.

Lemma bind_Raise {A B} (m : M A) (f : A -> M B) (w w1 : world) (e : exn) :
  m w = (Raise e, w1) -> (m ≫= f) w = (Raise e, w1).
Proof. intros E. unfold mbind, M_bind. rewrite E. reflexivity. Qed.

Lemma geom_get_Some (w : world) (h : handle) (g : Geometry) :
  geoms w !! h = Some g -> geom_get h w = (Ok g, w).
Proof. intros E. unfold geom_get. rewrite E. reflexivity. Qed.

Lemma to_geojson_run (w : world) (geometry : handle) (g : Geometry)
  (flatten : bool) (precision : option Z) :
  geoms w !! geometry = Some g ->
  to_geojson geometry flatten precision w
  = (convert (GeometryGeoJson_precision precision) (if flatten then FlattenTo2D g else g),
     if flatten
     then mkWorld (<[geometry := FlattenTo2D g]> (geoms w)) (refs w) (last_error_msg w)
     else w).
Proof.
  intros Hg. unfold to_geojson. destruct flatten.
  - erewrite bind_Ok.
    2:{ erewrite bind_Ok by (apply geom_get_Some; eassumption). reflexivity. }
    erewrite bind_Ok.
    2:{ apply geom_get_Some. cbn. apply lookup_insert_eq. }
    reflexivity.
  - erewrite bind_Ok by reflexivity.
    erewrite bind_Ok by (apply geom_get_Some; eassumption). reflexivity.
Qed.

Lemma srs_Clone_spec (w : world) (h : handle) (r : SpatialReference) :
  refs w !! h = Some r ->
  exists h',
    srs_Clone h w = (Ok h', mkWorld (geoms w) (<[h' := r]> (refs w)) (last_error_msg w))
    /\ refs w !! h' = None.
Proof.
  intros E. exists (fresh (dom (refs w))). split.
  - unfold srs_Clone. rewrite E. reflexivity.
  - apply fresh_lookup_None.
Qed.

Lemma geom_new_spec (w : world) (g : Geometry) :
  exists h',
    geom_new g w = (Ok h', mkWorld (<[h' := g]> (geoms w)) (refs w) (last_error_msg w))
    /\ geoms w !! h' = None.
Proof.
  exists (fresh (dom (geoms w))). split; [reflexivity | apply fresh_lookup_None].
Qed.

Lemma SetAxisMappingStrategy_Some (w : world) (h : handle) (r : SpatialReference)
  (s : AxisMappingStrategy) :
  refs w !! h = Some r ->
  SetAxisMappingStrategy h s w
  = (Ok tt, mkWorld (geoms w) (<[h := mkSpatialReference (definition r) s]> (refs w))
              (last_error_msg w)).
Proof. intros E. unfold SetAxisMappingStrategy. rewrite E. reflexivity. Qed.

Lemma srs_get_Some (w : world) (h : handle) (r : SpatialReference) :
  refs w !! h = Some r -> srs_get h w = (Ok r, w).
Proof. intros E. unfold srs_get. rewrite E. reflexivity. Qed.

Lemma CoordinateTransformation_spec (L : Library) (w : world) (src dst : handle)
  (s d : SpatialReference) :
  refs w !! src = Some s -> refs w !! dst = Some d ->
  CoordinateTransformation L src dst w
  = match lib_new_transformation L s d with
    | ct_built => (Ok (Some (s, d)), w)
    | ct_null diagnostic => (Ok None, mkWorld (geoms w) (refs w) diagnostic)
    | ct_raise e => (Raise e, w)
    end.
Proof.
  intros Hs Hd. unfold CoordinateTransformation.
  erewrite bind_Ok by (apply srs_get_Some; eassumption).
  erewrite bind_Ok by (apply srs_get_Some; eassumption).
  destruct (lib_new_transformation L s d); reflexivity.
Qed.

Lemma geom_Clone_spec (w : world) (h : handle) (g : Geometry) :
  geoms w !! h = Some g ->
  exists h',
    geom_Clone h w = (Ok h', mkWorld (<[h' := g]> (geoms w)) (refs w) (last_error_msg w))
    /\ geoms w !! h' = None.
Proof.
  intros E. destruct (geom_new_spec w g) as (h' & En & Hn). exists h'. split; [| exact Hn].
  unfold geom_Clone. erewrite bind_Ok by (apply geom_get_Some; eassumption). exact En.
Qed.

Lemma geom_Transform_built (L : Library) (w : world) (h : handle) (g : Geometry)
  (s d : SpatialReference) :
  geoms w !! h = Some g ->
  geom_Transform L h (Some (s, d)) w
  = (snd (lib_transform L s d g),
     mkWorld (<[h := fst (lib_transform L s d g)]> (geoms w)) (refs w) (last_error_msg w)).
Proof.
  intros E. unfold geom_Transform.
  erewrite bind_Ok by (apply geom_get_Some; eassumption).
  destruct (lib_transform L s d g) as [g' answer]. reflexivity.
Qed.

Ltac current_world k :=
  lazymatch goal with
  | |- context [@mbind M _ _ _ _ _ ?w1] => k w1
  end.

Ltac tidy := cbn [geoms refs last_error_msg definition axis_mapping_strategy] in *.

Lemma transform_by_srs_run (L : Library) (w : world)
  (geometry from_srs to_srs : handle) (g : Geometry) (f t : SpatialReference) :
  geoms w !! geometry = Some g ->
  refs w !! from_srs = Some f ->
  refs w !! to_srs = Some t ->
  exists (r : result handle) (w' : world),
    transform_by_srs L geometry from_srs to_srs w = (r, w')
    /\ geoms w' !! geometry = Some g
    /\ refs w' !! from_srs = Some f
    /\ refs w' !! to_srs = Some t
    /\ match lib_new_transformation L (traditional f) (traditional t) with
       | ct_built =>
           exists result_geometry,
             r = (_ ← snd (lib_transform L (traditional f) (traditional t) g);
                  Ok result_geometry)
             /\ geoms w !! result_geometry = None
             /\ geoms w' !! result_geometry
                = Some (fst (lib_transform L (traditional f) (traditional t) g))
       | ct_null diagnostic => r = Raise binding_null_error /\ last_error_msg w' = diagnostic
       | ct_raise e => r = Raise e
       end.
Proof.
  intros Hg Hf Ht. unfold transform_by_srs.
  destruct (srs_Clone_spec w from_srs f Hf) as (f' & E1 & Hf').
  erewrite bind_Ok by exact E1.
  erewrite bind_Ok by (apply SetAxisMappingStrategy_Some; cbn; apply lookup_insert_eq).
  tidy. rewrite insert_insert_eq.
  assert (Nf : from_srs <> f') by congruence.
  assert (Nt : to_srs <> f') by congruence.
  current_world ltac:(fun w1 => destruct (srs_Clone_spec w1 to_srs t) as (t' & E2 & Ht')).
  { tidy. rewrite lookup_insert_ne by congruence. exact Ht. }
  tidy.
  assert (Nft : f' <> t') by (intros ->; rewrite lookup_insert_eq in Ht'; discriminate).
  rewrite lookup_insert_ne in Ht' by congruence.
  assert (Nf2 : from_srs <> t') by congruence.
  assert (Nt2 : to_srs <> t') by congruence.
  erewrite bind_Ok by exact E2.
  erewrite bind_Ok by (apply SetAxisMappingStrategy_Some; cbn; apply lookup_insert_eq).
  tidy. rewrite insert_insert_eq.
  fold (traditional f) (traditional t).
  current_world ltac:(fun w1 =>
    pose proof (CoordinateTransformation_spec L w1 f' t' (traditional f) (traditional t)) as Ect).
  tidy. rewrite lookup_insert_ne, lookup_insert_eq in Ect by congruence.
  rewrite lookup_insert_eq in Ect. specialize (Ect eq_refl eq_refl).
  destruct (lib_new_transformation L (traditional f) (traditional t)) as [| diagnostic | e].
  - erewrite bind_Ok by exact Ect.
    current_world ltac:(fun w1 => destruct (geom_Clone_spec w1 geometry g Hg) as (c & E3 & Hc)).
    tidy. erewrite bind_Ok by exact E3.
    current_world ltac:(fun w1 =>
      pose proof (geom_Transform_built L w1 c g (traditional f) (traditional t)) as Etr).
    tidy. rewrite lookup_insert_eq, insert_insert_eq in Etr. specialize (Etr eq_refl).
    assert (geometry <> c) by congruence.
    destruct (snd (lib_transform L (traditional f) (traditional t) g)) as [code | e] eqn:Ea.
    + erewrite bind_Ok by exact Etr.
      eexists _, _. split; [reflexivity |]. tidy.
      rewrite !lookup_insert_ne by congruence.
      repeat split; try assumption. exists c.
      rewrite lookup_insert_eq. auto.
    + erewrite bind_Raise by exact Etr.
      eexists _, _. split; [reflexivity |]. tidy.
      rewrite !lookup_insert_ne by congruence.
      repeat split; try assumption. exists c.
      rewrite lookup_insert_eq. auto.
  - erewrite bind_Ok by exact Ect.
    current_world ltac:(fun w1 => destruct (geom_Clone_spec w1 geometry g Hg) as (c & E3 & Hc)).
    tidy. erewrite bind_Ok by exact E3.
    erewrite bind_Raise by reflexivity.
    eexists _, _. split; [reflexivity |]. tidy.
    assert (geometry <> c) by congruence.
    rewrite !lookup_insert_ne by congruence. auto.
  - erewrite bind_Raise by exact Ect.
    eexists _, _. split; [reflexivity |]. tidy.
    rewrite !lookup_insert_ne by congruence. auto.
Qed.

Lemma extends_refl w : extends w w.
Proof. intros k x H. exact H. Qed.

Lemma extends_trans w1 w2 w3 : extends w1 w2 -> extends w2 w3 -> extends w1 w3.
Proof. intros H1 H2 k x H. apply H2, H1, H. Qed.

Lemma extends_insert_fresh w h g :
  geoms w !! h = None ->
  extends w (mkWorld (<[h := g]> (geoms w)) (refs w) (last_error_msg w)).
Proof.
  intros Hn k x Hk. cbn. rewrite lookup_insert_ne; [exact Hk | congruence].
Qed.

Lemma extends_fresh w w' h : extends w w' -> geoms w' !! h = None -> geoms w !! h = None.
Proof.
  intros He Hn. destruct (geoms w !! h) as [x |] eqn:E; [| reflexivity].
  apply He in E. congruence.
Qed.

Lemma make_valid_step_unfold (L : Library) (acc : option handle) (m : Geometry) (w : world) :
  make_valid_step L acc m w
  = if is_polygonal m
    then method "Union" acc (fun u => geom_Union L u m) w
    else (Ok acc, w).
Proof.
  unfold make_valid_step, is_polygonal, GetGeometryName.
  destruct (gtype m); reflexivity.
Qed.

Lemma geom_Union_spec (L : Library) (w : world) (u : handle) (gu m : Geometry) :
  geoms w !! u = Some gu ->
  match lib_union L gu m with
  | Some x =>
      exists h',
        geom_Union L u m w
        = (Ok (Some h'), mkWorld (<[h' := x]> (geoms w)) (refs w) (last_error_msg w))
        /\ geoms w !! h' = None
  | None => geom_Union L u m w = (Ok None, w)
  end.
Proof.
  intros Hu. unfold geom_Union.
  destruct (lib_union L gu m) as [x |] eqn:E.
  - destruct (geom_new_spec w x) as (h' & En & Hn). exists h'. split; [| exact Hn].
    erewrite bind_Ok by (apply geom_get_Some; eassumption). rewrite E.
    erewrite bind_Ok by exact En. reflexivity.
  - erewrite bind_Ok by (apply geom_get_Some; eassumption). rewrite E. reflexivity.
Qed.

Lemma fold_union_step_None (L : Library) (ms : list Geometry) :
  fold_left (union_step L) ms None = None.
Proof.
  induction ms as [| m ms IH]; [reflexivity |].
  cbn [fold_left]. unfold union_step at 2. destruct (is_polygonal m); exact IH.
Qed.

Lemma make_valid_loop (L : Library) (w0 : world) (ms : list Geometry) :
  forall (w : world) (acc : option handle) (val : option Geometry),
    extends w0 w -> tracks w0 w acc val ->
    exists (r : result (option handle)) (w' : world),
      for_each_M (make_valid_step L) ms acc w = (r, w')
      /\ extends w w'
      /\ refs w' = refs w /\ last_error_msg w' = last_error_msg w
      /\ match r with
         | Ok acc' => tracks w0 w' acc' (fold_left (union_step L) ms val)
         | Raise e =>
             fold_left (union_step L) ms val = None
             /\ e = AttributeError "'NoneType' object has no attribute 'Union'"
         end.
Proof.
  induction ms as [| m ms IH]; intros w acc val Hext Htr.
  - exists (Ok acc), w. repeat split; try reflexivity; [apply extends_refl | exact Htr].
  - cbn [for_each_M fold_left]. unfold union_step at 2 4.
    pose proof (make_valid_step_unfold L acc m w) as Estep.
    destruct (is_polygonal m).
    + destruct acc as [u |], val as [gu |]; cbn in Htr; try contradiction.
      * destruct Htr as [Hu Hu0]. cbn [method] in Estep.
        pose proof (geom_Union_spec L w u gu m Hu) as Eun.
        cbn [mbind option_bind].
        destruct (lib_union L gu m) as [x |].
        -- destruct Eun as (h' & Eun & Hh'). rewrite Eun in Estep.
           erewrite bind_Ok by exact Estep.
           pose proof (extends_insert_fresh w h' x Hh') as Hext1.
           set (w1 := mkWorld (<[h' := x]> (geoms w)) (refs w) (last_error_msg w)) in *.
           destruct (IH w1 (Some h') (Some x)) as (r & w' & Er & He & Hr & Hl & Hpost).
           { eapply extends_trans; eassumption. }
           { cbn. rewrite lookup_insert_eq. split; [reflexivity |].
             eapply extends_fresh; eassumption. }
           exists r, w'. split; [exact Er |].
           split; [eapply extends_trans; eassumption |].
           rewrite Hr, Hl. auto.
        -- rewrite Eun in Estep. erewrite bind_Ok by exact Estep.
           destruct (IH w None None Hext I) as (r & w' & Er & He & Hr & Hl & Hpost).
           exists r, w'. auto.
      * cbn [method] in Estep. erewrite bind_Raise by exact Estep.
        exists (Raise (AttributeError "'NoneType' object has no attribute 'Union'")), w.
        repeat split; try reflexivity; [apply extends_refl |].
        cbn [mbind option_bind]. apply fold_union_step_None.
    + erewrite bind_Ok by exact Estep.
      destruct (IH w acc val Hext Htr) as (r & w' & Er & He & Hr & Hl & Hpost).
      exists r, w'. auto.
Qed.

Lemma gtype_close_polygon g : gtype (close_polygon g) = gtype g.
Proof. destruct g; reflexivity. Qed.

Lemma gtype_close_ring g : gtype (close_ring g) = gtype g.
Proof.
  destruct g as [t d ps gs]. unfold close_ring.
  destruct ps as [| p0 [| p1 ps]]; try reflexivity.
  destruct (last (p0 :: p1 :: ps)); [| reflexivity].
  destruct (xyz_eqb p0 x); reflexivity.
Qed.

Lemma gtype_CloseRings g : gtype (CloseRings g) = gtype g.
Proof.
  destruct g as [t d ps gs]. destruct t; try reflexivity.
  apply (gtype_close_ring (mkGeometry wkbLinearRing d ps gs)).
Qed.

Lemma name_is_collection g :
  String.eqb (GetGeometryName g) "GEOMETRYCOLLECTION"
  = bool_decide (gtype g = wkbGeometryCollection).
Proof. unfold GetGeometryName. destruct (gtype g); reflexivity. Qed.

Lemma name_is_multipolygon g :
  String.eqb (GetGeometryName g) "MULTIPOLYGON" = bool_decide (gtype g = wkbMultiPolygon).
Proof. unfold GetGeometryName. destruct (gtype g); reflexivity. Qed.

Lemma name_is_polygon g :
  String.eqb (GetGeometryName g) "POLYGON" = bool_decide (gtype g = wkbPolygon).
Proof. unfold GetGeometryName. destruct (gtype g); reflexivity. Qed.

Lemma geom_MakeValid_spec (L : Library) (w : world) (h : handle) (g : Geometry) :
  geoms w !! h = Some g ->
  match lib_make_valid L g with
  | inl v =>
      exists h',
        geom_MakeValid L h w
        = (Ok (Some h'), mkWorld (<[h' := v]> (geoms w)) (refs w) (last_error_msg w))
        /\ geoms w !! h' = None
  | inr diagnostic =>
      geom_MakeValid L h w = (Ok None, mkWorld (geoms w) (refs w) diagnostic)
  end.
Proof.
  intros Hh. unfold geom_MakeValid.
  destruct (lib_make_valid L g) as [v | diagnostic] eqn:E.
  - destruct (geom_new_spec w v) as (h' & En & Hn). exists h'. split; [| exact Hn].
    erewrite bind_Ok by (apply geom_get_Some; eassumption). rewrite E.
    erewrite bind_Ok by exact En. reflexivity.
  - erewrite bind_Ok by (apply geom_get_Some; eassumption). rewrite E. reflexivity.
Qed.

Lemma make_valid_run (L : Library) (w : world) (geometry : handle) (g : Geometry) :
  geoms w !! geometry = Some g ->
  exists (r : result (option handle)) (w' : world),
    make_valid L geometry w = (r, w')
    /\ geoms w' !! geometry = Some (CloseRings g)
    /\ match lib_make_valid L (CloseRings g) with
       | inr diagnostic => r = Raise (RuntimeError diagnostic)
       | inl valid =>
           if decide (gtype valid = wkbGeometryCollection) then
             let unioned :=
               fold_left (union_step L) (parts valid) (Some (ogr_Geometry (start_type g))) in
             match r with
             | Ok (Some v) =>
                 exists gu,
                   unioned = Some gu /\ geoms w !! v = None
                   /\ geoms w' !! v = Some (rewrap g gu)
             | Ok None => unioned = None /\ gtype g <> wkbMultiPolygon
             | Raise e => unioned = None /\ exists msg, e = AttributeError msg
             end
           else
             exists v, r = Ok (Some v) /\ geoms w !! v = None /\ geoms w' !! v = Some valid
       end.
Proof.
  intros Hg. unfold make_valid.
  erewrite bind_Ok by (apply geom_get_Some; eassumption).
  erewrite bind_Ok by reflexivity.
  set (w1 := mkWorld (<[geometry := CloseRings g]> (geoms w)) (refs w) (last_error_msg w)).
  assert (Hg1 : geoms w1 !! geometry = Some (CloseRings g)) by apply lookup_insert_eq.
  assert (Hw1 : forall k, geoms w1 !! k = None -> geoms w !! k = None).
  { intros k Hk. subst w1. cbn in Hk. destruct (decide (geometry = k)) as [-> |].
    - rewrite lookup_insert_eq in Hk. discriminate.
    - rewrite lookup_insert_ne in Hk by congruence. exact Hk. }
  pose proof (geom_MakeValid_spec L w1 geometry _ Hg1) as Emv.
  destruct (lib_make_valid L (CloseRings g)) as [valid | diagnostic].
  2:{ erewrite bind_Ok by exact Emv. cbv beta iota.
      erewrite bind_Ok by reflexivity.
      eexists _, _. split; [reflexivity |]. split; [exact Hg1 | reflexivity]. }
  destruct Emv as (v0 & Emv & Hv0).
  erewrite bind_Ok by exact Emv. cbv beta iota.
  set (w2 := mkWorld (<[v0 := valid]> (geoms w1)) (refs w1) (last_error_msg w1)).
  assert (Nv0 : geometry <> v0) by congruence.
  assert (Hg2 : geoms w2 !! geometry = Some (CloseRings g)).
  { subst w2. cbn [geoms]. rewrite lookup_insert_ne by congruence. exact Hg1. }
  assert (Hv2 : geoms w2 !! v0 = Some valid) by apply lookup_insert_eq.
  erewrite bind_Ok by (apply geom_get_Some; exact Hv2).
  rewrite name_is_collection.
  destruct (decide (gtype valid = wkbGeometryCollection)) as [Hc | Hc].
  2:{ rewrite bool_decide_eq_false_2 by assumption.
      eexists _, _. split; [reflexivity |]. split; [exact Hg2 |].
      exists v0. auto. }
  rewrite bool_decide_eq_true_2 by assumption.
  erewrite bind_Ok by (apply geom_get_Some; exact Hg2).
  rewrite name_is_multipolygon, gtype_CloseRings.
  destruct (geom_new_spec w2
              (ogr_Geometry (if bool_decide (gtype g = wkbMultiPolygon)
                             then wkbMultiPolygon else wkbPolygon)))
    as (u0 & Eu0 & Hu0).
  erewrite bind_Ok by exact Eu0.
  match type of Eu0 with _ = (_, ?w3') => set (w3 := w3') in * end.
  assert (Hext3 : extends w2 w3) by (apply extends_insert_fresh; exact Hu0).
  assert (Estart : (if bool_decide (gtype g = wkbMultiPolygon)
                    then wkbMultiPolygon else wkbPolygon) = start_type g).
  { unfold start_type. destruct (decide (gtype g = wkbMultiPolygon)).
    - rewrite bool_decide_eq_true_2 by assumption. reflexivity.
    - rewrite bool_decide_eq_false_2 by assumption. reflexivity. }
  destruct (make_valid_loop L w2 (parts valid) w3 (Some u0)
              (Some (ogr_Geometry (start_type g))) Hext3)
    as (r & w4 & Eloop & Hext4 & _ & _ & Hpost).
  { cbn. rewrite lookup_insert_eq, Estart. auto. }
  assert (Hg4 : geoms w4 !! geometry = Some (CloseRings g)) by (apply Hext4, Hext3, Hg2).
  destruct r as [acc | e].
  2:{ erewrite bind_Raise by exact Eloop.
      eexists _, _. split; [reflexivity |]. split; [exact Hg4 |].
      destruct Hpost as [Hnone ->]. cbn zeta. eauto. }
  erewrite bind_Ok by exact Eloop.
  erewrite bind_Ok by reflexivity.
  set (w5 := mkWorld (delete v0 (geoms w4)) (refs w4) (last_error_msg w4)).
  assert (Hg5 : geoms w5 !! geometry = Some (CloseRings g)).
  { subst w5. cbn [geoms]. rewrite lookup_delete_ne by congruence. exact Hg4. }
  cbn zeta.
  destruct acc as [u |]; destruct (fold_left (union_step L) (parts valid) _) as [gu |] eqn:Efold;
    unfold tracks in Hpost; try contradiction.
  2:{ destruct (decide (gtype g = wkbMultiPolygon)) as [Hm | Hm].
      - rewrite bool_decide_eq_true_2 by assumption.
        eexists _, _. split; [reflexivity |]. split; [exact Hg5 |]. eauto.
      - rewrite bool_decide_eq_false_2 by assumption.
        eexists _, _. split; [reflexivity |]. split; [exact Hg5 |]. auto. }
  destruct Hpost as [Hu4 Hu2].
  assert (Nu : v0 <> u) by congruence.
  assert (Hu5 : geoms w5 !! u = Some gu).
  { subst w5. cbn [geoms]. rewrite lookup_delete_ne by congruence. exact Hu4. }
  assert (Huw : geoms w !! u = None).
  { apply Hw1. subst w2. cbn [geoms] in Hu2.
    rewrite lookup_insert_ne in Hu2 by congruence. exact Hu2. }
  destruct (decide (gtype g = wkbMultiPolygon)) as [Hm | Hm].
  - rewrite bool_decide_eq_true_2 by assumption. cbn [method].
    erewrite bind_Ok by (apply geom_get_Some; exact Hu5).
    rewrite name_is_polygon.
    destruct (decide (gtype gu = wkbPolygon)) as [Hp | Hp].
    + rewrite bool_decide_eq_true_2 by assumption.
      destruct (geom_new_spec w5 (ogr_Geometry wkbMultiPolygon)) as (n & En & Hn).
      erewrite bind_Ok by exact En.
      erewrite bind_Ok by (apply geom_get_Some; cbn; apply lookup_insert_eq).
      erewrite bind_Ok by reflexivity.
      eexists _, _. split; [reflexivity |]. cbn [geoms].
      assert (Ngn : geometry <> n) by congruence.
      rewrite insert_insert_eq. rewrite lookup_insert_ne by congruence.
      split; [exact Hg5 |]. exists gu. split; [reflexivity |].
      rewrite lookup_insert_eq. unfold rewrap.
      rewrite decide_True by auto. split; [| reflexivity].
      apply Hw1. destruct (decide (v0 = n)) as [<- | Nn]; [exact Hv0 |].
      subst w5. cbn [geoms] in Hn. rewrite lookup_delete_ne in Hn by congruence.
      assert (Hn2 : geoms w2 !! n = None).
      { eapply extends_fresh; [eapply extends_trans; eassumption | exact Hn]. }
      subst w2. cbn [geoms] in Hn2. rewrite lookup_insert_ne in Hn2 by congruence.
      exact Hn2.
    + rewrite bool_decide_eq_false_2 by assumption.
      eexists _, _. split; [reflexivity |]. split; [exact Hg5 |].
      exists gu. unfold rewrap. rewrite decide_False by tauto. auto.
  - rewrite bool_decide_eq_false_2 by assumption.
    eexists _, _. split; [reflexivity |]. split; [exact Hg5 |].
    exists gu. unfold rewrap. rewrite decide_False by tauto. auto.
Qed.

(** ** Serializing an object *)

(** C9 (amended): [to_geojson] leaves the store as it is when [flatten]
    is off; when [flatten] is on (the default) it first flattens the
    caller's geometry object to 2D in place, and leaves every other
    object as it is. *)
Theorem to_geojson_effect_on_input (w : world) (geometry : handle) (g : Geometry)
  (flatten : bool) (precision : option Z) :
  geoms w !! geometry = Some g ->
  exists (r : result mapping) (w' : world),
    to_geojson geometry flatten precision w = (r, w')
    /\ r = convert (GeometryGeoJson_precision precision)
             (if flatten then FlattenTo2D g else g)
    /\ (flatten = false -> w' = w)
    /\ (flatten = true ->
        geoms w' !! geometry = Some (FlattenTo2D g)
        /\ (forall k, k <> geometry -> geoms w' !! k = geoms w !! k)
        /\ refs w' = refs w).
Proof.
  intros Hg. rewrite (to_geojson_run w geometry g flatten precision Hg).
  eexists _, _. split; [reflexivity |]. split; [reflexivity |].
  destruct flatten; split; try discriminate; intros _; [| reflexivity].
  cbn [geoms refs]. rewrite lookup_insert_eq. repeat split.
  intros k Hk. apply lookup_insert_ne. congruence.
Qed.

Lemma to_geojson_effect_on_input_witness :
  exists (r : result mapping) (w' : world),
    to_geojson 1%positive true None sample_world = (r, w')
    /\ r = convert (GeometryGeoJson_precision None) (FlattenTo2D point_3d)
    /\ (true = false -> w' = sample_world)
    /\ (true = true ->
        geoms w' !! 1%positive = Some (FlattenTo2D point_3d)
        /\ (forall k, k <> 1%positive -> geoms w' !! k = geoms sample_world !! k)
        /\ refs w' = refs sample_world).
Proof.
  apply (to_geojson_effect_on_input sample_world 1%positive point_3d true None).
  vm_compute. reflexivity.
Defined.

(** C9 as stated fails with [flatten] on: the 3D point behind the
    caller's handle is 2D after the call. *)
Lemma to_geojson_flattens_the_input_object :
  geoms sample_world !! 1%positive = Some point_3d
  /\ geoms (snd (to_geojson 1%positive true None sample_world)) !! 1%positive
     = Some (mkGeometry wkbPoint false [(1, 2, 0)%Q] [])
  /\ point_3d <> mkGeometry wkbPoint false [(1, 2, 0)%Q] [].
Proof. split; [| split]; [vm_compute; reflexivity .. | discriminate]. Qed.

(** ** Reprojecting an object *)

(** C8: [transform_by_srs] leaves the geometry and the two spatial
    references of the caller as they were, whether it returns or raises;
    what it returns is a new object, holding the input geometry
    transformed by the transformation built from copies of the two
    references with the traditional axis order forced on them.  Once the
    transformation is built, it returns unless [Transform] itself raises
    (bindings with exceptions enabled), and then that exception is passed
    on. *)
Theorem transform_by_srs_leaves_inputs_unchanged (L : Library) (w : world)
  (geometry from_srs to_srs : handle) (g : Geometry) (f t : SpatialReference) :
  geoms w !! geometry = Some g ->
  refs w !! from_srs = Some f ->
  refs w !! to_srs = Some t ->
  exists (r : result handle) (w' : world),
    transform_by_srs L geometry from_srs to_srs w = (r, w')
    /\ geoms w' !! geometry = Some g
    /\ refs w' !! from_srs = Some f
    /\ refs w' !! to_srs = Some t
    /\ (forall result_geometry,
          r = Ok result_geometry ->
          geoms w !! result_geometry = None
          /\ result_geometry <> geometry
          /\ lib_new_transformation L (traditional f) (traditional t) = ct_built
          /\ geoms w' !! result_geometry
             = Some (fst (lib_transform L (traditional f) (traditional t) g)))
    /\ (lib_new_transformation L (traditional f) (traditional t) = ct_built ->
        match snd (lib_transform L (traditional f) (traditional t) g) with
        | Ok _ => exists result_geometry, r = Ok result_geometry
        | Raise e => r = Raise e
        end).
Proof.
  intros Hg Hf Ht.
  destruct (transform_by_srs_run L w geometry from_srs to_srs g f t Hg Hf Ht)
    as (r & w' & E & Hg' & Hf' & Ht' & Hr).
  exists r, w'. repeat (split; [assumption |]).
  destruct (lib_new_transformation L (traditional f) (traditional t)) as [| d | e].
  - destruct Hr as (c & -> & Hc & Hc').
    destruct (snd (lib_transform L (traditional f) (traditional t) g)) as [code | e];
      cbn [mbind result_bind]; split.
    + intros c' [= <-]. repeat split; try assumption. congruence.
    + intros _. exists c. reflexivity.
    + intros c' [=].
    + intros _. reflexivity.
  - destruct Hr as [-> _]. split; [intros c [=] | discriminate].
  - subst r. split; [intros c [=] | discriminate].
Qed.

Lemma transform_by_srs_leaves_inputs_unchanged_witness :
  exists (r : result handle) (w' : world),
    transform_by_srs sample_library 1%positive 1%positive 2%positive sample_world = (r, w')
    /\ geoms w' !! 1%positive = Some point_3d
    /\ refs w' !! 1%positive = Some srs_4326
    /\ refs w' !! 2%positive = Some srs_3857
    /\ (forall result_geometry,
          r = Ok result_geometry ->
          geoms sample_world !! result_geometry = None
          /\ result_geometry <> 1%positive
          /\ lib_new_transformation sample_library (traditional srs_4326)
               (traditional srs_3857) = ct_built
          /\ geoms w' !! result_geometry
             = Some (fst (lib_transform sample_library (traditional srs_4326)
                            (traditional srs_3857) point_3d)))
    /\ (lib_new_transformation sample_library (traditional srs_4326)
          (traditional srs_3857) = ct_built ->
        match snd (lib_transform sample_library (traditional srs_4326)
                     (traditional srs_3857) point_3d) with
        | Ok _ => exists result_geometry, r = Ok result_geometry
        | Raise e => r = Raise e
        end).
Proof.
  apply (transform_by_srs_leaves_inputs_unchanged sample_library sample_world
           1%positive 1%positive 2%positive point_3d srs_4326 srs_3857);
    vm_compute; reflexivity.
Defined.

(** C7 (what the code does): when the library cannot build the
    transformation and hands back a null one, leaving its diagnostic in
    the last-error channel, [transform_by_srs] does not look at either:
    the failure surfaces as the [TypeError] of the binding on the null
    argument, and the diagnostic stays unread in the channel. *)
Theorem transform_by_srs_unbuilt_transformation (L : Library) (w : world)
  (geometry from_srs to_srs : handle) (g : Geometry) (f t : SpatialReference)
  (diagnostic : string) :
  geoms w !! geometry = Some g ->
  refs w !! from_srs = Some f ->
  refs w !! to_srs = Some t ->
  lib_new_transformation L (traditional f) (traditional t) = ct_null diagnostic ->
  exists w' : world,
    transform_by_srs L geometry from_srs to_srs w = (Raise binding_null_error, w')
    /\ last_error_msg w' = diagnostic.
Proof.
  intros Hg Hf Ht Hnull.
  destruct (transform_by_srs_run L w geometry from_srs to_srs g f t Hg Hf Ht)
    as (r & w' & E & _ & _ & _ & Hr).
  rewrite Hnull in Hr. destruct Hr as [-> Hd]. exists w'. auto.
Qed.

Lemma transform_by_srs_unbuilt_transformation_witness :
  exists w' : world,
    transform_by_srs sample_library 1%positive 3%positive 2%positive sample_world
    = (Raise binding_null_error, w')
    /\ last_error_msg w' = "No transform available for this pair of references".
Proof.
  apply (transform_by_srs_unbuilt_transformation sample_library sample_world
           1%positive 3%positive 2%positive point_3d srs_empty srs_3857);
    vm_compute; reflexivity.
Defined.

(** With a binding that raises on its own, the exception of the library
    is passed on as it is. *)
Lemma transform_by_srs_library_exception (L : Library) (w : world)
  (geometry from_srs to_srs : handle) (g : Geometry) (f t : SpatialReference) (e : exn) :
  geoms w !! geometry = Some g ->
  refs w !! from_srs = Some f ->
  refs w !! to_srs = Some t ->
  lib_new_transformation L (traditional f) (traditional t) = ct_raise e ->
  exists w' : world, transform_by_srs L geometry from_srs to_srs w = (Raise e, w').
Proof.
  intros Hg Hf Ht Hraise.
  destruct (transform_by_srs_run L w geometry from_srs to_srs g f t Hg Hf Ht)
    as (r & w' & E & _ & _ & _ & Hr).
  rewrite Hraise in Hr. subst r. exists w'. exact E.
Qed.

(** ** Repairing an object *)



Lemma Forall_map_all {A B : Type} (P : B -> Prop) (f : A -> B) (l : list A) :
  (forall x, P (f x)) -> Forall P (map f l).
Proof. intros H. induction l; constructor; auto. Qed.










Example make_valid_closes_the_open_square :
  points <$> (parts (CloseRings unit_square))
  = [[(0, 0, 0); (1, 0, 0); (1, 1, 0); (0, 1, 0); (0, 0, 0)]%Q].
Proof. reflexivity. Qed.

Lemma is_polygonal_spec (g : Geometry) : is_polygonal g = true <-> polygonal g.
Proof.
  unfold is_polygonal, polygonal. destruct (gtype g); split; intros H;
    try reflexivity; try discriminate; try (destruct H; discriminate); auto.
Qed.

Lemma gtype_AddGeometry (parent child : Geometry) :
  gtype (AddGeometry parent child) = gtype parent.
Proof.
  unfold AddGeometry. destruct (accepts _ _); [| reflexivity].
  destruct parent as [t d ps gs]. destruct (is3D child); reflexivity.
Qed.

(** The loop unions exactly the polygonal members, in order. *)
Lemma fold_union_step_filter (L : Library) (ms : list Geometry) :
  forall acc : option Geometry,
    fold_left (union_step L) ms acc
    = fold_left (fun acc m => a ← acc; lib_union L a m)
        (filter (fun m => is_polygonal m = true) ms) acc.
Proof.
  induction ms as [| m ms IH]; intros acc; [reflexivity |].
  cbn [fold_left]. rewrite IH. unfold union_step.
  destruct (is_polygonal m) eqn:E.
  - rewrite filter_cons_True by exact E. reflexivity.
  - rewrite filter_cons_False by (rewrite E; discriminate). reflexivity.
Qed.

Lemma union_all_polygonal (L : Library) (members : list Geometry) :
  (forall a b u, polygonal a -> polygonal b -> lib_union L a b = Some u -> polygonal u) ->
  Forall polygonal members ->
  forall start u, polygonal start -> union_all L start members = Some u -> polygonal u.
Proof.
  intros Hclosed Hms. unfold union_all.
  induction Hms as [| m ms Hm _ IH]; intros start u Hs Hu.
  - cbn in Hu. congruence.
  - cbn [fold_left mbind option_bind] in Hu.
    destruct (lib_union L start m) as [x |] eqn:Ex.
    + eapply IH; [| exact Hu]. exact (Hclosed _ _ _ Hs Hm Ex).
    + exfalso. clear -Hu. induction ms as [| m' ms IH']; [discriminate | auto].
Qed.

Lemma filter_polygonal_Forall (ms : list Geometry) :
  Forall polygonal (filter (fun m => is_polygonal m = true) ms).
Proof.
  apply Forall_forall. intros m Hm. apply list_elem_of_filter in Hm as [Hm _].
  apply is_polygonal_spec, Hm.
Qed.

Lemma polygonal_start (g : Geometry) : polygonal (ogr_Geometry (start_type g)).
Proof. unfold start_type, polygonal. destruct (decide _); cbn; auto. Qed.

Lemma unioned_members_fold (L : Library) (g valid : Geometry) :
  fold_left (union_step L) (parts valid) (Some (ogr_Geometry (start_type g)))
  = unioned_members L g valid.
Proof. rewrite fold_union_step_filter. reflexivity. Qed.

Lemma rewrap_type (g unioned : Geometry) :
  polygonal unioned ->
  polygonal (rewrap g unioned)
  /\ (gtype g = wkbMultiPolygon -> gtype (rewrap g unioned) = wkbMultiPolygon).
Proof.
  intros Hu. unfold rewrap.
  destruct (decide (gtype g = wkbMultiPolygon /\ gtype unioned = wkbPolygon)) as [[Hg Hp] | Hn].
  - split; [right |]; intros; apply gtype_AddGeometry.
  - split; [exact Hu |]. intros Hg. destruct Hu as [Hp | Hm]; [tauto | exact Hm].
Qed.

(** A single polygon that is re-wrapped becomes the only part of the
    multi-polygon. *)
Lemma rewrap_single (g unioned : Geometry) :
  gtype g = wkbMultiPolygon -> gtype unioned = wkbPolygon ->
  exists p, parts (rewrap g unioned) = [p] /\ gtype p = wkbPolygon.
Proof.
  intros Hg Hp. unfold rewrap. rewrite decide_True by auto.
  unfold AddGeometry, ogr_Geometry. cbn [gtype]. rewrite Hp. cbn [accepts].
  destruct unioned as [t d ps gs]. cbn [gtype] in Hp. subst t.
  destruct d; cbn; eauto.
Qed.

(** C3 (amended): a geometry returned by [make_valid] is never a
    GeometryCollection, provided the union of the library keeps
    polygonal geometries polygonal.  When the make-valid step yields a
    GeometryCollection, the result is the union of its Polygon and
    MultiPolygon members only, re-wrapped into a MultiPolygon when the
    input was one and the union is a single Polygon: it is polygonal,
    and a MultiPolygon for a MultiPolygon input.  When the make-valid
    step yields any other geometry, that geometry is returned as it is. *)
Theorem make_valid_result_type (L : Library) (w w' : world) (geometry v : handle)
  (g : Geometry) :
  geoms w !! geometry = Some g ->
  (forall a b u, polygonal a -> polygonal b -> lib_union L a b = Some u -> polygonal u) ->
  make_valid L geometry w = (Ok (Some v), w') ->
  exists valid out : Geometry,
    lib_make_valid L (CloseRings g) = inl valid
    /\ geoms w' !! v = Some out
    /\ gtype out <> wkbGeometryCollection
    /\ (gtype valid <> wkbGeometryCollection -> out = valid)
    /\ (gtype valid = wkbGeometryCollection ->
        exists unioned,
          unioned_members L g valid = Some unioned
          /\ out = rewrap g unioned
          /\ polygonal out
          /\ (gtype g = wkbMultiPolygon -> gtype out = wkbMultiPolygon)).
Proof.
  intros Hg Hclosed Hrun.
  destruct (make_valid_run L w geometry g Hg) as (r & w1 & E & _ & Hr).
  rewrite Hrun in E. injection E as <- <-.
  destruct (lib_make_valid L (CloseRings g)) as [valid | d]; [| discriminate].
  exists valid.
  destruct (decide (gtype valid = wkbGeometryCollection)) as [Hc | Hc].
  - destruct Hr as (gu & Hu & _ & Hv). rewrite unioned_members_fold in Hu.
    assert (Hpoly : polygonal gu).
    { eapply union_all_polygonal;
        [exact Hclosed | apply filter_polygonal_Forall | apply polygonal_start | exact Hu]. }
    destruct (rewrap_type g gu Hpoly) as [Hout Hmulti].
    exists (rewrap g gu). repeat split; try assumption; try reflexivity.
    + destruct Hout as [H | H]; rewrite H; discriminate.
    + intros Hn. contradiction.
    + intros _. exists gu. auto.
  - destruct Hr as (v' & [= <-] & _ & Hv).
    exists valid. repeat split; try assumption; try reflexivity.
    intros Hn. contradiction.
Qed.

Lemma sample_union_polygonal (a b u : Geometry) :
  polygonal a -> polygonal b -> lib_union sample_library a b = Some u -> polygonal u.
Proof.
  intros _ Hb. cbn [lib_union sample_library]. unfold polygonal in *.
  destruct (gtype b) eqn:Eb; try (destruct Hb; discriminate).
  - destruct (parts a); intros [= <-]; cbn; auto.
  - intros [= <-]. cbn. auto.
Qed.

Lemma make_valid_result_type_witness :
  exists valid out : Geometry,
    lib_make_valid splitting_library
      (CloseRings (mkGeometry wkbMultiPolygon false [] [unit_square])) = inl valid
    /\ geoms (snd (make_valid splitting_library 3%positive sample_world)) !! 8%positive
       = Some out
    /\ gtype out <> wkbGeometryCollection
    /\ (gtype valid <> wkbGeometryCollection -> out = valid)
    /\ (gtype valid = wkbGeometryCollection ->
        exists unioned,
          unioned_members splitting_library
            (mkGeometry wkbMultiPolygon false [] [unit_square]) valid = Some unioned
          /\ out = rewrap (mkGeometry wkbMultiPolygon false [] [unit_square]) unioned
          /\ polygonal out
          /\ (gtype (mkGeometry wkbMultiPolygon false [] [unit_square]) = wkbMultiPolygon ->
              gtype out = wkbMultiPolygon)).
Proof.
  apply (make_valid_result_type splitting_library sample_world
           (snd (make_valid splitting_library 3%positive sample_world)) 3%positive 8%positive).
  - vm_compute. reflexivity.
  - exact sample_union_polygonal.
  - vm_compute. reflexivity.
Defined.

(** C3 as stated fails when the make-valid step itself answers a single
    Polygon for a MultiPolygon input: the Polygon is returned as it is. *)
Lemma make_valid_multipolygon_input_polygon_result :
  exists (v : handle) (w' : world),
    make_valid merging_library 4%positive sample_world = (Ok (Some v), w')
    /\ gtype <$> geoms sample_world !! 4%positive = Some wkbMultiPolygon
    /\ gtype <$> geoms w' !! v = Some wkbPolygon.
Proof.
  exists 5%positive, (snd (make_valid merging_library 4%positive sample_world)).
  repeat split; vm_compute; reflexivity.
Qed.

(* ===================================================================== *)
(** * Part III: further properties of the module                         *)
(* ===================================================================== *)

(** ** More on the builder *)

(** [create] by handler, with the loop over the members of a collection
    as a [for_each]. *)
Lemma create_unfold (flatten : bool) (type_ : string) (coordinates : option coords)
  (geometries : option (list mapping)) :
  create flatten (Mapping type_ coordinates geometries)
  = match builder_getattr ("create_" ++ lower type_) with
    | None => Raise (ValueError (lower type_ ++ " is not supported"))
    | Some h_create_geometrycollection =>
        members ← required ("create_" ++ lower type_) "geometries" geometries;
        for_each (fun collection m => g ← create flatten m; mret (AddGeometry collection g))
          members (ogr_Geometry wkbGeometryCollection)
    | Some h =>
        c ← required ("create_" ++ lower type_) "coordinates" coordinates;
        match h with
        | h_create_polygon => create_polygon flatten c
        | h_create_linearring => create_linearring flatten c
        | h_create_linestring => create_linestring flatten c
        | h_create_multipolygon => create_multipolygon flatten c
        | h_create_point => create_point flatten c
        | h_create_multilinestring => create_multilinestring flatten c
        | h_create_geometrycollection => Raise (TypeError "unreachable")
        end
    end.
Proof.
  cbn [create]. destruct (builder_getattr _) as [[] |]; try reflexivity.
  destruct geometries as [ms |]; [| reflexivity].
  cbn [required mbind result_bind].
  generalize (ogr_Geometry wkbGeometryCollection).
  induction ms as [| m ms IH]; intros acc; [reflexivity |].
  cbn [for_each]. destruct (create flatten m) as [g |]; [| reflexivity].
  cbn [mbind result_bind mret result_ret]. apply IH.
Qed.

Lemma for_each_invariant {A B : Type} (I : B -> Prop) (body : B -> A -> result B)
  (xs : list A) :
  (forall acc x acc', In x xs -> I acc -> body acc x = Ok acc' -> I acc') ->
  forall acc out, I acc -> for_each body xs acc = Ok out -> I out.
Proof.
  induction xs as [| x xs IH]; intros Hbody acc out Hacc Hrun.
  - cbn in Hrun. congruence.
  - cbn [for_each] in Hrun. destruct (body acc x) as [acc' |] eqn:E; [| discriminate].
    apply (IH (fun a y a' Hy => Hbody a y a' (or_intror Hy)) acc' out); [| exact Hrun].
    apply (Hbody acc x acc'); [left; reflexivity | exact Hacc | exact E].
Qed.

(** Any property that holds of new geometries and that adding a point
    and adding a part keep, holds of whatever the builder returns. *)
Lemma create_invariant (flatten : bool) (I : Geometry -> Prop) :
  (forall t, I (ogr_Geometry t)) ->
  (forall acc p g, I acc -> _add_point flatten acc p = Ok g -> I g) ->
  (forall parent child, I parent -> I child -> I (AddGeometry parent child)) ->
  forall m g, create flatten m = Ok g -> I g.
Proof.
  intros Hnew Hpoint Hpart.
  assert (Hpoints : forall t c g, _add_points flatten (ogr_Geometry t) c = Ok g -> I g).
  { intros t c g. unfold _add_points. destruct (iter c) as [ps |]; [| discriminate].
    cbn [mbind result_bind]. apply for_each_invariant; [| apply Hnew].
    intros acc p acc' _ Hacc E. eapply Hpoint; eassumption. }
  assert (Hcontainer : forall (mk : coords -> result Geometry) t c g,
             (forall x y, mk x = Ok y -> I y) ->
             (rings ← iter c;
              for_each (fun acc x => y ← mk x; mret (AddGeometry acc y)) rings (ogr_Geometry t))
             = Ok g -> I g).
  { intros mk t c g Hmk. destruct (iter c) as [xs |]; [| discriminate].
    cbn [mbind result_bind]. apply for_each_invariant; [| apply Hnew].
    intros acc x acc' _ Hacc E. destruct (mk x) as [y |] eqn:Ey; [| discriminate].
    cbn in E. injection E as <-. apply Hpart; [exact Hacc | eapply Hmk; exact Ey]. }
  assert (Hpolygon : forall c g, create_polygon flatten c = Ok g -> I g).
  { intros c g. apply Hcontainer. intros x y. apply Hpoints. }
  induction m as [type_ coordinates | type_ coordinates ms IH] using mapping_ind';
    intros g; rewrite create_unfold;
    (destruct (builder_getattr _) as [h |]; [| discriminate]).
  - destruct h; cbn [required mbind result_bind]; try discriminate;
      (destruct coordinates as [c |]; [| discriminate]); cbn [required mbind result_bind].
    + apply Hpolygon.
    + apply Hpoints.
    + apply Hpoints.
    + apply Hcontainer. exact Hpolygon.
    + unfold create_point. apply Hpoint, Hnew.
    + apply Hcontainer. intros x y. apply Hpoints.
  - destruct h; cbn [required mbind result_bind];
      try (destruct coordinates as [c |]; [| discriminate]; cbn [required mbind result_bind]).
    + apply Hpolygon.
    + apply Hpoints.
    + apply Hpoints.
    + apply Hcontainer. exact Hpolygon.
    + unfold create_point. apply Hpoint, Hnew.
    + apply for_each_invariant; [| apply Hnew].
      intros acc m acc' Hin Hacc E. destruct (create flatten m) as [y |] eqn:Ey; [| discriminate].
      cbn in E. injection E as <-. apply Hpart; [exact Hacc |].
      rewrite Forall_forall in IH. apply (IH m); [apply list_elem_of_In; exact Hin | exact Ey].
    + apply Hcontainer. intros x y. apply Hpoints.
Qed.

Lemma flat_new (t : wkbGeometryType) : flat (ogr_Geometry t).
Proof. constructor; constructor. Qed.

Lemma flat_is3D (g : Geometry) : flat g -> is3D g = false.
Proof. intros [t ps gs _ _]. reflexivity. Qed.

Lemma _add_point_flat (acc : Geometry) (p : coords) (g : Geometry) :
  flat acc -> _add_point true acc p = Ok g -> flat g.
Proof.
  intros Hacc. unfold _add_point. destruct (iter p) as [args |]; [| discriminate].
  cbn [mbind result_bind]. unfold call_AddPoint_2D.
  destruct (take 2 args) as [| [x |] [| [y |] [|]]]; try discriminate.
  intros [= <-]. destruct Hacc as [t ps gs Hps Hgs].
  destruct t; cbn [AddPoint_2D]; try (constructor; assumption).
  - constructor; [| assumption]. constructor; [| constructor].
    destruct Hps as [| q qs Hq _]; [reflexivity | exact Hq].
  - constructor; [| assumption]. apply Forall_app. split; [assumption |].
    constructor; [reflexivity | constructor].
  - constructor; [| assumption]. apply Forall_app. split; [assumption |].
    constructor; [reflexivity | constructor].
Qed.

Lemma AddGeometry_flat (parent child : Geometry) :
  flat parent -> flat child -> flat (AddGeometry parent child).
Proof.
  intros Hp Hc. unfold AddGeometry. destruct (accepts _ _); [| exact Hp].
  rewrite (flat_is3D _ Hc). destruct Hp as [t ps gs Hps Hgs].
  constructor; [assumption |]. apply Forall_app. split; [assumption |].
  constructor; [exact Hc | constructor].
Qed.

Lemma create_flat (m : mapping) (g : Geometry) : create true m = Ok g -> flat g.
Proof.
  apply (create_invariant true flat); [apply flat_new | | apply AddGeometry_flat].
  intros acc p g' Hacc E. eapply _add_point_flat; eassumption.
Qed.

Lemma set3D_false_flat (g : Geometry) : flat g -> set3D false g = g.
Proof.
  induction g as [t d ps gs IH] using Geometry_ind'. intros Hf.
  inversion Hf as [t' ps' gs' Hps Hgs]; subst. cbn [set3D]. f_equal.
  - clear -Hps. induction Hps as [| [[x y] z] ps Hz _ IHps]; [reflexivity |].
    cbn [map fst snd] in *. subst z. rewrite IHps. reflexivity.
  - clear -IH Hgs. induction IH as [| a gs Ha _ IHgs]; [reflexivity |].
    cbn [map]. inversion Hgs; subst. rewrite Ha, IHgs by assumption. reflexivity.
Qed.

(** X6: whatever the mapping, a geometry the flattening builder returns
    is 2D all through (no node is 3D, every z is 0), so flattening it
    again changes nothing. *)
Theorem flattening_builder_builds_2d (m : mapping) (g : Geometry) :
  create true m = Ok g -> flat g /\ FlattenTo2D g = g.
Proof.
  intros H. pose proof (create_flat m g H) as Hf. split; [exact Hf |].
  apply set3D_false_flat, Hf.
Qed.

Lemma flattening_builder_builds_2d_witness :
  flat (mkGeometry wkbPoint false [(1, 2, 0)%Q] [])
  /\ FlattenTo2D (mkGeometry wkbPoint false [(1, 2, 0)%Q] [])
     = mkGeometry wkbPoint false [(1, 2, 0)%Q] [].
Proof.
  apply (flattening_builder_builds_2d
           (Mapping "Point" (Some (Seq [Num 1; Num 2; Num 3])) None)).
  reflexivity.
Defined.

Lemma world_eta (w : world) : mkWorld (geoms w) (refs w) (last_error_msg w) = w.
Proof. destruct w; reflexivity. Qed.

(** X7: [to_geojson] with [flatten] on leaves the store as it is when
    the object holds a geometry made by the flattening builder. *)
Theorem to_geojson_keeps_flat_objects (w : world) (geometry : handle) (m : mapping)
  (g : Geometry) (precision : option Z) :
  create true m = Ok g ->
  geoms w !! geometry = Some g ->
  to_geojson geometry true precision w
  = (convert (GeometryGeoJson_precision precision) g, w).
Proof.
  intros Hc Hg. rewrite (to_geojson_run w geometry g true precision Hg).
  pose proof (create_flat m g Hc) as Hf.
  unfold FlattenTo2D. rewrite (set3D_false_flat g Hf).
  rewrite (insert_id _ _ _ Hg), world_eta. reflexivity.
Qed.

Lemma to_geojson_keeps_flat_objects_witness :
  to_geojson 2%positive true None sample_world
  = (convert (GeometryGeoJson_precision None) unit_square, sample_world).
Proof.
  apply (to_geojson_keeps_flat_objects sample_world 2%positive
           (Mapping "Polygon"
              (Some (Seq [Seq [Seq [Num 0; Num 0]; Seq [Num 1; Num 0];
                               Seq [Num 1; Num 1]; Seq [Num 0; Num 1]]])) None));
    reflexivity.
Defined.

Lemma built_new (flatten : bool) (t : wkbGeometryType) : built flatten (ogr_Geometry t).
Proof.
  constructor; [| constructor]. destruct flatten; [reflexivity | intros H; contradiction].
Qed.

Lemma _add_point_built_3d (acc : Geometry) (p : coords) (g : Geometry) :
  built false acc -> _add_point false acc p = Ok g -> built false g.
Proof.
  intros Hacc. unfold _add_point. destruct (iter p) as [args |]; [| discriminate].
  cbn [mbind result_bind]. unfold call_AddPoint.
  destruct Hacc as [t d ps gs Hd Hgs].
  destruct args as [| [x |] [| [y |] [| [z |] [|]]]]; try discriminate;
    intros [= <-]; destruct t; cbn [AddPoint]; constructor; auto.
Qed.

Lemma AddGeometry_built_3d (parent child : Geometry) :
  built false parent -> built false child -> built false (AddGeometry parent child).
Proof.
  intros Hp Hc. unfold AddGeometry. destruct (accepts _ _); [| exact Hp].
  destruct (is3D child).
  - pose proof (set3D_true_built parent) as Hs.
    destruct Hs as [t d ps gs Hd Hgs].
    constructor; [exact Hd |]. apply Forall_app. split; [assumption | constructor; auto].
  - destruct Hp as [t d ps gs Hd Hgs]. constructor; [exact Hd |].
    apply Forall_app. split; [assumption |]. constructor; [| constructor].
    destruct d; [apply set3D_true_built | exact Hc].
Qed.

Lemma create_built_3d (m : mapping) (g : Geometry) : create false m = Ok g -> built false g.
Proof.
  apply (create_invariant false (built false));
    [apply built_new | | apply AddGeometry_built_3d].
  intros acc p g' Hacc E. eapply _add_point_built_3d; eassumption.
Qed.

(** X8: whatever the mapping, in a geometry the non-flattening builder
    returns every node that has points is 3D; its points are read as
    triples. *)
Theorem unflattening_builder_builds_3d (m : mapping) (g : Geometry) :
  create false m = Ok g ->
  built false g
  /\ (forall tuples, GetPoints g = Some tuples -> Forall (fun t => length t = 3%nat) tuples).
Proof.
  intros H. pose proof (create_built_3d m g H) as Hb. split; [exact Hb |].
  intros tuples. unfold GetPoints. destruct Hb as [t d ps gs Hd _]. cbn [points is3D].
  destruct ps as [| p ps]; [discriminate |]. rewrite Hd by discriminate.
  intros [= <-].
  constructor; [reflexivity |]. apply Forall_map_all. reflexivity.
Qed.

Lemma unflattening_builder_builds_3d_witness :
  built false (mkGeometry wkbPoint true [(1, 2, 0)%Q] [])
  /\ (forall tuples,
        GetPoints (mkGeometry wkbPoint true [(1, 2, 0)%Q] []) = Some tuples ->
        Forall (fun t => length t = 3%nat) tuples).
Proof.
  apply (unflattening_builder_builds_3d (Mapping "Point" (Some (Seq [Num 1; Num 2])) None)).
  reflexivity.
Defined.

(** X9: a Point position of fewer than two components is refused with
    a [TypeError] by both builders, one of more than three by the
    non-flattening builder; the flattening builder takes the first two
    numbers and ignores whatever follows them. *)
Theorem point_position_arity (gs : option (list mapping)) :
  (forall flatten args,
      (length args < 2)%nat ->
      exists msg, create flatten (Mapping "Point" (Some (Seq args)) gs) = Raise (TypeError msg))
  /\ (forall args,
        (3 < length args)%nat ->
        exists msg, create false (Mapping "Point" (Some (Seq args)) gs) = Raise (TypeError msg))
  /\ (forall x y rest,
        create true (Mapping "Point" (Some (Seq (Num x :: Num y :: rest))) gs)
        = Ok (mkGeometry wkbPoint false [(x, y, 0%Q)] [])).
Proof.
  split; [| split].
  - intros flatten args Hlen.
    change (create flatten (Mapping "Point" (Some (Seq args)) gs))
      with (create_point flatten (Seq args)).
    destruct args as [| a [| b args]]; cbn in Hlen; try lia;
      destruct flatten; cbn; try destruct a; eauto.
  - intros args Hlen.
    change (create false (Mapping "Point" (Some (Seq args)) gs))
      with (create_point false (Seq args)).
    destruct args as [| a [| b [| c [| d args]]]]; cbn in Hlen; try lia.
    cbn. destruct a, b, c; eauto.
  - reflexivity.
Qed.

Lemma point_position_arity_witness :
  exists msg,
    create true (Mapping "Point" (Some (Seq [Num 1])) None) = Raise (TypeError msg).
Proof.
  apply (proj1 (point_position_arity None) true [Num 1]). cbn. lia.
Defined.

Lemma builder_getattr_Some (t : string) :
  In t builder_types ->
  exists h, builder_getattr ("create_" ++ t) = Some h
            /\ (h = h_create_geometrycollection <-> t = "geometrycollection").
Proof.
  intros H. cbn in H.
  repeat (destruct H as [<- | H]; [eexists; split; [reflexivity | split; discriminate || reflexivity] |]).
  contradiction.
Qed.

(** X10: for a type tag the builder handles, a mapping without
    ["coordinates"] (without ["geometries"] for a geometry collection)
    raises a [TypeError], whatever its text. *)
Theorem missing_member_raises (flatten : bool) (type_ : string) :
  In (lower type_) builder_types ->
  (lower type_ <> "geometrycollection" ->
   forall geometries,
   exists msg, create flatten (Mapping type_ None geometries) = Raise (TypeError msg))
  /\ (lower type_ = "geometrycollection" ->
      forall coordinates,
      exists msg, create flatten (Mapping type_ coordinates None) = Raise (TypeError msg)).
Proof.
  intros Hin. destruct (builder_getattr_Some _ Hin) as (h & Eh & Hh). split.
  - intros Hne geometries. rewrite create_unfold, Eh.
    destruct h; try (eexists; reflexivity). exfalso. apply Hne, Hh. reflexivity.
  - intros He coordinates. rewrite create_unfold, Eh.
    apply Hh in He. subst h. eexists. reflexivity.
Qed.

Lemma missing_member_raises_witness :
  exists msg, create true (Mapping "Polygon" None None) = Raise (TypeError msg).
Proof.
  apply (proj1 (missing_member_raises true "Polygon" ltac:(cbn; tauto))). discriminate.
Defined.

Lemma for_each_app {A B : Type} (body : B -> A -> result B) (xs ys : list A) (acc : B) :
  for_each body (xs ++ ys)%list acc = (acc' ← for_each body xs acc; for_each body ys acc').
Proof.
  revert acc. induction xs as [| x xs IH]; intros acc; [reflexivity |].
  cbn [app for_each]. destruct (body acc x) as [acc' |]; [apply IH | reflexivity].
Qed.

Lemma for_each_total {A B : Type} (body : B -> A -> result B) (xs : list A) :
  (forall acc, Forall (fun x => exists acc', body acc x = Ok acc') xs) ->
  forall acc, exists out, for_each body xs acc = Ok out.
Proof.
  induction xs as [| x xs IH]; intros H acc; [eexists; reflexivity |].
  cbn [for_each]. pose proof (H acc) as Hacc. inversion Hacc as [| ? ? (acc' & E) _]; subst.
  rewrite E. apply IH. intros a. specialize (H a). inversion H; assumption.
Qed.

(** X11: building a geometry collection raises the exception of its
    first member that does not build, whatever follows it. *)
Theorem collection_build_stops_at_first_failure (flatten : bool) (type_ : string)
  (coordinates : option coords) (before after : list mapping) (bad : mapping) (e : exn) :
  lower type_ = "geometrycollection" ->
  Forall (fun m => exists g, create flatten m = Ok g) before ->
  create flatten bad = Raise e ->
  create flatten (Mapping type_ coordinates (Some (before ++ bad :: after)%list)) = Raise e.
Proof.
  intros Ht Hbefore Hbad. rewrite create_unfold, Ht.
  change (builder_getattr _) with (Some h_create_geometrycollection).
  cbn [required mbind result_bind]. rewrite for_each_app.
  destruct (for_each_total
              (fun collection m => g ← create flatten m; mret (AddGeometry collection g))
              before) with (acc := ogr_Geometry wkbGeometryCollection) as [acc E].
  { intros acc. eapply Forall_impl; [exact Hbefore |].
    intros m [g Eg]. cbv beta. rewrite Eg. eexists. reflexivity. }
  rewrite E. cbn [mbind result_bind for_each]. rewrite Hbad. reflexivity.
Qed.

Lemma collection_build_stops_at_first_failure_witness :
  create true
    (Mapping "GeometryCollection" None
       (Some ([Mapping "Point" (Some (Seq [Num 1; Num 2])) None]
              ++ Mapping "Circle" (Some (Seq [Num 0; Num 0])) None
                 :: [Mapping "Point" (Some (Seq [Num 3; Num 4])) None])%list))
  = Raise (ValueError "circle is not supported").
Proof.
  apply (collection_build_stops_at_first_failure true "GeometryCollection" None).
  - reflexivity.
  - constructor; [eexists; reflexivity | constructor].
  - reflexivity.
Defined.

Lemma comprehension_app_raise {A B : Type} (f : A -> result B) (xs ys : list A) (x : A)
  (e : exn) :
  Forall (fun a => exists b, f a = Ok b) xs -> f x = Raise e ->
  comprehension f (xs ++ x :: ys)%list = Raise e.
Proof.
  intros Hxs Hx. induction Hxs as [| a xs [b Eb] _ IH].
  - cbn. rewrite Hx. reflexivity.
  - cbn [app comprehension]. rewrite Eb, IH. reflexivity.
Qed.

(** X12: serializing a geometry collection raises the exception of
    its first member that does not serialize (a LineString, for one),
    whatever follows it. *)
Theorem collection_serialization_stops_at_first_failure (precision : Z) (d : bool)
  (ps : list xyz) (before after : list Geometry) (bad : Geometry) (e : exn) :
  Forall (fun m => exists out, convert precision m = Ok out) before ->
  convert precision bad = Raise e ->
  convert precision (mkGeometry wkbGeometryCollection d ps (before ++ bad :: after)%list)
  = Raise e.
Proof.
  intros Hbefore Hbad. rewrite convert_unfold. cbn [gtype parts].
  rewrite (comprehension_app_raise _ _ _ _ _ Hbefore Hbad). reflexivity.
Qed.

Lemma collection_serialization_stops_at_first_failure_witness :
  convert 15
    (mkGeometry wkbGeometryCollection false []
       ([mkGeometry wkbPoint false [(1, 2, 0)%Q] []]
        ++ mkGeometry wkbLineString false [(0, 0, 0); (1, 1, 0)]%Q [] :: [unit_square])%list)
  = Raise (ValueError "linestring is not supported").
Proof.
  apply (collection_serialization_stops_at_first_failure 15 false []).
  - constructor; [eexists; reflexivity | constructor].
  - reflexivity.
Defined.

(** ** More on the round trip *)

Lemma py_round_ndigits_idempotent (x : Q) (ndigits : Z) :
  py_round_ndigits (py_round_ndigits x ndigits) ndigits = py_round_ndigits x ndigits.
Proof.
  unfold py_round_ndigits. do 2 f_equal.
  set (k := py_round (x * Qpower (10 # 1) ndigits)).
  assert (Hp : ~ Qpower (10 # 1) ndigits == 0) by (apply Qpower_not_0; discriminate).
  rewrite (py_round_comp _ (inject_Z k)) by (field; exact Hp).
  apply py_round_inject_Z.
Qed.

Lemma coords_ind' (P : coords -> Prop) :
  (forall q, P (Num q)) -> (forall items, Forall P items -> P (Seq items)) ->
  forall c, P c.
Proof.
  intros Hn Hs. fix IH 1. intros [q | items]; [apply Hn |].
  apply Hs. induction items as [| c items IHitems]; constructor; [apply IH | exact IHitems].
Qed.

Lemma round_coords_idempotent (precision : Z) (c : coords) :
  round_coords precision (round_coords precision c) = round_coords precision c.
Proof.
  induction c as [q | items IH] using coords_ind'; cbn [round_coords].
  - rewrite py_round_ndigits_idempotent. reflexivity.
  - f_equal. induction IH as [| c items Hc _ IHitems]; [reflexivity |].
    cbn [map]. rewrite Hc, IHitems. reflexivity.
Qed.

Lemma round_mapping_idempotent (precision : Z) (m : mapping) :
  round_mapping precision (round_mapping precision m) = round_mapping precision m.
Proof.
  induction m as [type_ coordinates | type_ coordinates ms IH] using mapping_ind';
    cbn [round_mapping]; (destruct coordinates as [c |];
                          [rewrite round_coords_idempotent |]); try reflexivity.
  - do 2 f_equal. induction IH as [| m ms Hm _ IHms]; [reflexivity |].
    cbn [map]. rewrite Hm, IHms. reflexivity.
  - do 2 f_equal. induction IH as [| m ms Hm _ IHms]; [reflexivity |].
    cbn [map]. rewrite Hm, IHms. reflexivity.
Qed.

Lemma round_position_is_position (flatten : bool) (precision : Z) (c : coords) :
  position flatten c -> position flatten (round_coords precision c).
Proof. intros [x y H | x y z H]; cbn; constructor; exact H. Qed.

Lemma round_line (flatten : bool) (precision : Z) (c : coords) :
  line flatten c -> line flatten (round_coords precision c).
Proof.
  intros (ps & -> & Hne & Hps). exists (map (round_coords precision) ps).
  split; [reflexivity |]. split; [destruct ps; [contradiction | discriminate] |].
  clear Hne. induction Hps; cbn [map]; [constructor |]. constructor; [apply round_position_is_position |]; assumption.
Qed.

Lemma round_lines (flatten : bool) (precision : Z) (c : coords) :
  lines flatten c -> lines flatten (round_coords precision c).
Proof.
  intros (ls & -> & Hls). exists (map (round_coords precision) ls). split; [reflexivity |].
  induction Hls; cbn [map]; [constructor |]. constructor; [apply round_line |]; assumption.
Qed.

Lemma round_polygons (flatten : bool) (precision : Z) (c : coords) :
  polygons flatten c -> polygons flatten (round_coords precision c).
Proof.
  intros (ps & -> & Hps). exists (map (round_coords precision) ps). split; [reflexivity |].
  induction Hps; cbn [map]; [constructor |]. constructor; [apply round_lines |]; assumption.
Qed.

Lemma round_roundtrippable (flatten : bool) (precision : Z) (m : mapping) :
  roundtrippable flatten m -> roundtrippable flatten (round_mapping precision m).
Proof.
  induction m as [type_ coordinates | type_ coordinates ms IH] using mapping_ind';
    intros Hm; inversion Hm as [c Hc | c Hc | c Hc | c Hc | ms' Hms]; subst;
    cbn [round_mapping].
  - apply rt_point, round_position_is_position, Hc.
  - apply rt_polygon, round_lines, Hc.
  - apply rt_multilinestring, round_lines, Hc.
  - apply rt_multipolygon, round_polygons, Hc.
  - apply rt_geometrycollection.
    induction IH as [| m ms Hm' _ IHms]; cbn [map]; [constructor |].
    inversion Hms; subst. constructor; [apply Hm'; assumption |].
    apply IHms; [constructor |]; assumption.
Qed.

(** X13: the mapping a round trip returns is a fixed point of the
    round trip: building and serializing it again returns it
    unchanged. *)
Theorem serialize_build_is_stable (flatten : bool) (precision : option Z) (g : mapping) :
  roundtrippable flatten g ->
  serialize_build flatten precision (round_mapping (GeometryGeoJson_precision precision) g)
  = Ok (round_mapping (GeometryGeoJson_precision precision) g).
Proof.
  intros Hg. set (p := GeometryGeoJson_precision precision).
  pose proof (round_roundtrippable flatten p g Hg) as Hr.
  destruct (create_roundtrip flatten p _ Hr) as (geometry & E & _ & _ & Hs).
  unfold serialize_build. fold p. rewrite E. cbn [mbind result_bind].
  rewrite Hs, round_mapping_idempotent. reflexivity.
Qed.

Lemma serialize_build_is_stable_witness :
  serialize_build true (Some 2)
    (round_mapping (GeometryGeoJson_precision (Some 2))
       (Mapping "Point" (Some (Seq [Num (31 # 7); Num (22 # 7)])) None))
  = Ok (round_mapping (GeometryGeoJson_precision (Some 2))
          (Mapping "Point" (Some (Seq [Num (31 # 7); Num (22 # 7)])) None)).
Proof.
  apply (serialize_build_is_stable true (Some 2)).
  apply rt_point. constructor. reflexivity.
Defined.

(** X14: the builder reads the type tag without regard to case; the
    serializer answers with the canonical tag, so the round trip of a
    mapping tagged ["POINT"] returns the rounded mapping tagged
    ["Point"]. *)
Theorem type_tag_is_case_insensitive (flatten : bool) (precision : option Z)
  (type_ canonical : string) (coordinates : option coords)
  (geometries : option (list mapping)) :
  lower type_ = lower canonical ->
  create flatten (Mapping type_ coordinates geometries)
  = create flatten (Mapping canonical coordinates geometries)
  /\ (roundtrippable flatten (Mapping canonical coordinates geometries) ->
      serialize_build flatten precision (Mapping type_ coordinates geometries)
      = Ok (round_mapping (GeometryGeoJson_precision precision)
              (Mapping canonical coordinates geometries))).
Proof.
  intros Ht.
  assert (E : create flatten (Mapping type_ coordinates geometries)
              = create flatten (Mapping canonical coordinates geometries))
    by (rewrite !create_unfold, Ht; reflexivity).
  split; [exact E |]. intros Hr. unfold serialize_build. rewrite E.
  destruct (create_roundtrip flatten (GeometryGeoJson_precision precision) _ Hr)
    as (geometry & Eg & _ & _ & Hs).
  rewrite Eg. exact Hs.
Qed.

Lemma type_tag_is_case_insensitive_witness :
  create true (Mapping "POINT" (Some (Seq [Num 1; Num 2])) None)
  = create true (Mapping "Point" (Some (Seq [Num 1; Num 2])) None)
  /\ (roundtrippable true (Mapping "Point" (Some (Seq [Num 1; Num 2])) None) ->
      serialize_build true None (Mapping "POINT" (Some (Seq [Num 1; Num 2])) None)
      = Ok (round_mapping (GeometryGeoJson_precision None)
              (Mapping "Point" (Some (Seq [Num 1; Num 2])) None))).
Proof.
  apply (type_tag_is_case_insensitive true None "POINT" "Point"). reflexivity.
Defined.

(** ** More on repairing *)



(** X16: when the make-valid step yields a collection and the union of
    its polygonal members fails, [make_valid] returns no geometry: it
    returns [None] (for an input that is not a MultiPolygon) or raises
    [AttributeError]. *)
Theorem make_valid_failed_union (L : Library) (w : world) (geometry : handle)
  (g valid : Geometry) :
  geoms w !! geometry = Some g ->
  lib_make_valid L (CloseRings g) = inl valid ->
  gtype valid = wkbGeometryCollection ->
  unioned_members L g valid = None ->
  exists (r : result (option handle)) (w' : world),
    make_valid L geometry w = (r, w')
    /\ ((r = Ok None /\ gtype g <> wkbMultiPolygon)
        \/ exists msg, r = Raise (AttributeError msg)).
Proof.
  intros Hg Hmv Hc Hu.
  destruct (make_valid_run L w geometry g Hg) as (r & w' & E & _ & Hr).
  exists r, w'. split; [exact E |].
  rewrite Hmv in Hr. rewrite decide_True in Hr by exact Hc. cbn zeta in Hr.
  rewrite unioned_members_fold, Hu in Hr.
  destruct r as [[v |] | e].
  - destruct Hr as (gu & Hgu & _). discriminate.
  - left. split; [reflexivity | apply Hr].
  - right. destruct Hr as (_ & msg & ->). exists msg. reflexivity.
Qed.

Lemma make_valid_failed_union_witness :
  exists (r : result (option handle)) (w' : world),
    make_valid failing_union_library 2%positive sample_world = (r, w')
    /\ ((r = Ok None /\ gtype unit_square <> wkbMultiPolygon)
        \/ exists msg, r = Raise (AttributeError msg)).
Proof.
  apply (make_valid_failed_union failing_union_library sample_world 2%positive unit_square
           (mkGeometry wkbGeometryCollection false []
              [CloseRings unit_square;
               mkGeometry wkbLineString false [(0, 0, 0); (1, 1, 0)]%Q []]));
    reflexivity.
Defined.

Example make_valid_returns_None :
  fst (make_valid failing_union_library 2%positive sample_world) = Ok None.
Proof. vm_compute. reflexivity. Qed.

(** ** More on reprojecting *)

(** Every geometry and every reference of [w] is in [w'] with the same
    value. *)
Lemma transform_by_srs_frame_run (L : Library) (w : world)
  (geometry from_srs to_srs : handle) (g : Geometry) (f t : SpatialReference) :
  geoms w !! geometry = Some g ->
  refs w !! from_srs = Some f ->
  refs w !! to_srs = Some t ->
  exists (r : result handle) (w' : world),
    transform_by_srs L geometry from_srs to_srs w = (r, w')
    /\ (forall k x, geoms w !! k = Some x -> geoms w' !! k = Some x)
    /\ (forall k x, refs w !! k = Some x -> refs w' !! k = Some x).
Proof.
  intros Hg Hf Ht. unfold transform_by_srs.
  destruct (srs_Clone_spec w from_srs f Hf) as (f' & E1 & Hf').
  erewrite bind_Ok by exact E1.
  erewrite bind_Ok by (apply SetAxisMappingStrategy_Some; cbn; apply lookup_insert_eq).
  tidy. rewrite insert_insert_eq.
  current_world ltac:(fun w1 => destruct (srs_Clone_spec w1 to_srs t) as (t' & E2 & Ht')).
  { tidy. rewrite lookup_insert_ne by congruence. exact Ht. }
  tidy.
  assert (Nft : f' <> t') by (intros ->; rewrite lookup_insert_eq in Ht'; discriminate).
  rewrite lookup_insert_ne in Ht' by congruence.
  erewrite bind_Ok by exact E2.
  erewrite bind_Ok by (apply SetAxisMappingStrategy_Some; cbn; apply lookup_insert_eq).
  tidy. rewrite insert_insert_eq.
  fold (traditional f) (traditional t).
  assert (Hrefs : forall k x, refs w !! k = Some x ->
                              <[t' := traditional t]> (<[f' := traditional f]> (refs w)) !! k
                              = Some x).
  { intros k x Hk. rewrite !lookup_insert_ne by congruence. exact Hk. }
  current_world ltac:(fun w1 =>
    pose proof (CoordinateTransformation_spec L w1 f' t' (traditional f) (traditional t)) as Ect).
  tidy. rewrite lookup_insert_ne, lookup_insert_eq in Ect by congruence.
  rewrite lookup_insert_eq in Ect. specialize (Ect eq_refl eq_refl).
  destruct (lib_new_transformation L (traditional f) (traditional t)) as [| diagnostic | e].
  - erewrite bind_Ok by exact Ect.
    current_world ltac:(fun w1 => destruct (geom_Clone_spec w1 geometry g Hg) as (c & E3 & Hc)).
    tidy. erewrite bind_Ok by exact E3.
    current_world ltac:(fun w1 =>
      pose proof (geom_Transform_built L w1 c g (traditional f) (traditional t)) as Etr).
    tidy. rewrite lookup_insert_eq, insert_insert_eq in Etr. specialize (Etr eq_refl).
    destruct (snd (lib_transform L (traditional f) (traditional t) g)) as [code | e] eqn:Ea.
    + erewrite bind_Ok by exact Etr.
      eexists _, _. split; [reflexivity |]. tidy. split_and!.
      * intros k x Hk. rewrite lookup_insert_ne by congruence. exact Hk.
      * exact Hrefs.
    + erewrite bind_Raise by exact Etr.
      eexists _, _. split; [reflexivity |]. tidy. split_and!.
      * intros k x Hk. rewrite lookup_insert_ne by congruence. exact Hk.
      * exact Hrefs.
  - erewrite bind_Ok by exact Ect.
    current_world ltac:(fun w1 => destruct (geom_Clone_spec w1 geometry g Hg) as (c & E3 & Hc)).
    tidy. erewrite bind_Ok by exact E3.
    erewrite bind_Raise by reflexivity.
    eexists _, _. split; [reflexivity |]. tidy. split_and!.
    + intros k x Hk. rewrite lookup_insert_ne by congruence. exact Hk.
    + exact Hrefs.
  - erewrite bind_Raise by exact Ect.
    eexists _, _. split; [reflexivity |]. tidy. split_and!.
    + auto.
    + exact Hrefs.
Qed.

(** X17: [transform_by_srs] changes no object that existed before the
    call, geometry or spatial reference, whether it succeeds or
    raises. *)
Theorem transform_by_srs_changes_no_object (L : Library) (w : world)
  (geometry from_srs to_srs : handle) (g : Geometry) (f t : SpatialReference) :
  geoms w !! geometry = Some g ->
  refs w !! from_srs = Some f ->
  refs w !! to_srs = Some t ->
  exists (r : result handle) (w' : world),
    transform_by_srs L geometry from_srs to_srs w = (r, w')
    /\ (forall k x, geoms w !! k = Some x -> geoms w' !! k = Some x)
    /\ (forall k x, refs w !! k = Some x -> refs w' !! k = Some x).
Proof.
  intros Hg Hf Ht.
  destruct (transform_by_srs_frame_run L w geometry from_srs to_srs g f t Hg Hf Ht)
    as (r & w' & E & Hgeoms & Hrefs).
  exists r, w'. auto.
Qed.

Lemma transform_by_srs_changes_no_object_witness :
  exists (r : result handle) (w' : world),
    transform_by_srs sample_library 2%positive 1%positive 2%positive sample_world = (r, w')
    /\ (forall k x, geoms sample_world !! k = Some x -> geoms w' !! k = Some x)
    /\ (forall k x, refs sample_world !! k = Some x -> refs w' !! k = Some x).
Proof.
  apply (transform_by_srs_changes_no_object sample_library sample_world
           2%positive 1%positive 2%positive unit_square srs_4326 srs_3857);
    reflexivity.
Defined.

(** X18: once the transformation is built, [transform_by_srs] returns
    normally whatever error code [Transform] answers, and the result
    holds the geometry as the library left it; when [Transform] raises
    instead (bindings with exceptions enabled), the exception is passed
    on. *)
Theorem transform_by_srs_ignores_the_error_code (L : Library) (w : world)
  (geometry from_srs to_srs : handle) (g g' : Geometry) (f t : SpatialReference)
  (answer : result Z) :
  geoms w !! geometry = Some g ->
  refs w !! from_srs = Some f ->
  refs w !! to_srs = Some t ->
  lib_new_transformation L (traditional f) (traditional t) = ct_built ->
  lib_transform L (traditional f) (traditional t) g = (g', answer) ->
  match answer with
  | Ok err =>
      exists (result_geometry : handle) (w' : world),
        transform_by_srs L geometry from_srs to_srs w = (Ok result_geometry, w')
        /\ geoms w' !! result_geometry = Some g'
  | Raise e =>
      exists w' : world, transform_by_srs L geometry from_srs to_srs w = (Raise e, w')
  end.
Proof.
  intros Hg Hf Ht Hb Htr.
  destruct (transform_by_srs_run L w geometry from_srs to_srs g f t Hg Hf Ht)
    as (r & w' & E & _ & _ & _ & Hr).
  rewrite Hb in Hr. destruct Hr as (c & -> & _ & Hc). rewrite Htr in Hc, E.
  cbn [fst snd] in *. destruct answer as [err | e]; cbn [mbind result_bind] in E.
  - exists c, w'. split; [exact E | exact Hc].
  - exists w'. exact E.
Qed.

Lemma transform_by_srs_ignores_the_error_code_witness :
  (exists (result_geometry : handle) (w' : world),
      transform_by_srs failing_transform_library 1%positive 1%positive 2%positive sample_world
      = (Ok result_geometry, w')
      /\ geoms w' !! result_geometry = Some point_3d)
  /\ (exists w' : world,
        transform_by_srs raising_transform_library 1%positive 1%positive 2%positive
          sample_world
        = (Raise (RuntimeError "OGR Error: General Error"), w')).
Proof.
  split.
  - apply (transform_by_srs_ignores_the_error_code failing_transform_library sample_world
             1%positive 1%positive 2%positive point_3d point_3d srs_4326 srs_3857 (Ok 6));
      reflexivity.
  - apply (transform_by_srs_ignores_the_error_code raising_transform_library sample_world
             1%positive 1%positive 2%positive point_3d point_3d srs_4326 srs_3857
             (Raise (RuntimeError "OGR Error: General Error")));
      reflexivity.
Defined.

(** ** More on serializing an object *)

Lemma set3D_false_is_flat (g : Geometry) : flat (set3D false g).
Proof.
  induction g as [t d ps gs IH] using Geometry_ind'. cbn [set3D]. constructor.
  - clear. induction ps as [| p ps IHps]; cbn [map]; constructor; [reflexivity | exact IHps].
  - induction IH as [| a gs Ha _ IHgs]; cbn [map]; constructor; assumption.
Qed.

(** X19: a second call of [to_geojson] on the same object returns the
    same answer and changes nothing. *)
Theorem to_geojson_twice (w : world) (geometry : handle) (g : Geometry)
  (flatten : bool) (precision : option Z) :
  geoms w !! geometry = Some g ->
  exists (r : result mapping) (w' : world),
    to_geojson geometry flatten precision w = (r, w')
    /\ to_geojson geometry flatten precision w' = (r, w').
Proof.
  intros Hg. rewrite (to_geojson_run w geometry g flatten precision Hg).
  eexists _, _. split; [reflexivity |]. destruct flatten.
  - rewrite (to_geojson_run _ geometry (FlattenTo2D g) true precision)
      by (cbn; apply lookup_insert_eq).
    unfold FlattenTo2D. rewrite (set3D_false_flat _ (set3D_false_is_flat g)).
    cbn [geoms refs last_error_msg]. rewrite insert_insert_eq. reflexivity.
  - apply (to_geojson_run w geometry g false precision Hg).
Qed.

Lemma to_geojson_twice_witness :
  exists (r : result mapping) (w' : world),
    to_geojson 1%positive true None sample_world = (r, w')
    /\ to_geojson 1%positive true None w' = (r, w').
Proof.
  apply (to_geojson_twice sample_world 1%positive point_3d true None). reflexivity.
Defined.


(** ** EPSG codes *)

Lemma srs_from_epsg_spec (registry : epsg_registry) (epsg : Z) (w : world) :
  exists h,
    srs_from_epsg registry epsg w
    = (match import_raises registry epsg with Some e => Raise e | None => Ok h end,
       mkWorld (geoms w) (<[h := imported registry epsg]> (refs w))
         (match registry epsg with
          | epsg_failed diagnostic => diagnostic
          | _ => last_error_msg w
          end))
    /\ refs w !! h = None.
Proof.
  exists (fresh (dom (refs w))). split; [| apply fresh_lookup_None].
  unfold srs_from_epsg. erewrite bind_Ok by reflexivity.
  unfold ImportFromEPSG, imported, import_raises, mbind, M_bind. cbn [refs geoms last_error_msg].
  rewrite lookup_insert_eq. destruct (registry epsg) as [text | diagnostic | e].
  - cbn [axis_mapping_strategy geoms refs last_error_msg]. rewrite insert_insert_eq. reflexivity.
  - reflexivity.
  - reflexivity.
Qed.

Lemma transform_run (L : Library) (registry : epsg_registry) (w : world)
  (geometry : handle) (g : Geometry) (from_epsg to_epsg : Z) :
  geoms w !! geometry = Some g ->
  exists (r : result handle) (w' : world),
    transform L registry geometry from_epsg to_epsg w = (r, w')
    /\ geoms w' !! geometry = Some g
    /\ (forall k x, geoms w !! k = Some x -> geoms w' !! k = Some x)
    /\ (forall k x, refs w !! k = Some x -> refs w' !! k = Some x)
    /\ match import_raises registry from_epsg, import_raises registry to_epsg with
       | Some e, _ => r = Raise e
       | None, Some e => r = Raise e
       | None, None =>
           exists result_geometry,
             r = transform_outcome L (imported registry from_epsg) (imported registry to_epsg)
                   g result_geometry
             /\ (forall c, r = Ok c ->
                   geoms w !! c = None
                   /\ geoms w' !! c
                      = Some (fst (lib_transform L (traditional (imported registry from_epsg))
                                     (traditional (imported registry to_epsg)) g)))
       end.
Proof.
  intros Hg. unfold transform.
  destruct (srs_from_epsg_spec registry from_epsg w) as (f & Ef & Hf).
  destruct (import_raises registry from_epsg) as [e |].
  { erewrite bind_Raise by exact Ef. eexists _, _. split; [reflexivity |]. tidy.
    split_and!; auto.
    intros k x Hk. rewrite lookup_insert_ne by congruence. exact Hk. }
  erewrite bind_Ok by exact Ef.
  current_world ltac:(fun w1 =>
    destruct (srs_from_epsg_spec registry to_epsg w1) as (t & Et & Ht)).
  tidy.
  assert (Nft : f <> t) by (intros ->; rewrite lookup_insert_eq in Ht; discriminate).
  rewrite lookup_insert_ne in Ht by congruence.
  destruct (import_raises registry to_epsg) as [e |].
  { erewrite bind_Raise by exact Et. eexists _, _. split; [reflexivity |]. tidy.
    split_and!; auto.
    intros k x Hk. rewrite !lookup_insert_ne by congruence. exact Hk. }
  erewrite bind_Ok by exact Et.
  match goal with |- context [transform_by_srs L geometry f t ?w2] =>
    destruct (transform_by_srs_run L w2 geometry f t g (imported registry from_epsg)
                (imported registry to_epsg)) as (r & w' & E & Hg' & _ & _ & Hr);
    [exact Hg
    | cbn; rewrite lookup_insert_ne by congruence; apply lookup_insert_eq
    | cbn; apply lookup_insert_eq
    | destruct (transform_by_srs_frame_run L w2 geometry f t g
                  (imported registry from_epsg) (imported registry to_epsg))
        as (r2 & w2' & E2 & Hgeoms & Hrefs);
      [exact Hg
      | cbn; rewrite lookup_insert_ne by congruence; apply lookup_insert_eq
      | cbn; apply lookup_insert_eq |] ]
  end.
  rewrite E in E2. injection E2 as <- <-.
  exists r, w'. split; [exact E |]. split; [exact Hg' |]. tidy.
  split; [exact Hgeoms |]. split.
  - intros k x Hk. apply Hrefs. rewrite !lookup_insert_ne by congruence. exact Hk.
  - unfold transform_outcome.
    destruct (lib_new_transformation L _ _) as [| d | e].
    + destruct Hr as (c & -> & Hc & Hc'). exists c. split; [reflexivity |].
      destruct (snd (lib_transform L _ _ g)) as [code | e]; cbn [mbind result_bind].
      * intros c' [= <-]. auto.
      * intros c' [=].
    + destruct Hr as [-> _]. exists 1%positive. split; [reflexivity | intros c [=]].
    + subst r. exists 1%positive. split; [reflexivity | intros c [=]].
Qed.

(** X20: [transform] leaves the geometry and every existing reference
    as they were, whether it returns or raises.  When [ImportFromEPSG]
    raises for one of the two codes (bindings with exceptions enabled),
    that exception is passed on.  Otherwise an unknown code raises
    nothing by itself, it stands for an empty reference: a copy of the
    geometry is transformed by the transformation between the
    references of the two codes, in traditional axis order, and what
    comes out is the new object or the exception of the library. *)
Theorem transform_of_epsg_codes (L : Library) (registry : epsg_registry) (w : world)
  (geometry : handle) (g : Geometry) (from_epsg to_epsg : Z) :
  geoms w !! geometry = Some g ->
  exists (r : result handle) (w' : world),
    transform L registry geometry from_epsg to_epsg w = (r, w')
    /\ geoms w' !! geometry = Some g
    /\ (forall k x, refs w !! k = Some x -> refs w' !! k = Some x)
    /\ match import_raises registry from_epsg, import_raises registry to_epsg with
       | Some e, _ => r = Raise e
       | None, Some e => r = Raise e
       | None, None =>
           exists result_geometry,
             r = transform_outcome L (imported registry from_epsg) (imported registry to_epsg)
                   g result_geometry
             /\ (forall c, r = Ok c ->
                   geoms w !! c = None
                   /\ geoms w' !! c
                      = Some (fst (lib_transform L (traditional (imported registry from_epsg))
                                     (traditional (imported registry to_epsg)) g)))
       end.
Proof.
  intros Hg.
  destruct (transform_run L registry w geometry g from_epsg to_epsg Hg)
    as (r & w' & E & Hg' & _ & Hrefs & Hr).
  exists r, w'. auto.
Qed.

Lemma transform_of_epsg_codes_witness :
  (exists (r : result handle) (w' : world),
      transform sample_library sample_registry 1%positive 4326 9999 sample_world = (r, w')
      /\ geoms w' !! 1%positive = Some point_3d
      /\ (forall k x, refs sample_world !! k = Some x -> refs w' !! k = Some x)
      /\ r = Raise binding_null_error)
  /\ (exists (r : result handle) (w' : world),
        transform sample_library raising_registry 1%positive 4326 9999 sample_world = (r, w')
        /\ geoms w' !! 1%positive = Some point_3d
        /\ (forall k x, refs sample_world !! k = Some x -> refs w' !! k = Some x)
        /\ r = Raise (RuntimeError "EPSG PCS/GCS code not found")).
Proof.
  split.
  - destruct (transform_of_epsg_codes sample_library sample_registry sample_world
                1%positive point_3d 4326 9999 eq_refl) as (r & w' & E & Hg & Hrefs & Hr).
    exists r, w'. split_and!; try assumption.
    destruct Hr as (c & -> & _). reflexivity.
  - destruct (transform_of_epsg_codes sample_library raising_registry sample_world
                1%positive point_3d 4326 9999 eq_refl) as (r & w' & E & Hg & Hrefs & Hr).
    exists r, w'. split_and!; assumption.
Defined.

(** X21: [transform_geojson] raises the exception of the builder,
    leaving the store as it is, when the mapping does not build;
    otherwise it changes no existing object, passes on the exception
    [ImportFromEPSG] raises for one of the codes if it does, and else
    returns the serialization (without a second flattening) of the
    built geometry transformed between the references of the two
    codes, or raises the exception of the library. *)
Theorem transform_geojson_outcome (L : Library) (registry : epsg_registry) (w : world)
  (geometry : mapping) (from_epsg to_epsg : Z) (flatten : bool) (precision : option Z) :
  match create flatten geometry with
  | Raise e =>
      transform_geojson L registry geometry from_epsg to_epsg flatten precision w
      = (Raise e, w)
  | Ok built_ =>
      exists (r : result mapping) (w' : world),
        transform_geojson L registry geometry from_epsg to_epsg flatten precision w = (r, w')
        /\ (forall k x, geoms w !! k = Some x -> geoms w' !! k = Some x)
        /\ (forall k x, refs w !! k = Some x -> refs w' !! k = Some x)
        /\ match import_raises registry from_epsg, import_raises registry to_epsg with
           | Some e, _ => r = Raise e
           | None, Some e => r = Raise e
           | None, None =>
               r = (_ ← transform_outcome L (imported registry from_epsg)
                          (imported registry to_epsg) built_ 1%positive;
                    convert (GeometryGeoJson_precision precision)
                      (fst (lib_transform L (traditional (imported registry from_epsg))
                              (traditional (imported registry to_epsg)) built_)))
           end
  end.
Proof.
  unfold transform_geojson. destruct (create flatten geometry) as [built_ | e].
  2:{ reflexivity. }
  erewrite bind_Ok by reflexivity.
  destruct (geom_new_spec w built_) as (h & En & Hn).
  erewrite bind_Ok by exact En.
  match type of En with _ = (_, ?w1') => set (w1 := w1') in * end.
  assert (Hh : geoms w1 !! h = Some built_) by apply lookup_insert_eq.
  destruct (transform_run L registry w1 h built_ from_epsg to_epsg Hh)
    as (r & w2 & E & _ & Hgeoms & Hrefs & Hr).
  assert (Hgeoms' : forall k x, geoms w !! k = Some x -> geoms w2 !! k = Some x).
  { intros k x Hk. apply Hgeoms. subst w1. cbn. rewrite lookup_insert_ne by congruence.
    exact Hk. }
  destruct (import_raises registry from_epsg) as [e |].
  { subst r. erewrite bind_Raise by exact E. eexists _, _. split; [reflexivity |]. auto. }
  destruct (import_raises registry to_epsg) as [e |].
  { subst r. erewrite bind_Raise by exact E. eexists _, _. split; [reflexivity |]. auto. }
  destruct Hr as (c & Er & Hc). unfold transform_outcome in *.
  destruct (lib_new_transformation L _ _) as [| d | e].
  - destruct (snd (lib_transform L _ _ built_)) as [code | e]; cbn [mbind result_bind] in *.
    + destruct (Hc c Er) as [_ Hc']. subst r. erewrite bind_Ok by exact E.
      rewrite (to_geojson_run w2 c _ false precision Hc').
      eexists _, _. split; [reflexivity |]. auto.
    + subst r. erewrite bind_Raise by exact E. eexists _, _. split; [reflexivity |]. auto.
  - subst r. erewrite bind_Raise by exact E. eexists _, _. split; [reflexivity |]. auto.
  - subst r. erewrite bind_Raise by exact E. eexists _, _. split; [reflexivity |]. auto.
Qed.

Lemma transform_geojson_outcome_witness :
  (exists w' : world,
      transform_geojson sample_library sample_registry
        (Mapping "Point" (Some (Seq [Num 1; Num 2])) None) 4326 3857 true None sample_world
      = (convert (GeometryGeoJson_precision None) (mkGeometry wkbPoint false [(2, 4, 0)%Q] []),
         w'))
  /\ (exists w' : world,
        transform_geojson sample_library raising_registry
          (Mapping "Point" (Some (Seq [Num 1; Num 2])) None) 4326 9999 true None sample_world
        = (Raise (RuntimeError "EPSG PCS/GCS code not found"), w')).
Proof.
  split.
  - destruct (transform_geojson_outcome sample_library sample_registry sample_world
                (Mapping "Point" (Some (Seq [Num 1; Num 2])) None) 4326 3857 true None)
      as (r & w' & E & _ & _ & Hr).
    exists w'. rewrite E. f_equal. rewrite Hr. vm_compute. reflexivity.
  - destruct (transform_geojson_outcome sample_library raising_registry sample_world
                (Mapping "Point" (Some (Seq [Num 1; Num 2])) None) 4326 9999 true None)
      as (r & w' & E & _ & _ & Hr).
    exists w'. rewrite E. f_equal. exact Hr.
Defined.

(** ** Proxies *)

(** X22: [GeometryProxy.transform] leaves the geometry of the proxy
    and the target reference as they were; the proxy it returns holds a
    new, transformed geometry and the very reference object of the
    target [SrsProxy]. *)
Theorem GeometryProxy_transform_spec (L : Library) (w : world) (self : GeometryProxy)
  (srs_proxy : SrsProxy) (g : Geometry) (f t : SpatialReference) :
  geoms w !! GeometryProxy_geom self = Some g ->
  refs w !! GeometryProxy_srs self = Some f ->
  refs w !! SrsProxy_srs srs_proxy = Some t ->
  exists (r : result GeometryProxy) (w' : world),
    GeometryProxy_transform L self srs_proxy w = (r, w')
    /\ geoms w' !! GeometryProxy_geom self = Some g
    /\ refs w' !! SrsProxy_srs srs_proxy = Some t
    /\ (forall proxy,
          r = Ok proxy ->
          GeometryProxy_srs proxy = SrsProxy_srs srs_proxy
          /\ GeometryProxy_geom proxy <> GeometryProxy_geom self
          /\ geoms w' !! GeometryProxy_geom proxy
             = Some (fst (lib_transform L (traditional f) (traditional t) g))).
Proof.
  intros Hg Hf Ht. unfold GeometryProxy_transform.
  destruct (transform_by_srs_run L w _ _ _ g f t Hg Hf Ht)
    as (r & w' & E & Hg' & _ & Ht' & Hr).
  destruct r as [c | e].
  - erewrite bind_Ok by exact E. unfold GeometryProxy_init.
    erewrite bind_Ok by reflexivity.
    eexists _, _. split; [reflexivity |]. split; [exact Hg' |]. split; [exact Ht' |].
    intros proxy [= <-]. cbn [GeometryProxy_srs GeometryProxy_geom].
    destruct (lib_new_transformation L _ _) as [| d | e].
    + destruct Hr as (c' & Er & Hc & Hc').
      destruct (snd (lib_transform L (traditional f) (traditional t) g)) as [code | e];
        cbn [mbind result_bind] in Er; [injection Er as -> | discriminate].
      split_and!; [reflexivity | congruence | exact Hc'].
    + destruct Hr as [[=] _].
    + discriminate.
  - erewrite bind_Raise by exact E.
    eexists _, _. split; [reflexivity |]. split; [exact Hg' |]. split; [exact Ht' |].
    intros proxy [=].
Qed.

Lemma GeometryProxy_transform_spec_witness :
  exists (r : result GeometryProxy) (w' : world),
    GeometryProxy_transform sample_library (mkGeometryProxy 1%positive 1%positive)
      (mkSrsProxy 2%positive) sample_world = (r, w')
    /\ geoms w' !! 1%positive = Some point_3d
    /\ refs w' !! 2%positive = Some srs_3857
    /\ (forall proxy,
          r = Ok proxy ->
          GeometryProxy_srs proxy = 2%positive
          /\ GeometryProxy_geom proxy <> 1%positive
          /\ geoms w' !! GeometryProxy_geom proxy
             = Some (fst (lib_transform sample_library (traditional srs_4326)
                            (traditional srs_3857) point_3d))).
Proof.
  apply (GeometryProxy_transform_spec sample_library sample_world
           (mkGeometryProxy 1%positive 1%positive) (mkSrsProxy 2%positive)
           point_3d srs_4326 srs_3857);
    reflexivity.
Defined.

(** ** The resolution of a geometry *)

(** One cell for a span of zero. *)
Lemma cells_of_zero_span (orig : Q) : ~ orig == 0 -> cells (Finite 0) (Finite orig) = Ok 1.
Proof.
  intros Ho. rewrite (cells_finite 0 orig Ho).
  rewrite (binary64_comp (0 / orig) 0) by (field; exact Ho).
  vm_compute. reflexivity.
Qed.

(** X5: [calc_best_resolution] of a Point mapping returns a zero
    resolution on both axes, for any finite non-zero original
    resolution; fed back, that resolution raises [ZeroDivisionError]. *)
Theorem calc_best_resolution_of_a_point (w : world) (x y orig_x orig_y : Q)
  (rest : list coords) :
  ~ orig_x == 0 -> ~ orig_y == 0 ->
  exists w' : world,
    calc_best_resolution
      (inl (Mapping "Point" (Some (Seq (Num x :: Num y :: rest))) None))
      (Finite orig_x, Finite orig_y) w = (Ok (Finite 0, Finite 0), w')
    /\ fst (calc_best_resolution
              (inl (Mapping "Point" (Some (Seq (Num x :: Num y :: rest))) None))
              (Finite 0, Finite 0) w')
       = Raise (ZeroDivisionError "float division by zero").
Proof.
  intros Hx Hy.
  assert (Hrun : forall (orig : float * float) (w0 : world),
             exists w1,
               calc_best_resolution
                 (inl (Mapping "Point" (Some (Seq (Num x :: Num y :: rest))) None)) orig w0
               = (calc_best_resolution_bbox (Finite x) (Finite x) (Finite y) (Finite y) orig,
                  w1)).
  { intros orig w0. unfold calc_best_resolution.
    erewrite bind_Ok.
    2:{ erewrite bind_Ok by reflexivity. reflexivity. }
    erewrite bind_Ok by (apply geom_get_Some; cbn; apply lookup_insert_eq).
    eexists. reflexivity. }
  assert (Zx : float_sub (Finite x) (Finite x) = Finite 0).
  { cbn [float_sub]. apply binary64_zero. ring. }
  assert (Zy : float_sub (Finite y) (Finite y) = Finite 0).
  { cbn [float_sub]. apply binary64_zero. ring. }
  destruct (Hrun (Finite orig_x, Finite orig_y) w) as (w' & E).
  exists w'. split.
  - rewrite E. f_equal. rewrite calc_best_resolution_bbox_unfold, Zx, Zy. cbn [fst snd].
    rewrite (cells_of_zero_span orig_x Hx), (cells_of_zero_span orig_y Hy).
    vm_compute. reflexivity.
  - destruct (Hrun (Finite 0, Finite 0) w') as (w'' & E').
    rewrite E'. cbn [fst]. rewrite calc_best_resolution_bbox_unfold, Zx. cbn [fst snd].
    unfold cells. rewrite (py_div_zero (Finite 0) 0) by reflexivity. reflexivity.
Qed.

Lemma calc_best_resolution_of_a_point_witness :
  exists w' : world,
    calc_best_resolution
      (inl (Mapping "Point" (Some (Seq (Num 3 :: Num 4 :: []))) None))
      (Finite 10, Finite 10) sample_world = (Ok (Finite 0, Finite 0), w')
    /\ fst (calc_best_resolution
              (inl (Mapping "Point" (Some (Seq (Num 3 :: Num 4 :: []))) None))
              (Finite 0, Finite 0) w')
       = Raise (ZeroDivisionError "float division by zero").
Proof.
  apply (calc_best_resolution_of_a_point sample_world 3 4 10 10 []);
    intros H; vm_compute in H; discriminate.
Defined.

(** ** Resolutions that are not finite numbers *)

(** Any span divided by zero raises. *)
Lemma cells_of_zero_resolution (span : float) :
  cells span (Finite 0) = Raise (ZeroDivisionError "float division by zero").
Proof. unfold cells. rewrite (py_div_zero span 0) by reflexivity. reflexivity. Qed.

(** Any span divided by NaN is NaN, which [round] refuses. *)
Lemma cells_of_nan_resolution (span : float) :
  cells span NaN = Raise (ValueError "cannot convert float NaN to integer").
Proof. destruct span; reflexivity. Qed.

(** A finite span holds no cell of infinite size: the count is the
    minimum, 1. *)
Lemma cells_of_infinite_resolution (span : Q) (negative : bool) :
  cells (Finite span) (Infinity negative) = Ok 1.
Proof. vm_compute. reflexivity. Qed.

(** A float divided by the integer 1 is itself. *)
Lemma py_div_int_one (d : Q) : binary64 d = Finite d -> py_div_int (Finite d) 1 = Ok (Finite d).
Proof.
  intros E. unfold py_div_int. rewrite (float_of_int_exact 1) by (vm_compute; reflexivity).
  cbn [mbind result_bind]. change (inject_Z 1) with 1%Q.
  rewrite (py_div_finite d 1) by (intros H; discriminate).
  rewrite (binary64_comp (d / 1) d) by (field; discriminate).
  rewrite E. reflexivity.
Qed.

(** X24: whatever the bounding box and the resolution on the y axis,
    [calc_best_resolution_bbox] raises [ZeroDivisionError] for a zero
    resolution on the x axis and [ValueError] for a NaN one. *)
Theorem calc_best_resolution_bbox_zero_or_nan_resolution
  (x_min x_max y_min y_max orig_y : float) :
  calc_best_resolution_bbox x_min x_max y_min y_max (Finite 0, orig_y)
  = Raise (ZeroDivisionError "float division by zero")
  /\ calc_best_resolution_bbox x_min x_max y_min y_max (NaN, orig_y)
     = Raise (ValueError "cannot convert float NaN to integer").
Proof.
  split; rewrite calc_best_resolution_bbox_unfold; cbn [fst snd].
  - rewrite cells_of_zero_resolution. reflexivity.
  - rewrite cells_of_nan_resolution. reflexivity.
Qed.

(** X25: for a bounding box of finite width and height, an infinite
    original resolution gives one cell per axis, and the resolution
    returned is the width and the height themselves. *)
Theorem calc_best_resolution_bbox_infinite_resolution
  (x_min x_max y_min y_max : float) (dx dy : Q) (negative_x negative_y : bool) :
  float_sub x_max x_min = Finite dx -> float_sub y_max y_min = Finite dy ->
  cells (float_sub x_max x_min) (Infinity negative_x) = Ok 1
  /\ cells (float_sub y_max y_min) (Infinity negative_y) = Ok 1
  /\ calc_best_resolution_bbox x_min x_max y_min y_max
       (Infinity negative_x, Infinity negative_y)
     = Ok (Finite dx, Finite dy).
Proof.
  intros Ex Ey.
  pose proof (float_sub_value _ _ _ Ex) as Rx. pose proof (float_sub_value _ _ _ Ey) as Ry.
  rewrite calc_best_resolution_bbox_unfold, Ex, Ey. cbn [fst snd].
  rewrite !cells_of_infinite_resolution. cbn [mbind result_bind].
  rewrite (py_div_int_one dx Rx), (py_div_int_one dy Ry). split_and!; reflexivity.
Qed.

Lemma calc_best_resolution_bbox_infinite_resolution_witness :
  cells (float_sub (Finite 85) (Finite 0)) (Infinity false) = Ok 1
  /\ cells (float_sub (Finite 40) (Finite 0)) (Infinity true) = Ok 1
  /\ calc_best_resolution_bbox (Finite 0) (Finite 85) (Finite 0) (Finite 40)
       (Infinity false, Infinity true)
     = Ok (Finite 85, Finite 40).
Proof.
  apply (calc_best_resolution_bbox_infinite_resolution
           (Finite 0) (Finite 85) (Finite 0) (Finite 40) 85 40 false true);
    vm_compute; reflexivity.
Defined.

(** ** Repairing a mapping *)

(** X23: [make_valid_geojson] raises the exception of the builder,
    leaving the store as it is, when the mapping does not build; it
    raises [RuntimeError] with the diagnostic when the make-valid step
    yields nothing; and it returns the serialization of what the
    make-valid step yields when that is not a collection. *)
Theorem make_valid_geojson_outcome (L : Library) (w : world) (geometry : mapping)
  (precision : option Z) :
  match create true geometry with
  | Raise e => make_valid_geojson L geometry precision w = (Raise e, w)
  | Ok built_ =>
      match lib_make_valid L (CloseRings built_) with
      | inr diagnostic =>
          fst (make_valid_geojson L geometry precision w) = Raise (RuntimeError diagnostic)
      | inl valid =>
          gtype valid <> wkbGeometryCollection ->
          fst (make_valid_geojson L geometry precision w)
          = convert (GeometryGeoJson_precision precision) valid
      end
  end.
Proof.
  unfold make_valid_geojson. destruct (create true geometry) as [built_ | e]; [| reflexivity].
  erewrite bind_Ok by reflexivity.
  destruct (geom_new_spec w built_) as (h & En & Hn).
  erewrite bind_Ok by exact En.
  match type of En with _ = (_, ?w1') => set (w1 := w1') in * end.
  assert (Hh : geoms w1 !! h = Some built_) by apply lookup_insert_eq.
  destruct (make_valid_run L w1 h built_ Hh) as (r & w2 & E & _ & Hr).
  destruct (lib_make_valid L (CloseRings built_)) as [valid | diagnostic].
  - intros Hc. rewrite decide_False in Hr by exact Hc.
    destruct Hr as (v & -> & _ & Hv).
    erewrite bind_Ok by exact E. cbn [method].
    erewrite bind_Ok by (apply geom_get_Some; exact Hv). reflexivity.
  - subst r. erewrite bind_Raise by exact E. reflexivity.
Qed.

Lemma make_valid_geojson_outcome_witness :
  fst (make_valid_geojson sample_library
         (Mapping "Polygon"
            (Some (Seq [Seq [Seq [Num 0; Num 0]; Seq [Num 1; Num 0]; Seq [Num 1; Num 1]]]))
            None)
         None sample_world)
  = convert (GeometryGeoJson_precision None)
      (mkGeometry wkbPolygon false []
         [mkGeometry wkbLinearRing false [(0, 0, 0); (1, 0, 0); (1, 1, 0); (0, 0, 0)]%Q []]).
Proof.
  apply (make_valid_geojson_outcome sample_library sample_world
           (Mapping "Polygon"
              (Some (Seq [Seq [Seq [Num 0; Num 0]; Seq [Num 1; Num 0]; Seq [Num 1; Num 1]]]))
              None)
           None).
  discriminate.
Defined.
